(** * Nurthure Monitor: ingestion, alerting, storage and trend aggregation

    A shallow embedding of the JavaScript core of the monitor (the
    classes ConnectionManager, AlertsManager, StorageManager,
    TrendsManager, and the data paths of ExportManager and
    GeminiManager), the properties its specification states about it,
    and further properties read off the code.

    Conventions of the embedding.
    - JavaScript values are the dynamically typed [JSValue]; a number is
      a rational, an infinity or NaN, and arithmetic rounds its exact
      result to the nearest double ([Double.binary64]); the sign of zero
      is not represented.
    - A call of [Date.now()] is an explicit argument [now : Z]
      (milliseconds); one synchronous run of a method reads one instant.
    - A thrown exception or a rejected promise is the [Throw] outcome of
      the [Exc] monad.
    - An asynchronous method is run to completion: the IndexedDB
      transactions it opens are executed in the order they are created,
      which is the order IndexedDB itself guarantees for overlapping
      read-write transactions on one object store. *)

From Stdlib Require Import ZArith QArith Qround Qminmax List String Ascii Bool Lia.
From Stdlib Require Import Sorted Lqa.
From stdpp Require Import base gmap strings list pretty.
Import ListNotations.

Local Open Scope string_scope.
Local Open Scope Z_scope.
Set Warnings "-register-all,-abstract-large-number".


(** ** JavaScript values and the operators the program uses *)

Module JS.

Inductive JSError :=
| TypeError (msg : string)
| DataError (msg : string)
| StorageError (msg : string).

Inductive Exc (A : Type) :=
| Ret (a : A)
| Throw (e : JSError).
Arguments Ret {A} a.
Arguments Throw {A} e.

Definition bind {A B} (c : Exc A) (k : A -> Exc B) : Exc B :=
  match c with
  | Ret a => k a
  | Throw e => Throw e
  end.

Definition returns {A} (c : Exc A) : bool :=
  match c with Ret _ => true | Throw _ => false end.

Inductive JSValue :=
| JUndefined
| JNull
| JBool (b : bool)
| JNum (q : Q)
| JNaN
| JStr (s : string)
| JArr (elems : list JSValue)
| JObj (fields : list (string * JSValue))
| JInf (negative : bool).

(** Own-property lookup in an object's field list. *)
Fixpoint own_get (fields : list (string * JSValue)) (p : string)
  : option JSValue :=
  match fields with
  | [] => None
  | (k, v) :: rest => if String.eqb k p then Some v else own_get rest p
  end.

Definition has_own (v : JSValue) (p : string) : bool :=
  match v with
  | JObj fs => match own_get fs p with Some _ => true | None => false end
  | _ => false
  end.

(** [o[p] = v] on a field list: overwrite in place or append. *)
Fixpoint own_set (fields : list (string * JSValue)) (p : string) (v : JSValue)
  : list (string * JSValue) :=
  match fields with
  | [] => [(p, v)]
  | (k, w) :: rest =>
      if String.eqb k p then (k, v) :: rest else (k, w) :: own_set rest p v
  end.

Definition nullish (v : JSValue) : bool :=
  match v with JUndefined | JNull => true | _ => false end.

(** [v.p] for a [v] that is neither [null] nor [undefined].  The names
    [p] the program reads (timestamp, respiration, value, unit, ...) are
    neither array indices nor properties of a built-in prototype, so a
    primitive or an array answers [undefined]. *)
Definition prop (v : JSValue) (p : string) : JSValue :=
  match v with
  | JObj fs => match own_get fs p with Some w => w | None => JUndefined end
  | _ => JUndefined
  end.

(** [v.p]: a TypeError on [null] and [undefined]. *)
Definition get (v : JSValue) (p : string) : Exc JSValue :=
  if nullish v
  then Throw (TypeError ("Cannot read properties of null or undefined: " ++ p))
  else Ret (prop v p).

(** [v?.p] *)
Definition opt_get (v : JSValue) (p : string) : JSValue :=
  if nullish v then JUndefined else prop v p.

(** ToBoolean *)
Definition truthy (v : JSValue) : bool :=
  match v with
  | JUndefined | JNull | JNaN => false
  | JBool b => b
  | JNum q => negb (Qeq_bool q 0)
  | JStr s => negb (String.eqb s "")
  | JArr _ | JObj _ | JInf _ => true
  end.

(** [a ?? b] and [a || b] on already evaluated operands (the right
    operands in this program are literals or total reads). *)
Definition coalesce (a b : JSValue) : JSValue := if nullish a then b else a.
Definition or_else (a b : JSValue) : JSValue := if truthy a then a else b.


Definition is_null (v : JSValue) : bool :=
  match v with JNull => true | _ => false end.

Definition is_undefined (v : JSValue) : bool :=
  match v with JUndefined => true | _ => false end.

(** [v === s] for a string literal [s]. *)
Definition strict_eq_str (v : JSValue) (s : string) : bool :=
  match v with JStr t => String.eqb t s | _ => false end.


(** Read along a path of property names, [undefined] when it breaks. *)
Fixpoint path (v : JSValue) (ps : list string) : JSValue :=
  match ps with
  | [] => v
  | p :: rest => path (opt_get v p) rest
  end.

(** Names every plain object inherits from [Object.prototype]; a dynamic
    lookup [o[k]] with such a [k] finds the inherited (truthy,
    non-numeric) member when [o] has no own property [k]. *)
Definition object_prototype_names : list string :=
  [ "constructor"; "__defineGetter__"; "__defineSetter__"; "hasOwnProperty";
    "__lookupGetter__"; "__lookupSetter__"; "isPrototypeOf";
    "propertyIsEnumerable"; "toString"; "valueOf"; "__proto__";
    "toLocaleString" ].

Definition inherited_name (k : string) : bool :=
  existsb (String.eqb k) object_prototype_names.

(** Whether ToPrimitive returns.  The objects of this program come from
    [JSON.parse], object literals and structured clones, so no own
    property is callable: an object with an own [toString] has no
    method left to convert it (the inherited [valueOf] returns the
    object itself) and the conversion throws a TypeError; without one,
    [Object.prototype.toString] answers.  An array is joined, which
    converts every element that is not [null] or [undefined]. *)
Fixpoint converts (v : JSValue) : bool :=
  match v with
  | JObj fs => match own_get fs "toString" with Some _ => false | None => true end
  | JArr l => forallb converts l
  | _ => true
  end.

End JS.

Import JS.

#[global] Instance exc_ret : MRet Exc := @Ret.
#[global] Instance exc_bind : MBind Exc := fun A B k c => JS.bind c k.

Definition num_of_Z (z : Z) : JSValue := JNum (inject_Z z).

(** ** ConnectionManager: the reading normalizer *)

Module Normalizer.

(** [normalizeReading(data)] with [now] the value of [Date.now()]. *)
Definition normalizeReading (data : JSValue) (now : Z) : Exc JSValue :=
  ts ← get data "timestamp";
  resp ← get data "respiration";
  audio ← get data "audio";
  body ← get data "body_temp";
  posture ← get data "posture";
  radar ← get data "radar";
  env ← get data "environment";
  let temp := opt_get env "temp" in
  let co2 := opt_get env "co2" in
  let voc := opt_get env "voc" in
  let gas := opt_get env "gas" in
  Ret (JObj
    [ ("timestamp", or_else ts (num_of_Z now));
      ("respiration", JObj
         [ ("value", coalesce (opt_get resp "value") JNull);
           ("unit", or_else (opt_get resp "unit") (JStr "rpm"));
           ("confidence", coalesce (opt_get resp "confidence") (JNum 1)) ]);
      ("audio", JObj
         [ ("state", or_else (opt_get audio "state") (JStr "unknown"));
           ("level", coalesce (opt_get audio "level") (JNum 0)) ]);
      ("bodyTemp", JObj
         [ ("value", coalesce (opt_get body "value") JNull);
           ("unit", or_else (opt_get body "unit") (JStr "C")) ]);
      ("posture", JObj
         [ ("state", or_else (opt_get posture "state") (JStr "unknown"));
           ("confidence", coalesce (opt_get posture "confidence") (JNum 1)) ]);
      ("radar", JObj
         [ ("active", coalesce (opt_get radar "active") (JBool false));
           ("movement", coalesce (opt_get radar "movement") (JNum 0)) ]);
      ("environment", JObj
         [ ("temp", JObj
              [ ("value", coalesce (coalesce (opt_get temp "value") temp) JNull);
                ("unit", or_else (opt_get temp "unit") (JStr "C")) ]);
           ("co2", JObj
              [ ("value", coalesce (coalesce (opt_get co2 "value") co2) JNull);
                ("unit", or_else (opt_get co2 "unit") (JStr "ppm")) ]);
           ("voc", JObj
              [ ("value", coalesce (coalesce (opt_get voc "value") voc) JNull) ]);
           ("gas", JObj
              [ ("safe", coalesce (coalesce (opt_get gas "safe") gas)
                                  (JBool true)) ]) ]) ]).




End Normalizer.

(** ** StorageManager: the IndexedDB time-series store *)

Module Storage.

(** The outcome the storage backend gives to one request. *)
Inductive IOOutcome :=
| IOSuccess
| IOError (msg : string).

(** An object store with [keyPath: 'id', autoIncrement: true]: the
    records in ascending primary key and the key generator.  The
    records saved by this program carry no in-line [id] (see
    [storable]), so every key comes from the generator. *)
Record ObjectStore (R : Type) := mkStore {
  records : list (nat * R);
  keyGen : nat
}.
Arguments mkStore {R} _ _.
Arguments records {R} _.
Arguments keyGen {R} _.

Definition empty_store {R} : ObjectStore R := mkStore [] 1%nat.

Section ObjectStoreOps.
Context {R : Type}.

(** [store.add(record)] *)
Definition store_add (st : ObjectStore R) (r : R) : ObjectStore R * nat :=
  (mkStore (records st ++ [(keyGen st, r)]) (S (keyGen st)), keyGen st).

(** [store.count()] *)
Definition store_count (st : ObjectStore R) : nat := length (records st).

(** [cursor.delete()] of the record with primary key [k]. *)
Definition store_delete (k : nat) (st : ObjectStore R) : ObjectStore R :=
  mkStore (List.filter (fun e => negb (Nat.eqb (fst e) k)) (records st)) (keyGen st).

(** The [cursorRequest.onsuccess] handler, called once per position of
    the cursor: delete and continue while [deleted < deleteCount]. *)
Fixpoint cursor_delete (cursor : list (nat * R)) (deleted deleteCount : nat)
  (st : ObjectStore R) : ObjectStore R :=
  match cursor with
  | [] => st
  | (k, _) :: rest =>
      if Nat.ltb deleted deleteCount
      then cursor_delete rest (S deleted) deleteCount (store_delete k st)
      else st
  end.

End ObjectStoreOps.

(** A stored alert: the alert's fields and [acknowledged]. *)
Inductive Severity := CRITICAL | WARNING.

Record Alert := mkAlert {
  severity : Severity;
  title : string;
  description : string;
  key : string;
  timestamp : Z
}.

Record AlertRecord := mkAlertRecord {
  alert : Alert;
  acknowledged : bool
}.

Abbreviation ReadingRecord := (list (string * JSValue)).

Record DB := mkDB {
  readings : ObjectStore ReadingRecord;
  alerts : ObjectStore AlertRecord
}.

Definition empty_db : DB := mkDB empty_store empty_store.

Record StorageManager := mkStorage {
  db : option DB;
  maxReadings : nat;
  maxAlerts : nat
}.

(** The constructor's state, after a successful [init()]. *)
Definition initial : StorageManager := mkStorage (Some empty_db) 10000 500.

(** The own enumerable properties copied by [{...v}]. *)
Definition spread (v : JSValue) : list (string * JSValue) :=
  match v with
  | JObj fs => fs
  | JArr l => imap (fun i x => (pretty i, x)) l
  | JStr s => imap (fun i c => (pretty i, JStr (String c ""))) (list_ascii_of_string s)
  | _ => []
  end.

(** What [saveReading] is given in this program: an object (not null or
    undefined) without an in-line [id]. *)
Definition storable (reading : JSValue) : bool :=
  negb (nullish reading) && negb (has_own reading "id").

(** [cleanupOldReadings()]: the cursor of the store itself walks the
    records in ascending primary key. *)
Definition cleanupOldReadings (maxReadings : nat)
  (st : ObjectStore ReadingRecord) : ObjectStore ReadingRecord :=
  let count := store_count st in
  if Nat.ltb maxReadings count
  then cursor_delete (records st) 0 (count - maxReadings) st
  else st.

(** [saveReading(reading)]; with the database closed ([db] null) the
    promise is rejected by the TypeError of [this.db.transaction]. *)
Definition saveReading (io : IOOutcome) (sm : StorageManager)
  (reading : JSValue) (now : Z) : StorageManager * Exc nat :=
  match db sm with
  | None => (sm, Throw (TypeError "Cannot read properties of null: transaction"))
  | Some d =>
      match get reading "timestamp" with
      | Throw e => (sm, Throw e)
      | Ret ts =>
          let record := own_set (spread reading) "timestamp"
                                (or_else ts (num_of_Z now)) in
          match io with
          | IOError msg => (sm, Throw (StorageError msg))
          | IOSuccess =>
              let (st, k) := store_add (readings d) record in
              (mkStorage
                 (Some (mkDB (cleanupOldReadings (maxReadings sm) st) (alerts d)))
                 (maxReadings sm) (maxAlerts sm),
               Ret k)
          end
      end
  end.

(** The key of a record in the [timestamp] index of the readings store:
    only a number is in range of [IDBKeyRange.bound(start, end)] with
    numeric bounds. *)
Definition reading_timestamp (r : ReadingRecord) : option Q :=
  match own_get r "timestamp" with
  | Some (JNum q) => Some q
  | _ => None
  end.

(** Position of an index entry: index key first, primary key second. *)
Definition index_le {K} (leb : K -> K -> bool) (a b : K * nat) : bool :=
  if leb (fst a) (fst b)
  then if leb (fst b) (fst a) then Nat.leb (snd a) (snd b) else true
  else false.

Fixpoint index_insert {K E} (leb : K -> K -> bool) (keyOf : E -> K * nat)
  (e : E) (l : list E) : list E :=
  match l with
  | [] => [e]
  | x :: rest =>
      if index_le leb (keyOf e) (keyOf x) then e :: l
      else x :: index_insert leb keyOf e rest
  end.

(** The entries of an index in cursor order. *)
Definition index_order {K E} (leb : K -> K -> bool) (keyOf : E -> K * nat)
  (l : list E) : list E :=
  fold_right (index_insert leb keyOf) [] l.

(** [getReadings(startTime, endTime)]: [index.getAll(range)]. *)
Definition readings_in_range (st : ObjectStore ReadingRecord) (startTime endTime : Q)
  : list (nat * ReadingRecord) :=
  let indexed :=
    omap (fun e => match reading_timestamp (snd e) with
                   | Some q => Some (q, e)
                   | None => None
                   end) (records st) in
  let inside :=
    List.filter (fun qe => Qle_bool startTime (fst qe) && Qle_bool (fst qe) endTime)
           indexed in
  snd <$> index_order Qle_bool (fun qe => (fst qe, fst (snd qe))) inside.

(** A stored reading as the object handed back to the caller: the record
    with its primary key at [id]. *)
Definition reading_object (e : nat * ReadingRecord) : JSValue :=
  JObj (own_set (snd e) "id" (JNum (inject_Z (Z.of_nat (fst e))))).

Definition getReadings (sm : StorageManager) (startTime endTime : Q)
  : Exc (list JSValue) :=
  match db sm with
  | None => Throw (TypeError "Cannot read properties of null: transaction")
  | Some d => Ret (reading_object <$> readings_in_range (readings d) startTime endTime)
  end.

(** [getReadingsLastHours(hours)]; [hours] is [None] when the caller's
    value is not a number: the start time is then NaN, which
    [IDBKeyRange.bound] refuses with a DataError. *)
Definition getReadingsLastHours (sm : StorageManager) (hours : option Z) (now : Z)
  : Exc (list JSValue) :=
  let endTime := now in
  match hours with
  | Some h =>
      let startTime := endTime - h * 60 * 60 * 1000 in
      getReadings sm (inject_Z startTime) (inject_Z endTime)
  | None =>
      match db sm with
      | None => Throw (TypeError "Cannot read properties of null: transaction")
      | Some _ => Throw (DataError "The parameter is not a valid key.")
      end
  end.

(** The [timestamp] index of the alerts store in cursor order. *)
Definition alert_index (st : ObjectStore AlertRecord) : list (nat * AlertRecord) :=
  index_order Z.leb (fun e => (timestamp (alert (snd e)), fst e)) (records st).

(** [cleanupOldAlerts()]: the cursor is opened on the [timestamp]
    index. *)
Definition cleanupOldAlerts (maxAlerts : nat)
  (st : ObjectStore AlertRecord) : ObjectStore AlertRecord :=
  let count := store_count st in
  if Nat.ltb maxAlerts count
  then cursor_delete (alert_index st) 0 (count - maxAlerts) st
  else st.

(** [saveAlert(alert)] *)
Definition saveAlert (io : IOOutcome) (sm : StorageManager)
  (a : Alert) (now : Z) : StorageManager * Exc nat :=
  match db sm with
  | None => (sm, Throw (TypeError "Cannot read properties of null: transaction"))
  | Some d =>
      let record :=
        mkAlertRecord
          (mkAlert (severity a) (title a) (description a) (key a)
                   (if Z.eqb (timestamp a) 0 then now else timestamp a))
          false in
      match io with
      | IOError msg => (sm, Throw (StorageError msg))
      | IOSuccess =>
          let (st, k) := store_add (alerts d) record in
          (mkStorage
             (Some (mkDB (readings d) (cleanupOldAlerts (maxAlerts sm) st)))
             (maxReadings sm) (maxAlerts sm),
           Ret k)
      end
  end.

(** [request.result.sort((a, b) => b.timestamp - a.timestamp)]: the
    sort is stable, so alerts of equal timestamp keep their key order. *)
Fixpoint insert_desc (x : nat * AlertRecord) (l : list (nat * AlertRecord))
  : list (nat * AlertRecord) :=
  match l with
  | [] => [x]
  | y :: rest =>
      if Z.leb (timestamp (alert (snd y))) (timestamp (alert (snd x)))
      then x :: l
      else y :: insert_desc x rest
  end.

Definition sort_desc (l : list (nat * AlertRecord)) : list (nat * AlertRecord) :=
  fold_right insert_desc [] l.

(** [getAlerts(acknowledgedOnly)].  Without a filter the whole store is
    read.  With one, [index.getAll(acknowledgedOnly)] is handed a
    boolean, which is not a valid IndexedDB key: the call throws a
    DataError inside the promise. *)
Definition getAlerts (sm : StorageManager) (acknowledgedOnly : option bool)
  : Exc (list (nat * AlertRecord)) :=
  match db sm with
  | None => Throw (TypeError "Cannot read properties of null: transaction")
  | Some d =>
      match acknowledgedOnly with
      | Some _ => Throw (DataError "The parameter is not a valid key.")
      | None => Ret (sort_desc (records (alerts d)))
      end
  end.

(** [store.get(id)] and [store.put(record)] of a record that carries
    its key. *)
Definition store_get {R} (k : nat) (st : ObjectStore R) : option R :=
  snd <$> List.find (fun e => Nat.eqb (fst e) k) (records st).

Definition store_put {R} (k : nat) (r : R) (st : ObjectStore R) : ObjectStore R :=
  mkStore (map (fun e => if Nat.eqb (fst e) k then (k, r) else e) (records st))
          (keyGen st).

(** [acknowledgeAlert(alertId)] for a numeric [alertId]. *)
Definition acknowledgeAlert (io : IOOutcome) (sm : StorageManager) (alertId : nat)
  : StorageManager * Exc bool :=
  match db sm with
  | None => (sm, Throw (TypeError "Cannot read properties of null: transaction"))
  | Some d =>
      match io with
      | IOError msg => (sm, Throw (StorageError msg))
      | IOSuccess =>
          match store_get alertId (alerts d) with
          | Some r =>
              (mkStorage
                 (Some (mkDB (readings d)
                          (store_put alertId (mkAlertRecord (alert r) true)
                                     (alerts d))))
                 (maxReadings sm) (maxAlerts sm),
               Ret true)
          | None => (sm, Ret false)
          end
      end
  end.

(** [clearAlerts()]: [store.clear()] removes the records and leaves the
    key generator where it is. *)
Definition clearAlerts (io : IOOutcome) (sm : StorageManager)
  : StorageManager * Exc bool :=
  match db sm with
  | None => (sm, Throw (TypeError "Cannot read properties of null: transaction"))
  | Some d =>
      match io with
      | IOError msg => (sm, Throw (StorageError msg))
      | IOSuccess =>
          (mkStorage
             (Some (mkDB (readings d) (mkStore [] (keyGen (alerts d)))))
             (maxReadings sm) (maxAlerts sm),
           Ret true)
      end
  end.

(** The [settings] object store ([keyPath: 'key']) of an open
    database. *)
Abbreviation SettingsStore := (gmap string JSValue).

(** [saveSetting(key, value)]: [store.put({ key, value })]. *)
Definition saveSetting (io : IOOutcome) (st : SettingsStore) (k : string)
  (value : JSValue) : SettingsStore * Exc bool :=
  match io with
  | IOError msg => (st, Throw (StorageError msg))
  | IOSuccess => (<[k := value]> st, Ret true)
  end.

(** [getSetting(key, defaultValue = null)]: a stored record is an
    object, hence truthy, whatever its value. *)
Definition getSetting (io : IOOutcome) (st : SettingsStore) (k : string)
  (defaultValue : JSValue) : Exc JSValue :=
  match io with
  | IOError msg => Throw (StorageError msg)
  | IOSuccess =>
      match st !! k with
      | Some value => Ret value
      | None => Ret defaultValue
      end
  end.

End Storage.

(** ** Numbers *)

Module Double.

(** A Number: a finite value, an infinity or NaN. *)
Inductive Number :=
| Finite (q : Q)
| Infinity (negative : bool)
| NaN.

(** [n / d] rounded to the nearest integer, a tie to the even one, for
    [0 <= n] and [0 < d]. *)
Definition round_half_even (n d : Z) : Z :=
  let f := n / d in
  let r := 2 * (n mod d) in
  if r <? d then f
  else if d <? r then f + 1
  else if Z.even f then f else f + 1.

(** [2 ^ e <= n / d], for an exponent of either sign. *)
Definition at_least_pow2 (n d e : Z) : bool :=
  if 0 <=? e then 2 ^ e * d <=? n else d <=? 2 ^ (- e) * n.

(** The double nearest to a rational: a significand of 53 bits, the
    exponent of the last place between -1074 and 971, ties to the even
    significand, and an infinity from [2 ^ 1024] on. *)
Definition binary64 (q : Q) : Number :=
  let n := Z.abs (Qnum q) in
  let d := Z.pos (Qden q) in
  if n =? 0 then Finite 0
  else
    let e0 := Z.log2 n - Z.log2 d in
    let e := if at_least_pow2 n d e0 then e0 else e0 - 1 in
    let p := Z.max (e - 52) (-1074) in
    let m := if 0 <=? p then round_half_even n (d * 2 ^ p)
             else round_half_even (n * 2 ^ (- p)) d in
    if (0 <=? p) && (2 ^ 1024 <=? m * 2 ^ p) then Infinity (Qnum q <? 0)
    else
      let s := if Qnum q <? 0 then -1 else 1 in
      Finite (Qred (if 0 <=? p then inject_Z (s * m * 2 ^ p)
                    else Qmake (s * m) (Z.to_pos (2 ^ (- p))))).

Definition negative (q : Q) : bool := Qnum q <? 0.

Definition is_zero (q : Q) : bool := Qnum q =? 0.

(** [a + b], [a * b] and [a / b] of two Numbers: the exact result
    rounded to a double. *)
Definition add (a b : Number) : Number :=
  match a, b with
  | NaN, _ | _, NaN => NaN
  | Infinity s, Infinity t => if Bool.eqb s t then Infinity s else NaN
  | Infinity s, Finite _ | Finite _, Infinity s => Infinity s
  | Finite x, Finite y => binary64 (x + y)
  end.

Definition mul (a b : Number) : Number :=
  match a, b with
  | NaN, _ | _, NaN => NaN
  | Infinity s, Infinity t => Infinity (xorb s t)
  | Infinity s, Finite y | Finite y, Infinity s =>
      if is_zero y then NaN else Infinity (xorb s (negative y))
  | Finite x, Finite y => binary64 (x * y)
  end.

Definition div (a b : Number) : Number :=
  match a, b with
  | NaN, _ | _, NaN => NaN
  | Infinity _, Infinity _ => NaN
  | Infinity s, Finite y => Infinity (xorb s (negative y))
  | Finite _, Infinity _ => Finite 0
  | Finite x, Finite y =>
      if is_zero y then (if is_zero x then NaN else Infinity (negative x))
      else binary64 (x / y)
  end.

(** [Math.min] and [Math.max] of two Numbers. *)
Definition min (a b : Number) : Number :=
  match a, b with
  | NaN, _ | _, NaN => NaN
  | Infinity true, _ | _, Infinity true => Infinity true
  | Infinity false, x | x, Infinity false => x
  | Finite x, Finite y => Finite (Qmin x y)
  end.

Definition max (a b : Number) : Number :=
  match a, b with
  | NaN, _ | _, NaN => NaN
  | Infinity false, _ | _, Infinity false => Infinity false
  | Infinity true, x | x, Infinity true => x
  | Finite x, Finite y => Finite (Qmax x y)
  end.

(** [Math.round(x)]: the nearest integer, a half rounds up; exact. *)
Definition round (x : Number) : Number :=
  match x with
  | Finite q => Finite (inject_Z (Qfloor (q + (1 # 2))%Q))
  | _ => x
  end.

(** [a < b] and [a > b] against a finite bound; a comparison with NaN
    is false. *)
Definition lt (a : Number) (bound : Q) : bool :=
  match a with
  | Finite x => negb (Qle_bool bound x)
  | Infinity s => s
  | NaN => false
  end.

Definition gt (a : Number) (bound : Q) : bool :=
  match a with
  | Finite x => negb (Qle_bool x bound)
  | Infinity s => negb s
  | NaN => false
  end.

End Double.

Import Double(Number, Finite, Infinity, NaN).

(** The value of a Number. *)
Definition number_value (x : Number) : JSValue :=
  match x with
  | Finite q => JNum q
  | Infinity s => JInf s
  | NaN => JNaN
  end.

(** The number [JSON.parse] reads from a decimal literal. *)
Definition json_number (q : Q) : JSValue := number_value (Double.binary64 q).

(** ** Conversions supplied by the JavaScript engine *)

(** [Number(s)] of a string and [String(v)] of a value that converts
    are the engine's; the program is modelled for any such pair. *)
Record Runtime := mkRuntime {
  string_to_number : string -> Number;
  to_string : JSValue -> string
}.

(** ToNumber of a value that converts: an object or array goes through
    its string form. *)
Definition number_of (rt : Runtime) (v : JSValue) : Number :=
  match v with
  | JUndefined | JNaN => NaN
  | JNull => Finite 0
  | JBool b => Finite (if b then 1 else 0)
  | JNum q => Finite q
  | JInf s => Infinity s
  | JStr s => string_to_number rt s
  | JArr _ | JObj _ => string_to_number rt (to_string rt v)
  end.

Definition not_primitive : JSError :=
  TypeError "Cannot convert object to primitive value".

(** ToNumber and ToString: a TypeError when ToPrimitive throws. *)
Definition to_number (rt : Runtime) (v : JSValue) : Exc Number :=
  if converts v then Ret (number_of rt v) else Throw not_primitive.

Definition to_text (rt : Runtime) (v : JSValue) : Exc string :=
  if converts v then Ret (to_string rt v) else Throw not_primitive.

(** [v < bound] and [v > bound] against a numeric bound. *)
Definition js_lt (rt : Runtime) (v : JSValue) (bound : Q) : Exc bool :=
  x ← to_number rt v; mret (Double.lt x bound).

Definition js_gt (rt : Runtime) (v : JSValue) (bound : Q) : Exc bool :=
  x ← to_number rt v; mret (Double.gt x bound).

(** ** AlertsManager: threshold checks and cooldown *)

Module Alerts.
Import Storage.

Record Thresholds := mkThresholds {
  respiration_min : Q;
  respiration_max : Q;
  co2_max : Q;
  bodyTemp_min : Q;
  bodyTemp_max : Q;
  voc_max : Q
}.

Record AlertsManager := mkAlerts {
  thresholds : Thresholds;
  alertCooldown : Z;
  lastAlerts : gmap string Z
}.

Definition default_thresholds : Thresholds :=
  mkThresholds 20 60 1000 36 38 1.

Definition initial : AlertsManager := mkAlerts default_thresholds 30000 ∅.

(** The alert engine together with what it acts on: the global storage
    manager, the alerts whose [saveAlert] resolved and the ['alert']
    events handed to [emit], both oldest first.  [emit] passes each
    event to every registered listener. *)
Record World := mkWorld {
  manager : AlertsManager;
  storage : StorageManager;
  saved : list Alert;
  emitted : list Alert
}.

(** [createAlert(severity, title, description, key)] *)
Definition createAlert (sev : Severity) (ttl descr k : string) (now : Z) : Alert :=
  mkAlert sev ttl descr k now.

(** [shouldTriggerAlert(key)] *)
Definition shouldTriggerAlert (am : AlertsManager) (k : string) (now : Z) : bool :=
  let lastTime := default 0 (lastAlerts am !! k) in
  Z.ltb (alertCooldown am) (now - lastTime).

(** [triggerAlert(alert)]: the cooldown stamp is written before the
    first [await]; a rejected [saveAlert] leaves the function there.
    Sound, vibration and the browser notification belong to the
    presentation layer and are left out. *)
Definition triggerAlert (io : Alert -> IOOutcome) (w : World) (a : Alert) (now : Z)
  : World * Exc unit :=
  let am := manager w in
  let am' := mkAlerts (thresholds am) (alertCooldown am)
                      (<[key a := timestamp a]> (lastAlerts am)) in
  match db (storage w) with
  | Some _ =>
      match saveAlert (io a) (storage w) a now with
      | (sm', Ret _) => (mkWorld am' sm' (saved w ++ [a]) (emitted w ++ [a]), Ret tt)
      | (sm', Throw e) => (mkWorld am' sm' (saved w) (emitted w), Throw e)
      end
  | None => (mkWorld am' (storage w) (saved w) (emitted w ++ [a]), Ret tt)
  end.

Section Checks.
Context (rt : Runtime).

Definition check_respiration (th : Thresholds) (reading : JSValue) (now : Z)
  : Exc (list Alert) :=
  r ← get reading "respiration";
  if negb (is_null (opt_get r "value")) then
    r' ← get reading "respiration";
    resp ← get r' "value";
    low ← js_lt rt resp (respiration_min th);
    if (low : bool) then
      text ← to_text rt resp;
      mret [createAlert CRITICAL "Apnea Detected (mmWave)"
              ("No respiration detected for 15 seconds. Current: "
                 ++ text ++ " rpm")
              "respiration_low" now]
    else
      high ← js_gt rt resp (respiration_max th);
      if (high : bool) then
        text ← to_text rt resp;
        mret [createAlert WARNING "High Respiration Rate"
                ("Respiration rate elevated at " ++ text ++ " rpm")
                "respiration_high" now]
      else mret []
  else mret [].

Definition check_co2 (th : Thresholds) (reading : JSValue) (now : Z)
  : Exc (list Alert) :=
  e ← get reading "environment";
  if negb (is_null (opt_get (opt_get e "co2") "value")) then
    e' ← get reading "environment";
    c ← get e' "co2";
    co2 ← get c "value";
    high ← js_gt rt co2 (co2_max th);
    if (high : bool) then
      text ← to_text rt co2;
      mret [createAlert WARNING "High CO₂ (MH-Z19C)"
              ("Carbon dioxide levels exceeded "
                 ++ to_string rt (JNum (co2_max th)) ++ " ppm. Current: "
                 ++ text ++ " ppm")
              "co2_high" now]
    else mret []
  else mret [].

Definition check_bodyTemp (th : Thresholds) (reading : JSValue) (now : Z)
  : Exc (list Alert) :=
  b ← get reading "bodyTemp";
  if negb (is_null (opt_get b "value")) then
    b' ← get reading "bodyTemp";
    temp ← get b' "value";
    low ← js_lt rt temp (bodyTemp_min th);
    if (low : bool) then
      text ← to_text rt temp;
      mret [createAlert WARNING "Low Body Temperature"
              ("Body temperature below normal at " ++ text ++ "°C")
              "temp_low" now]
    else
      high ← js_gt rt temp (bodyTemp_max th);
      if (high : bool) then
        text ← to_text rt temp;
        mret [createAlert CRITICAL "High Body Temperature"
                ("Fever detected at " ++ text ++ "°C")
                "temp_high" now]
      else mret []
  else mret [].

Definition check_posture (reading : JSValue) (now : Z) : Exc (list Alert) :=
  p ← get reading "posture";
  mret (if strict_eq_str (opt_get p "state") "prone" then
          [createAlert WARNING "Prone Position (Camera)"
             "Infant rolled onto stomach detected by vision system."
             "posture_prone" now]
        else []).

Definition check_voc (th : Thresholds) (reading : JSValue) (now : Z)
  : Exc (list Alert) :=
  e ← get reading "environment";
  if negb (is_null (opt_get (opt_get e "voc") "value")) then
    e' ← get reading "environment";
    v ← get e' "voc";
    voc ← get v "value";
    high ← js_gt rt voc (voc_max th);
    if (high : bool) then
      text ← to_text rt voc;
      mret [createAlert WARNING "High VOC Levels"
              ("Volatile organic compounds elevated at " ++ text)
              "voc_high" now]
    else mret []
  else mret [].

Definition check_gas (reading : JSValue) (now : Z) : Exc (list Alert) :=
  e ← get reading "environment";
  mret (match opt_get (opt_get e "gas") "safe" with
        | JBool false =>
            [createAlert CRITICAL "Gas Safety Alert"
               "Unsafe gas levels detected by MQ-135 sensor."
               "gas_unsafe" now]
        | _ => []
        end).

Definition check_audio (reading : JSValue) (now : Z) : Exc (list Alert) :=
  a ← get reading "audio";
  mret (if strict_eq_str (opt_get a "state") "choking" then
          [createAlert CRITICAL "Choking Sound (MEMS)"
             "Audio pattern matching choking detected."
             "audio_choking" now]
        else []).

(** The conditions of [checkReading] in source order. *)
Definition evaluate (th : Thresholds) (reading : JSValue) (now : Z)
  : Exc (list Alert) :=
  a1 ← check_respiration th reading now;
  a2 ← check_co2 th reading now;
  a3 ← check_bodyTemp th reading now;
  a4 ← check_posture reading now;
  a5 ← check_voc th reading now;
  a6 ← check_gas reading now;
  a7 ← check_audio reading now;
  mret (a1 ++ a2 ++ a3 ++ a4 ++ a5 ++ a6 ++ a7)%list.

(** [alerts.forEach(...)]: a rejected [triggerAlert] promise is nobody's
    to handle and the loop goes on. *)
Definition process (io : Alert -> IOOutcome) (w : World) (alerts : list Alert)
  (now : Z) : World :=
  fold_left
    (fun w a =>
       if shouldTriggerAlert (manager w) (key a) now
       then fst (triggerAlert io w a now)
       else w)
    alerts w.

(** [checkReading(reading)] *)
Definition checkReading (io : Alert -> IOOutcome) (w : World)
  (reading : JSValue) (now : Z) : World * Exc (list Alert) :=
  match evaluate (thresholds (manager w)) reading now with
  | Throw e => (w, Throw e)
  | Ret alerts => (process io w alerts now, Ret alerts)
  end.

End Checks.


(** The nine condition keys. *)
Definition condition_keys : list string :=
  [ "respiration_low"; "respiration_high"; "co2_high"; "temp_low"; "temp_high";
    "posture_prone"; "voc_high"; "gas_unsafe"; "audio_choking" ].

End Alerts.

(** ** TrendsManager: chart data, statistics, cache and downsampling *)

Module Trends.
Import Storage.

Section Arithmetic.
Context (rt : Runtime).

(** ToPrimitive of an array or a plain object is a string. *)
Definition stringy (v : JSValue) : bool :=
  match v with JStr _ | JArr _ | JObj _ => true | _ => false end.

(** [a + b]: both operands are converted to primitives; a string on
    either side makes it a concatenation, else the Numbers are added. *)
Definition js_add (a b : JSValue) : Exc JSValue :=
  if converts a && converts b then
    Ret (if stringy a || stringy b
         then JStr (to_string rt a ++ to_string rt b)
         else number_value (Double.add (number_of rt a) (number_of rt b)))
  else Throw not_primitive.

(** [values.reduce((a, b) => a + b, acc)] *)
Fixpoint reduce_add (values : list JSValue) (acc : JSValue) : Exc JSValue :=
  match values with
  | [] => Ret acc
  | v :: rest => sum ← js_add acc v; reduce_add rest sum
  end.

(** The arguments of [Math.min] and [Math.max], all converted first. *)
Fixpoint to_numbers (values : list JSValue) : Exc (list Number) :=
  match values with
  | [] => Ret []
  | v :: rest => x ← to_number rt v; xs ← to_numbers rest; mret (x :: xs)
  end.

(** [Math.min(...values)] and [Math.max(...values)] *)
Definition math_min (values : list JSValue) : Exc Number :=
  xs ← to_numbers values; mret (fold_left Double.min xs (Infinity false)).

Definition math_max (values : list JSValue) : Exc Number :=
  xs ← to_numbers values; mret (fold_left Double.max xs (Infinity true)).

(** [Math.round(x * 100) / 100] *)
Definition round2 (x : Number) : Number :=
  Double.div (Double.round (Double.mul x (Finite 100))) (Finite 100).

Record Stats := mkStats {
  stat_min : JSValue;
  stat_max : JSValue;
  stat_avg : JSValue;
  stat_count : nat
}.

(** [calculateStats(values)] *)
Definition calculateStats (values : list JSValue) : Exc Stats :=
  if Nat.eqb (length values) 0 then Ret (mkStats JNull JNull JNull 0)
  else
    sum ← reduce_add values (JNum 0);
    let avg := Double.div (number_of rt sum)
                          (Finite (inject_Z (Z.of_nat (length values)))) in
    min ← math_min values;
    max ← math_max values;
    mret (mkStats (number_value (round2 min)) (number_value (round2 max))
                  (number_value (round2 avg)) (length values)).

End Arithmetic.

(** The two shapes of a chart-data object: [getEmptyData()] has
    [isEmpty] and no [timeRange]/[sensor]; the computed result has
    [timeRange] and [sensor] and no [isEmpty].  An absent property is
    [None]. *)
Record ChartData := mkChart {
  points : list JSValue;
  values : list JSValue;
  timestamps : list JSValue;
  stats : Stats;
  isEmpty : option bool;
  timeRange : option string;
  sensor : option string
}.

(** [getEmptyData()] *)
Definition getEmptyData : ChartData :=
  mkChart [] [] [] (mkStats JNull JNull JNull 0) (Some true) None None.

(** The [switch (sensor)] of [extractSensorData]. *)
Definition sensor_value (reading : JSValue) (sensor : string) : Exc JSValue :=
  if String.eqb sensor "respiration" then
    r ← get reading "respiration"; mret (opt_get r "value")
  else if String.eqb sensor "bodyTemp" then
    r ← get reading "bodyTemp"; mret (opt_get r "value")
  else if String.eqb sensor "co2" then
    e ← get reading "environment"; mret (opt_get (opt_get e "co2") "value")
  else if String.eqb sensor "voc" then
    e ← get reading "environment"; mret (opt_get (opt_get e "voc") "value")
  else if String.eqb sensor "envTemp" then
    e ← get reading "environment"; mret (opt_get (opt_get e "temp") "value")
  else if String.eqb sensor "audioLevel" then
    a ← get reading "audio"; mret (opt_get a "level")
  else if String.eqb sensor "movement" then
    r ← get reading "radar"; mret (opt_get r "movement")
  else mret JNull.

Record SensorData := mkSensorData {
  sd_points : list JSValue;
  sd_values : list JSValue;
  sd_timestamps : list JSValue
}.

(** [extractSensorData(readings, sensor)] *)
Fixpoint extract_loop (readings : list JSValue) (sensor : string)
  (acc : SensorData) : Exc SensorData :=
  match readings with
  | [] => mret acc
  | reading :: rest =>
      value ← sensor_value reading sensor;
      if negb (is_null value) && negb (is_undefined value) then
        ts ← get reading "timestamp";
        extract_loop rest sensor
          (mkSensorData
             (sd_points acc ++ [JObj [("x", ts); ("y", value)]])
             (sd_values acc ++ [value])
             (sd_timestamps acc ++ [ts]))
      else extract_loop rest sensor acc
  end.

Definition extractSensorData (readings : list JSValue) (sensor : string)
  : Exc SensorData :=
  extract_loop readings sensor (mkSensorData [] [] []).

(** [this.timeRanges] *)
Definition timeRanges : list (string * Z) :=
  [ ("1h", 1); ("24h", 24); ("7d", 24 * 7); ("1m", 24 * 30) ].

(** [this.timeRanges[timeRange] || 1]: an own entry, else a member
    inherited from [Object.prototype] (truthy, and NaN once multiplied:
    [None]), else the default. *)
Definition lookup_hours (timeRange : string) : option Z :=
  match List.find (fun e => String.eqb (fst e) timeRange) timeRanges with
  | Some e => Some (snd e)
  | None => if inherited_name timeRange then None else Some 1
  end.

(** The manager's cache; [nextObject] numbers the result objects it
    creates, so that two results are the same object exactly when they
    carry the same number. *)
Record TrendsManager := mkTrends {
  cachedData : gmap string (nat * ChartData);
  lastCacheTime : gmap string Z;
  cacheExpiry : Z;
  nextObject : nat
}.

Definition initial : TrendsManager := mkTrends ∅ ∅ 60000 0.

Definition cacheKey (sensor timeRange : string) : string :=
  sensor ++ "_" ++ timeRange.

(** [this.cachedData[cacheKey] && now - this.lastCacheTime[cacheKey] <
    this.cacheExpiry].  The key ["__proto__"] reads the prototype of the
    two plain objects, never a number, and the comparison with NaN
    fails. *)
Definition cache_hit (tm : TrendsManager) (k : string) (now : Z)
  : option (nat * ChartData) :=
  if String.eqb k "__proto__" then None
  else
    match cachedData tm !! k, lastCacheTime tm !! k with
    | Some r, Some t => if Z.ltb (now - t) (cacheExpiry tm) then Some r else None
    | _, _ => None
    end.

(** [this.cachedData[cacheKey] = result; this.lastCacheTime[cacheKey] =
    now] and the allocation of [result].  Assigning to ["__proto__"]
    creates no own property. *)
Definition cache_store (tm : TrendsManager) (k : string) (result : ChartData)
  (now : Z) : TrendsManager :=
  if String.eqb k "__proto__"
  then mkTrends (cachedData tm) (lastCacheTime tm) (cacheExpiry tm)
                (S (nextObject tm))
  else mkTrends (<[k := (nextObject tm, result)]> (cachedData tm))
                (<[k := now]> (lastCacheTime tm)) (cacheExpiry tm)
                (S (nextObject tm)).

(** A fresh [getEmptyData()] object, not cached. *)
Definition fresh_empty (tm : TrendsManager) : TrendsManager * Exc (nat * ChartData) :=
  (mkTrends (cachedData tm) (lastCacheTime tm) (cacheExpiry tm) (S (nextObject tm)),
   Ret (nextObject tm, getEmptyData)).

(** [getChartData(sensor, timeRange)] *)
Definition getChartData (rt : Runtime) (tm : TrendsManager) (sm : StorageManager)
  (sensor timeRange : string) (now : Z)
  : TrendsManager * Exc (nat * ChartData) :=
  let k := cacheKey sensor timeRange in
  match cache_hit tm k now with
  | Some cached => (tm, Ret cached)
  | None =>
      let hours := lookup_hours timeRange in
      match db sm with
      | None => fresh_empty tm
      | Some _ =>
          match getReadingsLastHours sm hours now with
          | Throw e => (tm, Throw e)
          | Ret readings =>
              if Nat.eqb (length readings) 0 then fresh_empty tm
              else
                match extractSensorData readings sensor with
                | Throw e => (tm, Throw e)
                | Ret data =>
                    match calculateStats rt (sd_values data) with
                    | Throw e => (tm, Throw e)
                    | Ret st =>
                        let result :=
                          mkChart (sd_points data) (sd_values data)
                                  (sd_timestamps data) st None
                                  (Some timeRange) (Some sensor) in
                        (cache_store tm k result now,
                         Ret (nextObject tm, result))
                    end
                end
          end
      end
  end.

(** [clearCache()]: two new empty objects. *)
Definition clearCache (tm : TrendsManager) : TrendsManager :=
  mkTrends ∅ ∅ (cacheExpiry tm) (nextObject tm).

(** [Math.ceil(n / maxPoints)] for a positive integer [maxPoints]. *)
Definition ceil_div (n m : nat) : nat :=
  (n / m + if Nat.eqb (n mod m) 0 then 0 else 1)%nat.

(** The [for (let i = 0; i < data.points.length; i += step)] loop; each
    round of [fuel] is one test of the loop condition. *)
Fixpoint sample_loop (fuel i step : nat) (data : ChartData)
  (acc : SensorData) : SensorData :=
  match fuel with
  | O => acc
  | S fuel' =>
      if Nat.ltb i (length (points data)) then
        sample_loop fuel' (i + step) step data
          (mkSensorData
             (sd_points acc ++ [nth i (points data) JUndefined])
             (sd_values acc ++ [nth i (values data) JUndefined])
             (sd_timestamps acc ++ [nth i (timestamps data) JUndefined]))
      else acc
  end.

(** [downsample(data, maxPoints)] for a natural [maxPoints].  With
    [maxPoints = 0] the step is infinite and the loop runs once. *)
Definition downsample (data : ChartData) (maxPoints : nat) : ChartData :=
  let n := length (points data) in
  if Nat.leb n maxPoints then data
  else
    let sampled :=
      match maxPoints with
      | O => sample_loop 1 0 0 data (mkSensorData [] [] [])
      | S _ => sample_loop (S n) 0 (ceil_div n maxPoints) data
                           (mkSensorData [] [] [])
      end in
    mkChart (sd_points sampled) (sd_values sampled) (sd_timestamps sampled)
            (stats data) (isEmpty data) (timeRange data) (sensor data).

End Trends.

(** ** ConnectionManager: the polling loop *)

Module Poller.

Inductive Event :=
| Connected (address : string)
| Disconnected (error : string)
| Data (reading : JSValue)
| Error (message : string) (retries : nat).

Record ConnectionManager := mkConnection {
  isConnected : bool;
  piAddress : string;
  piPort : string;
  pollInterval : Z;
  currentRetries : nat;
  pollTimer : option nat;
  lastReading : option JSValue
}.

(** [get url()] *)
Definition url (c : ConnectionManager) : string :=
  "http://" ++ piAddress c ++ ":" ++ piPort c.

(** The manager inside the browser's event loop: the timers armed by
    [setTimeout] and not yet fired or cleared, the [fetch] calls still
    awaited (each with the URL it was sent to), and the events handed to
    [emit], each with the request whose continuation emitted it.  The
    listeners are taken not to throw. *)
Record Loop := mkLoop {
  conn : ConnectionManager;
  timers : list (nat * Z);
  inflight : list (nat * string);
  nextTimer : nat;
  nextRequest : nat;
  log : list (nat * Event)
}.

(** The constructor's state with nothing in [localStorage]; the first
    timer identifier is 1. *)
Definition initial : Loop :=
  mkLoop (mkConnection false "192.168.4.1" "80" 2000 0 None None) [] [] 1 0 [].

(** How an awaited [fetchReadings] ends: a JSON body, or a failure
    (network error, the 5000 ms abort, a non-2xx status, a body that is
    not JSON) with its message. *)
Inductive FetchOutcome :=
| Body (data : JSValue)
| Failure (message : string).

Definition error_message (e : JSError) : string :=
  match e with TypeError m | DataError m | StorageError m => m end.

(** [poll()] up to its [await]: the request leaves for the current URL. *)
Definition poll_begin (l : Loop) : Loop :=
  mkLoop (conn l) (timers l) (inflight l ++ [(nextRequest l, url (conn l))])
         (nextTimer l) (S (nextRequest l)) (log l).

(** [handleError(error)] *)
Definition handleError (req : nat) (message : string) (l : Loop) : Loop :=
  let c := conn l in
  let retries := S (currentRetries c) in
  if isConnected c then
    mkLoop (mkConnection false (piAddress c) (piPort c) (pollInterval c)
                         retries (pollTimer c) None)
           (timers l) (inflight l) (nextTimer l) (nextRequest l)
           (log l ++ [(req, Disconnected message); (req, Error message retries)])
  else
    mkLoop (mkConnection false (piAddress c) (piPort c) (pollInterval c)
                         retries (pollTimer c) (lastReading c))
           (timers l) (inflight l) (nextTimer l) (nextRequest l)
           (log l ++ [(req, Error message retries)]).

(** The [if (reading)] branch of [poll()]; a normalized reading is an
    object, hence truthy. *)
Definition handleReading (req : nat) (reading : JSValue) (l : Loop) : Loop :=
  let c := conn l in
  if isConnected c then
    mkLoop (mkConnection true (piAddress c) (piPort c) (pollInterval c)
                         (currentRetries c) (pollTimer c) (Some reading))
           (timers l) (inflight l) (nextTimer l) (nextRequest l)
           (log l ++ [(req, Data reading)])
  else
    mkLoop (mkConnection true (piAddress c) (piPort c) (pollInterval c)
                         0 (pollTimer c) (Some reading))
           (timers l) (inflight l) (nextTimer l) (nextRequest l)
           (log l ++ [(req, Connected (piAddress c)); (req, Data reading)]).

(** [this.pollTimer = setTimeout(() => this.poll(), this.pollInterval)] *)
Definition rearm (l : Loop) : Loop :=
  let c := conn l in
  mkLoop (mkConnection (isConnected c) (piAddress c) (piPort c) (pollInterval c)
                       (currentRetries c) (Some (nextTimer l)) (lastReading c))
         (timers l ++ [(nextTimer l, pollInterval c)]) (inflight l)
         (S (nextTimer l)) (nextRequest l) (log l).

(** [poll()] after its [await], for the request [req]. *)
Definition poll_resume (req : nat) (outcome : FetchOutcome) (now : Z) (l : Loop)
  : Loop :=
  let l1 :=
    match outcome with
    | Body data =>
        match Normalizer.normalizeReading data now with
        | Ret reading => handleReading req reading l
        | Throw e => handleError req (error_message e) l
        end
    | Failure message => handleError req message l
    end in
  rearm l1.

Definition remove_key {A} (k : nat) (l : list (nat * A)) : list (nat * A) :=
  List.filter (fun e => negb (Nat.eqb (fst e) k)) l.

Definition has_key {A} (k : nat) (l : list (nat * A)) : bool :=
  existsb (fun e => Nat.eqb (fst e) k) l.

(** [start()] *)
Definition start (l : Loop) : Loop := poll_begin l.

(** [stop()]: [clearTimeout] of an identifier that has fired already
    clears nothing. *)
Definition stop (l : Loop) : Loop :=
  let c := conn l in
  match pollTimer c with
  | Some t =>
      mkLoop (mkConnection (isConnected c) (piAddress c) (piPort c)
                           (pollInterval c) (currentRetries c) None
                           (lastReading c))
             (remove_key t (timers l))
             (inflight l) (nextTimer l) (nextRequest l) (log l)
  | None => l
  end.

(** [configure(address, port, interval)] *)
Definition configure (address port : string) (interval : Z) (l : Loop) : Loop :=
  let c := conn l in
  let l1 :=
    mkLoop (mkConnection (isConnected c) address port interval
                         (currentRetries c) (pollTimer c) (lastReading c))
           (timers l) (inflight l) (nextTimer l) (nextRequest l) (log l) in
  start (stop l1).

(** What can happen next: a call from the application, a timer that
    fires, an awaited request that settles. *)
Inductive Input :=
| CallStart
| CallStop
| CallConfigure (address port : string) (interval : Z)
| TimerFires (timer : nat)
| FetchSettles (req : nat) (outcome : FetchOutcome) (now : Z).

Definition step (l : Loop) (i : Input) : Loop :=
  match i with
  | CallStart => start l
  | CallStop => stop l
  | CallConfigure a p n => configure a p n l
  | TimerFires t =>
      if has_key t (timers l)
      then poll_begin (mkLoop (conn l) (remove_key t (timers l)) (inflight l)
                              (nextTimer l) (nextRequest l) (log l))
      else l
  | FetchSettles r outcome now =>
      if has_key r (inflight l)
      then poll_resume r outcome now
             (mkLoop (conn l) (timers l) (remove_key r (inflight l))
                     (nextTimer l) (nextRequest l) (log l))
      else l
  end.

Definition run (l : Loop) (inputs : list Input) : Loop :=
  fold_left step inputs l.

(** [getStatus()] *)
Record Status := mkStatus {
  status_connected : bool;
  status_address : string;
  status_port : string;
  status_lastReading : option JSValue
}.

Definition getStatus (c : ConnectionManager) : Status :=
  mkStatus (isConnected c) (piAddress c) (piPort c) (lastReading c).

End Poller.

(** ** The event registries of ConnectionManager and AlertsManager *)

Module Events.

(** A callback is a function object, known by its identity. *)
Abbreviation Callback := nat.

(** [this.listeners]: a plain object whose own properties are the
    arrays of the events named in the constructor. *)
Abbreviation Listeners := (gmap string (list Callback)).

(** [this.listeners] of a new ConnectionManager and of a new
    AlertsManager. *)
Definition connection_listeners : Listeners :=
  {[ "connected" := []; "disconnected" := []; "data" := []; "error" := [] ]}.

Definition alerts_listeners : Listeners :=
  {[ "alert" := []; "alertCleared" := [] ]}.

(** [this.listeners[event]]: an own array, a member inherited from
    [Object.prototype] (truthy, and without [push], [filter] or
    [forEach]), or [undefined].  The name ["__proto__"] always reads
    the prototype. *)
Inductive Slot :=
| Registered (callbacks : list Callback)
| Inherited
| Absent.

Definition slot (ls : Listeners) (event : string) : Slot :=
  if String.eqb event "__proto__" then Inherited
  else
    match ls !! event with
    | Some callbacks => Registered callbacks
    | None => if inherited_name event then Inherited else Absent
    end.

(** [on(event, callback)] *)
Definition on (ls : Listeners) (event : string) (callback : Callback)
  : Exc Listeners :=
  match slot ls event with
  | Registered callbacks => Ret (<[event := (callbacks ++ [callback])%list]> ls)
  | Inherited => Throw (TypeError "this.listeners[event].push is not a function")
  | Absent => Ret ls
  end.

(** [off(event, callback)] of ConnectionManager *)
Definition off (ls : Listeners) (event : string) (callback : Callback)
  : Exc Listeners :=
  match slot ls event with
  | Registered callbacks =>
      Ret (<[event := List.filter (fun cb => negb (Nat.eqb cb callback)) callbacks]> ls)
  | Inherited => Throw (TypeError "this.listeners[event].filter is not a function")
  | Absent => Ret ls
  end.

(** [emit(event, data)]: the callbacks called with [data], in order.
    The callbacks are taken to return. *)
Definition emit (ls : Listeners) (event : string) : Exc (list Callback) :=
  match slot ls event with
  | Registered callbacks => Ret callbacks
  | Inherited => Throw (TypeError "this.listeners[event].forEach is not a function")
  | Absent => Ret []
  end.

End Events.

(** ** ExportManager: the readings of a time range *)

Module ExportManager.
Import Storage.

(** [this.timeRanges]; ['all'] is [null]. *)
Definition timeRanges : list (string * option Z) :=
  [ ("1h", Some 1); ("24h", Some 24); ("7d", Some (24 * 7));
    ("1m", Some (24 * 30)); ("all", None) ].

(** [this.timeRanges[timeRange] || 24]: an own entry when it is truthy,
    else a member inherited from [Object.prototype] (truthy, and NaN
    once multiplied: [None]), else the default. *)
Definition lookup_hours (timeRange : string) : option Z :=
  match List.find (fun e => String.eqb (fst e) timeRange) timeRanges with
  | Some (_, Some h) => if Z.eqb h 0 then Some 24 else Some h
  | Some (_, None) => Some 24
  | None => if inherited_name timeRange then None else Some 24
  end.

(** [getStartTime(timeRange)]; [None] is NaN. *)
Definition getStartTime (timeRange : string) (now : Z) : option Z :=
  if String.eqb timeRange "all" then Some 0
  else
    match lookup_hours timeRange with
    | Some hours => Some (now - hours * 60 * 60 * 1000)
    | None => None
    end.

(** [getReadings(timeRange)] *)
Definition getReadings (sm : StorageManager) (timeRange : string) (now : Z)
  : Exc (list JSValue) :=
  match db sm with
  | None => Ret []
  | Some _ =>
      if String.eqb timeRange "all"
      then Storage.getReadings sm 0 (inject_Z now)
      else getReadingsLastHours sm (lookup_hours timeRange) now
  end.

End ExportManager.

(** ** GeminiManager: the cached analysis *)

Module Gemini.
Import Storage.

Record GeminiManager := mkGemini {
  apiKey : string;
  lastAnalysis : JSValue;
  lastAnalysisTime : JSValue;
  analysisInterval : Z
}.

(** The constructor's state, with the key found in [localStorage] or
    the empty string. *)
Definition initial (key : string) : GeminiManager :=
  mkGemini key JNull (JNum 0) (5 * 60 * 1000).

(** [setApiKey(key)] *)
Definition setApiKey (g : GeminiManager) (key : string) : GeminiManager :=
  mkGemini key (lastAnalysis g) (lastAnalysisTime g) (analysisInterval g).

(** [isConfigured()]: [this.apiKey && this.apiKey.length > 0] *)
Definition isConfigured (g : GeminiManager) : bool :=
  negb (String.eqb (apiKey g) "") && Nat.ltb 0 (String.length (apiKey g)).

(** What the promise of [generateAnalysis] settles with:
    [{ success: false, error }], [{ success: true, analysis, cached }],
    or a rejection. *)
Inductive AnalysisResult :=
| Failed (error : string)
| Analysis (analysis : JSValue) (cached : bool)
| Rejected (e : JSError).

(** How the awaited [callGeminiAPI(prompt)] ends: the text of the first
    candidate, or an error with its message. *)
Inductive ApiOutcome :=
| ApiText (text : string)
| ApiError (message : string).

(** [getRecentReadings()] *)
Definition getRecentReadings (sm : StorageManager) (now : Z)
  : Exc (list JSValue) :=
  match db sm with
  | None => Ret []
  | Some _ => getReadingsLastHours sm (Some 1) now
  end.

(** [error.message || 'Failed to generate analysis'] *)
Definition message_or_default (message : string) : string :=
  if String.eqb message "" then "Failed to generate analysis" else message.

Definition error_message (e : JSError) : string :=
  match e with TypeError m | DataError m | StorageError m => m end.

(** [now - this.lastAnalysisTime < this.analysisInterval]; false when
    the stored time is NaN.  The times are integers of milliseconds, on
    which the subtraction is exact. *)
Definition within_interval (rt : Runtime) (g : GeminiManager) (now : Z)
  : Exc bool :=
  t ← to_number rt (lastAnalysisTime g);
  mret (match t with
        | Finite t =>
            negb (Qle_bool (inject_Z (analysisInterval g)) (inject_Z now - t))
        | Infinity s => negb s
        | NaN => false
        end).

(** [generateAnalysis(forceRefresh)]; [api] is the outcome of the API
    call and [io] the outcome of the write to the settings store, for
    the calls that get that far. *)
Definition generateAnalysis (rt : Runtime) (api : ApiOutcome) (io : IOOutcome)
  (g : GeminiManager) (sm : StorageManager) (settings : SettingsStore)
  (forceRefresh : bool) (now : Z)
  : GeminiManager * SettingsStore * AnalysisResult :=
  if negb (isConfigured g) then
    (g, settings,
     Failed "Gemini API key not configured. Please add your API key in Settings.")
  else
    match (if negb forceRefresh && truthy (lastAnalysis g)
           then within_interval rt g now else Ret false) with
    | Throw e => (g, settings, Rejected e)
    | Ret true => (g, settings, Analysis (lastAnalysis g) true)
    | Ret false =>
        match getRecentReadings sm now with
        | Throw e => (g, settings, Failed (message_or_default (error_message e)))
        | Ret readings =>
            if Nat.eqb (length readings) 0
            then (g, settings, Failed "No sensor data available for analysis.")
            else
              match api with
              | ApiError message =>
                  (g, settings, Failed (message_or_default message))
              | ApiText response =>
                  let g' := mkGemini (apiKey g) (JStr response) (num_of_Z now)
                                     (analysisInterval g) in
                  match db sm with
                  | None => (g', settings, Analysis (JStr response) false)
                  | Some _ =>
                      match saveSetting io settings "lastAnalysis"
                              (JObj [("text", JStr response);
                                     ("timestamp", num_of_Z now)]) with
                      | (settings', Ret _) =>
                          (g', settings', Analysis (JStr response) false)
                      | (_, Throw e) =>
                          (g', settings,
                           Failed (message_or_default (error_message e)))
                      end
                  end
              end
        end
    end.

(** [loadLastAnalysis()] *)
Definition loadLastAnalysis (io : IOOutcome) (g : GeminiManager)
  (sm : StorageManager) (settings : SettingsStore)
  : GeminiManager * Exc JSValue :=
  match db sm with
  | None => (g, Ret JNull)
  | Some _ =>
      match getSetting io settings "lastAnalysis" JNull with
      | Throw e => (g, Throw e)
      | Ret saved =>
          if truthy saved
          then (mkGemini (apiKey g) (prop saved "text") (prop saved "timestamp")
                         (analysisInterval g),
                Ret saved)
          else (g, Ret JNull)
      end
  end.

End Gemini.

(** * Properties *)

(** ** The reading normalizer *)

Module NormalizerProps.
Import Normalizer.


(** Where each measurement field of the Reading is read from in the
    payload, and the default it gets. *)
Definition unit_or_value (d : JSValue) (sensor : string) : JSValue :=
  let s := path d ["environment"; sensor] in
  coalesce (opt_get s "value") s.










Lemma get_returns v p : nullish v = false -> get v p = Ret (prop v p).
Proof. unfold get. by intros ->. Qed.

Lemma prop_opt_get v p : nullish v = false -> prop v p = opt_get v p.
Proof. unfold opt_get. by intros ->. Qed.

(** The Reading built from a payload that is not null or undefined. *)
Lemma normalizeReading_returns d now :
  nullish d = false -> returns (normalizeReading d now) = true.
Proof.
  intros Hd. unfold normalizeReading.
  rewrite !get_returns by done. reflexivity.
Qed.



Lemma path_head d p ps :
  nullish d = false -> path d (p :: ps) = path (prop d p) ps.
Proof. intros Hd. simpl. by rewrite <- prop_opt_get. Qed.


Lemma or_else_falsy a b : truthy a = false -> or_else a b = b.
Proof. unfold or_else. by intros ->. Qed.









(** [null] is a JSON document too: the first property read throws. *)
Lemma normalizeReading_null_throws now :
  returns (normalizeReading JNull now) = false.
Proof. reflexivity. Qed.

End NormalizerProps.

(** ** The alert engine *)

Module AlertsProps.
Import Storage Alerts.
Local Open Scope list_scope.

Definition present (v : JSValue) : bool := negb (nullish v).

(** The sub-objects [checkReading] dereferences without a guard. *)
Definition has_sensors (reading : JSValue) : bool :=
  present reading
  && present (path reading ["respiration"])
  && present (path reading ["bodyTemp"])
  && present (path reading ["environment"])
  && present (path reading ["environment"; "co2"])
  && present (path reading ["environment"; "voc"]).

Lemma opt_get_nullish v p : nullish v = true -> opt_get v p = JUndefined.
Proof. unfold opt_get. by intros ->. Qed.

Lemma bind_get {B} v p (k : JSValue -> Exc B) :
  get v p ≫= k
  = if nullish v
    then Throw (TypeError ("Cannot read properties of null or undefined: " ++ p))
    else k (prop v p).
Proof. unfold get. by destruct (nullish v). Qed.

Lemma present_opt_get v p :
  nullish v = false -> opt_get v p = prop v p.
Proof. unfold opt_get. by intros ->. Qed.

Ltac crunch :=
  repeat first
    [ rewrite bind_get
    | match goal with
      | H : nullish ?v = _ |- context [nullish ?v] => rewrite H
      | H : nullish ?v = true |- context [opt_get ?v ?p] =>
          rewrite (opt_get_nullish v p H)
      | H : nullish ?v = false |- context [opt_get ?v ?p] =>
          rewrite (present_opt_get v p H)
      end
    | progress cbn [negb andb is_null nullish returns path] ].

Lemma returns_bind_const {A B} (c : Exc A) (k : A -> Exc B) b :
  (forall a, returns (k a) = b) -> returns (c ≫= k) = returns c && b.
Proof. intros Hk. destruct c; simpl; [apply Hk | reflexivity]. Qed.

(** The four values [checkReading] compares with a threshold convert
    to primitives. *)
Definition comparable (reading : JSValue) : bool :=
  converts (path reading ["respiration"; "value"])
  && converts (path reading ["environment"; "co2"; "value"])
  && converts (path reading ["bodyTemp"; "value"])
  && converts (path reading ["environment"; "voc"; "value"]).

Ltac compare_cases :=
  unfold js_lt, js_gt, to_text, to_number;
  match goal with
  | |- context [converts ?v] => destruct (converts v) eqn:?
  end; simpl;
  repeat (match goal with
          | |- context [if ?c then _ else _] => destruct c
          end; simpl);
  reflexivity.

Ltac null_case :=
  match goal with
  | H : is_null ?v = true |- _ => destruct v; try discriminate H; reflexivity
  end.

Section Totality.
Context (rt : Runtime) (th : Thresholds).

Lemma check_respiration_returns reading now :
  returns (check_respiration rt th reading now)
  = present reading && present (path reading ["respiration"])
    && converts (path reading ["respiration"; "value"]).
Proof.
  unfold check_respiration, present.
  destruct (nullish reading) eqn:Hr; crunch; [reflexivity|].
  destruct (nullish (prop reading "respiration")) eqn:Hs; crunch; [reflexivity|].
  destruct (is_null _) eqn:Hn; crunch; [null_case | compare_cases].
Qed.

Lemma check_bodyTemp_returns reading now :
  returns (check_bodyTemp rt th reading now)
  = present reading && present (path reading ["bodyTemp"])
    && converts (path reading ["bodyTemp"; "value"]).
Proof.
  unfold check_bodyTemp, present.
  destruct (nullish reading) eqn:Hr; crunch; [reflexivity|].
  destruct (nullish (prop reading "bodyTemp")) eqn:Hs; crunch; [reflexivity|].
  destruct (is_null _) eqn:Hn; crunch; [null_case | compare_cases].
Qed.

Lemma check_co2_returns reading now :
  returns (check_co2 rt th reading now)
  = present reading && present (path reading ["environment"])
    && present (path reading ["environment"; "co2"])
    && converts (path reading ["environment"; "co2"; "value"]).
Proof.
  unfold check_co2, present.
  destruct (nullish reading) eqn:Hr; crunch; [reflexivity|].
  destruct (nullish (prop reading "environment")) eqn:He; crunch; [reflexivity|].
  destruct (nullish (prop (prop reading "environment") "co2")) eqn:Hc; crunch;
    [reflexivity|].
  destruct (is_null _) eqn:Hn; crunch; [null_case | compare_cases].
Qed.

Lemma check_voc_returns reading now :
  returns (check_voc rt th reading now)
  = present reading && present (path reading ["environment"])
    && present (path reading ["environment"; "voc"])
    && converts (path reading ["environment"; "voc"; "value"]).
Proof.
  unfold check_voc, present.
  destruct (nullish reading) eqn:Hr; crunch; [reflexivity|].
  destruct (nullish (prop reading "environment")) eqn:He; crunch; [reflexivity|].
  destruct (nullish (prop (prop reading "environment") "voc")) eqn:Hc; crunch;
    [reflexivity|].
  destruct (is_null _) eqn:Hn; crunch; [null_case | compare_cases].
Qed.

Lemma check_posture_returns reading now :
  returns (check_posture reading now) = present reading.
Proof.
  unfold check_posture, present.
  destruct (nullish reading) eqn:Hr; crunch; reflexivity.
Qed.

Lemma check_gas_returns reading now :
  returns (check_gas reading now) = present reading.
Proof.
  unfold check_gas, present.
  destruct (nullish reading) eqn:Hr; crunch; reflexivity.
Qed.

Lemma check_audio_returns reading now :
  returns (check_audio reading now) = present reading.
Proof.
  unfold check_audio, present.
  destruct (nullish reading) eqn:Hr; crunch; reflexivity.
Qed.

(** The conditions are evaluated without an exception exactly on the
    readings that have the dereferenced sub-objects and whose compared
    values convert to primitives. *)
Lemma evaluate_returns reading now :
  returns (evaluate rt th reading now) = has_sensors reading && comparable reading.
Proof.
  transitivity
    (returns (check_respiration rt th reading now)
     && (returns (check_co2 rt th reading now)
     && (returns (check_bodyTemp rt th reading now)
     && (returns (check_posture reading now)
     && (returns (check_voc rt th reading now)
     && (returns (check_gas reading now)
     && (returns (check_audio reading now) && true))))))).
  { unfold evaluate. repeat (apply returns_bind_const; intros ?). reflexivity. }
  rewrite check_respiration_returns, check_co2_returns, check_bodyTemp_returns,
    check_posture_returns, check_voc_returns, check_gas_returns,
    check_audio_returns.
  unfold has_sensors, comparable.
  destruct (present reading), (present (path reading ["respiration"])),
    (present (path reading ["bodyTemp"])),
    (present (path reading ["environment"])),
    (present (path reading ["environment"; "co2"])),
    (present (path reading ["environment"; "voc"])),
    (converts (path reading ["respiration"; "value"])),
    (converts (path reading ["environment"; "co2"; "value"])),
    (converts (path reading ["bodyTemp"; "value"])),
    (converts (path reading ["environment"; "voc"; "value"])); reflexivity.
Qed.

End Totality.

Lemma checkReading_returns rt io w reading now :
  returns (snd (checkReading rt io w reading now))
  = has_sensors reading && comparable reading.
Proof.
  unfold checkReading.
  rewrite <- (evaluate_returns rt (thresholds (manager w)) reading now).
  by destruct (evaluate _ _ _ _).
Qed.

(** A normalized Reading has every sub-object. *)
(** Readings that lack a sensor sub-object. *)
Definition reading_without_respiration : JSValue := JObj [].

Definition reading_without_co2 : JSValue :=
  JObj [ ("respiration", JObj [("value", JNull)]);
         ("bodyTemp", JObj [("value", JNull)]);
         ("environment", JObj [("voc", JObj [("value", JNull)])]) ].

Definition silent_runtime : Runtime := mkRuntime (fun _ => NaN) (fun _ => "").

Definition initial_world : World :=
  mkWorld Alerts.initial Storage.initial [] [].

Lemma normalized_has_sensors d now r :
  Normalizer.normalizeReading d now = Ret r -> has_sensors r = true.
Proof.
  unfold Normalizer.normalizeReading. rewrite !bind_get.
  destruct (nullish d); [discriminate|].
  intros [= <-]. reflexivity.
Qed.

(** *** Cooldown *)


(** The record [saveAlert] writes for an alert. *)
Definition record_of (a : Alert) (now : Z) : Alert :=
  mkAlert (severity a) (title a) (description a) (key a)
          (if Z.eqb (timestamp a) 0 then now else timestamp a).








Section Cooldown.
Context (io : Alert -> IOOutcome) (Hio : forall a, io a = IOSuccess).



Lemma process_cons w a alerts now :
  process io w (a :: alerts) now
  = process io (if shouldTriggerAlert (manager w) (key a) now
                then fst (triggerAlert io w a now) else w) alerts now.
Proof. reflexivity. Qed.





End Cooldown.

(** *** The alerts one reading produces *)

(** Alerts stamped [now] whose keys, in order, are among [keys]. *)
Definition stamped (now : Z) (keys : list string) (l : list Alert) : Prop :=
  key <$> l `sublist_of` keys /\ Forall (fun a => timestamp a = now) l.

Lemma stamped_app now k1 k2 l1 l2 :
  stamped now k1 l1 -> stamped now k2 l2 -> stamped now (k1 ++ k2) (l1 ++ l2).
Proof.
  intros [Hs1 Hf1] [Hs2 Hf2]. split.
  - rewrite fmap_app. by apply sublist_app.
  - by apply Forall_app.
Qed.

Ltac check_cases H :=
  unfold js_lt, js_gt, to_text, to_number in H;
  repeat (first
    [ rewrite bind_get in H
    | match type of H with
      | context [if ?c then _ else _] => destruct c
      end ];
    cbn [mbind mret exc_bind exc_ret JS.bind] in H;
    try discriminate H);
  injection H as <-;
  (split;
    [ simpl; repeat first [apply sublist_skip | apply sublist_cons | apply sublist_nil]
    | simpl; repeat first [apply Forall_nil_2 | apply Forall_cons_2; [reflexivity|]] ]).

Section Stamps.
Context (rt : Runtime) (th : Thresholds).

Lemma check_respiration_stamped reading now l :
  check_respiration rt th reading now = Ret l ->
  stamped now ["respiration_low"; "respiration_high"] l.
Proof. unfold check_respiration. intros H. check_cases H. Qed.

Lemma check_co2_stamped reading now l :
  check_co2 rt th reading now = Ret l -> stamped now ["co2_high"] l.
Proof. unfold check_co2. intros H. check_cases H. Qed.

Lemma check_bodyTemp_stamped reading now l :
  check_bodyTemp rt th reading now = Ret l ->
  stamped now ["temp_low"; "temp_high"] l.
Proof. unfold check_bodyTemp. intros H. check_cases H. Qed.

Lemma check_posture_stamped reading now l :
  check_posture reading now = Ret l -> stamped now ["posture_prone"] l.
Proof. unfold check_posture. intros H. check_cases H. Qed.

Lemma check_voc_stamped reading now l :
  check_voc rt th reading now = Ret l -> stamped now ["voc_high"] l.
Proof. unfold check_voc. intros H. check_cases H. Qed.

Lemma check_gas_stamped reading now l :
  check_gas reading now = Ret l -> stamped now ["gas_unsafe"] l.
Proof.
  unfold check_gas. intros H. rewrite bind_get in H.
  destruct (nullish reading); [discriminate|].
  injection H as <-.
  split; repeat case_match; simpl;
    repeat first [ apply sublist_skip | apply sublist_cons | apply sublist_nil
                 | apply Forall_nil_2 | apply Forall_cons_2; [reflexivity|] ].
Qed.

Lemma check_audio_stamped reading now l :
  check_audio reading now = Ret l -> stamped now ["audio_choking"] l.
Proof. unfold check_audio. intros H. check_cases H. Qed.

(** Each condition key occurs at most once among the alerts of one
    reading, and every alert carries the time of the evaluation. *)
Lemma evaluate_stamped reading now l :
  evaluate rt th reading now = Ret l -> stamped now condition_keys l.
Proof.
  unfold evaluate. intros H.
  destruct (check_respiration _ _ _ _) as [a1|] eqn:H1; [|discriminate].
  destruct (check_co2 _ _ _ _) as [a2|] eqn:H2; [|discriminate].
  destruct (check_bodyTemp _ _ _ _) as [a3|] eqn:H3; [|discriminate].
  destruct (check_posture _ _) as [a4|] eqn:H4; [|discriminate].
  destruct (check_voc _ _ _ _) as [a5|] eqn:H5; [|discriminate].
  destruct (check_gas _ _) as [a6|] eqn:H6; [|discriminate].
  destruct (check_audio _ _) as [a7|] eqn:H7; [|discriminate].
  injection H as <-.
  change condition_keys with
    (["respiration_low"; "respiration_high"] ++ ["co2_high"]
       ++ ["temp_low"; "temp_high"] ++ ["posture_prone"] ++ ["voc_high"]
       ++ ["gas_unsafe"] ++ ["audio_choking"]).
  repeat apply stamped_app;
    eauto using check_respiration_stamped, check_co2_stamped,
      check_bodyTemp_stamped, check_posture_stamped, check_voc_stamped,
      check_gas_stamped, check_audio_stamped.
Qed.

End Stamps.

Lemma condition_keys_NoDup : NoDup condition_keys.
Proof. apply (bool_decide_unpack _). by vm_compute. Qed.

(** The alert a reading raises for the condition [k], if any. *)
Definition condition_alert (rt : Runtime) (th : Thresholds) (reading : JSValue)
  (now : Z) (k : string) : option Alert :=
  match evaluate rt th reading now with
  | Ret alerts => List.find (fun a => String.eqb (key a) k) alerts
  | Throw _ => None
  end.

Section CooldownOfReadings.
Context (rt : Runtime) (io : Alert -> IOOutcome).
Context (Hio : forall a, io a = IOSuccess).


End CooldownOfReadings.

(** A reading with a respiration of 15 breaths per minute. *)
Definition apnea_reading : JSValue :=
  JObj [ ("respiration", JObj [("value", JNum 15)]);
         ("bodyTemp", JObj [("value", JNull)]);
         ("environment",
            JObj [ ("co2", JObj [("value", JNull)]);
                   ("voc", JObj [("value", JNull)]) ]) ].

Definition stamp (am : AlertsManager) (k : string) (t : Z) : AlertsManager :=
  mkAlerts (thresholds am) (alertCooldown am) (<[k := t]> (lastAlerts am)).






(** *** A rejected [saveAlert] *)

(** C3 on the code: when the storage is open and [saveAlert] rejects,
    [triggerAlert] has stamped the cooldown, its [await] throws, and
    nothing is emitted. *)
Theorem triggerAlert_rejected_save_skips_emit
  (io : Alert -> IOOutcome) (w : World) (a : Alert) (now : Z) (msg : string)
  (Hdb : is_Some (db (storage w)))
  (Hfail : io a = IOError msg) :
  triggerAlert io w a now
  = (mkWorld (stamp (manager w) (key a) (timestamp a)) (storage w)
             (saved w) (emitted w),
     Throw (StorageError msg)).
Proof.
  destruct Hdb as [d Hd]. unfold triggerAlert, saveAlert.
  by rewrite Hd, Hfail.
Qed.

Lemma triggerAlert_rejected_save_skips_emit_witness :
  exists a,
    condition_alert silent_runtime default_thresholds apnea_reading
                    1700000000000 "respiration_low" = Some a
    /\ emitted (fst (triggerAlert (fun _ => IOError "QuotaExceededError")
                                  initial_world a 1700000000000)) = [].
Proof.
  eexists. split; [reflexivity|].
  by rewrite (triggerAlert_rejected_save_skips_emit
                (fun _ => IOError "QuotaExceededError") initial_world _
                1700000000000 "QuotaExceededError"
                (ex_intro _ _ eq_refl) eq_refl).
Defined.

(** With the storage closed the persist is skipped and the alert is
    emitted. *)
Lemma triggerAlert_without_storage_emits io w a now :
  db (storage w) = None ->
  emitted (fst (triggerAlert io w a now)) = emitted w ++ [a].
Proof. intros Hd. unfold triggerAlert. by rewrite Hd. Qed.

(** The four compared values as the payload has them. *)
Definition payload_converts (d : JSValue) : bool :=
  converts (path d ["respiration"; "value"])
  && converts (NormalizerProps.unit_or_value d "co2")
  && converts (path d ["body_temp"; "value"])
  && converts (NormalizerProps.unit_or_value d "voc").

Lemma converts_coalesce a : converts (coalesce a JNull) = converts a.
Proof. unfold coalesce. by destruct a. Qed.

Lemma normalized_comparable d now r :
  Normalizer.normalizeReading d now = Ret r -> comparable r = payload_converts d.
Proof.
  unfold Normalizer.normalizeReading. rewrite !bind_get.
  destruct (nullish d) eqn:Hd; [discriminate|].
  intros [= <-]. unfold comparable, payload_converts, NormalizerProps.unit_or_value.
  rewrite !(NormalizerProps.path_head d) by done. cbn.
  by rewrite !converts_coalesce.
Qed.

(** A payload whose respiration value is an object with an own
    [toString]. *)
Definition unconvertible_payload : JSValue :=
  JObj [("respiration", JObj [("value", JObj [("toString", JNum 0)])])].

(** C10 (as the code has it): a normalized Reading has all the sensor
    sub-objects, so no dereference in [checkReading] throws on it, and
    [checkReading] returns on it exactly when the four values it
    compares with a threshold convert to primitives, as every number,
    string, boolean and [null] does; on a reading without a
    [respiration] object, or whose [environment] has no [co2], the guard
    [?.value !== null] lets [undefined] through and the unguarded
    dereference that follows throws a TypeError. *)
Theorem checkReading_total_on_normalized
  (rt : Runtime) (io : Alert -> IOOutcome) (w : World)
  (d : JSValue) (now t : Z) (r : JSValue)
  (Hnorm : Normalizer.normalizeReading d now = Ret r) :
  has_sensors r = true
  /\ returns (snd (checkReading rt io w r t)) = payload_converts d
  /\ (exists msg, checkReading rt io w reading_without_respiration t
                  = (w, Throw (TypeError msg)))
  /\ (exists msg, checkReading rt io w reading_without_co2 t
                  = (w, Throw (TypeError msg))).
Proof.
  pose proof (normalized_has_sensors _ _ _ Hnorm) as Hs.
  pose proof (normalized_comparable _ _ _ Hnorm) as Hc.
  split_and!; [done | by rewrite checkReading_returns, Hs, Hc | |];
    eexists; reflexivity.
Qed.

(** The comparison [resp < min] of a normalized Reading throws when the
    payload's value is an object that does not convert. *)
Lemma checkReading_throws_on_normalized :
  exists r,
    Normalizer.normalizeReading unconvertible_payload 1700000000000 = Ret r
    /\ has_sensors r = true
    /\ forall rt io w t,
         checkReading rt io w r t = (w, Throw not_primitive).
Proof. eexists. split; [reflexivity|]. split; reflexivity. Qed.

Lemma checkReading_total_on_normalized_witness :
  exists r,
    Normalizer.normalizeReading (JObj []) 1700000000000 = Ret r
    /\ returns (snd (checkReading silent_runtime (fun _ => IOSuccess)
                                  initial_world r 1700000000500)) = true.
Proof.
  eexists. split; [reflexivity|].
  apply (checkReading_total_on_normalized silent_runtime (fun _ => IOSuccess)
           initial_world (JObj []) 1700000000000 1700000000500 _ eq_refl).
Defined.

(** *** What one reading emits and saves *)

Definition opened (w : World) : bool :=
  match db (storage w) with Some _ => true | None => false end.

Definition served (o : IOOutcome) : bool :=
  match o with IOSuccess => true | IOError _ => false end.

(** The alert is saved: the storage is open and the request succeeds.
    The alert is emitted: it is saved, or the storage is closed. *)
Definition persisted (io : Alert -> IOOutcome) (w : World) (a : Alert) : bool :=
  opened w && served (io a).

Definition delivered (io : Alert -> IOOutcome) (w : World) (a : Alert) : bool :=
  negb (opened w) || served (io a).

Lemma triggerAlert_effect io w a now :
  let w' := fst (triggerAlert io w a now) in
  opened w' = opened w
  /\ manager w' = stamp (manager w) (key a) (timestamp a)
  /\ emitted w' = emitted w ++ (if delivered io w a then [a] else [])
  /\ saved w' = saved w ++ (if persisted io w a then [a] else []).
Proof.
  unfold triggerAlert, saveAlert, opened, delivered, persisted, opened, stamp.
  destruct (db (storage w)) as [d|] eqn:Hd; simpl.
  - destruct (io a); simpl; rewrite ?Hd, ?app_nil_r; done.
  - rewrite Hd, ?app_nil_r. done.
Qed.

Lemma process_effect io alerts w now :
  NoDup (key <$> alerts) ->
  emitted (process io w alerts now)
  = emitted w
    ++ List.filter (fun a => shouldTriggerAlert (manager w) (key a) now
                             && delivered io w a) alerts
  /\ saved (process io w alerts now)
     = saved w
       ++ List.filter (fun a => shouldTriggerAlert (manager w) (key a) now
                                && persisted io w a) alerts.
Proof.
  revert w. induction alerts as [|a alerts IH]; intros w Hnd.
  - simpl. by rewrite !app_nil_r.
  - rewrite fmap_cons in Hnd. apply NoDup_cons in Hnd as [Ha Hnd].
    rewrite process_cons.
    set (w1 := if shouldTriggerAlert (manager w) (key a) now
               then fst (triggerAlert io w a now) else w).
    assert (Hsame : forall b, b ∈ alerts ->
      shouldTriggerAlert (manager w1) (key b) now
      = shouldTriggerAlert (manager w) (key b) now
      /\ delivered io w1 b = delivered io w b
      /\ persisted io w1 b = persisted io w b).
    { intros b Hb. unfold w1.
      destruct (shouldTriggerAlert (manager w) (key a) now); [|done].
      destruct (triggerAlert_effect io w a now) as (Ho & Hm & _).
      cbv zeta in Ho, Hm. unfold delivered, persisted. rewrite Ho, Hm.
      split; [|done]. unfold shouldTriggerAlert, stamp. simpl.
      rewrite lookup_insert_ne; [done|].
      intros Heq. apply Ha. rewrite Heq. by apply list_elem_of_fmap_2. }
    destruct (IH w1 Hnd) as [He Hs]. rewrite He, Hs. cbn [List.filter].
    assert (Hf : forall (p q : Alert -> bool),
      (forall b, b ∈ alerts -> p b = q b) ->
      List.filter p alerts = List.filter q alerts).
    { intros p q Hpq. apply List.filter_ext_in. intros b Hb.
      apply Hpq. by apply list_elem_of_In. }
    rewrite (Hf _ (fun b => shouldTriggerAlert (manager w) (key b) now
                            && delivered io w b))
      by (intros b Hb; destruct (Hsame b Hb) as (-> & -> & _); done).
    rewrite (Hf (fun b => _ && persisted io w1 b)
                (fun b => shouldTriggerAlert (manager w) (key b) now
                          && persisted io w b))
      by (intros b Hb; destruct (Hsame b Hb) as (-> & _ & ->); done).
    unfold w1.
    destruct (shouldTriggerAlert (manager w) (key a) now); simpl; [|done].
    destruct (triggerAlert_effect io w a now) as (_ & _ & -> & ->).
    destruct (delivered io w a), (persisted io w a);
      by rewrite <- ?app_assoc, ?app_nil_r.
Qed.

(** Of the alerts a reading raises, [checkReading] returns all; it
    saves those whose key was out of cooldown when the storage is open
    and the save succeeds, and emits those whose key was out of cooldown
    when they were saved or the storage is closed, in the order of the
    checks. *)
Theorem checkReading_effect
  (rt : Runtime) (io : Alert -> IOOutcome) (w : World) (reading : JSValue)
  (now : Z) (alerts : list Alert)
  (Hraised : evaluate rt (thresholds (manager w)) reading now = Ret alerts) :
  snd (checkReading rt io w reading now) = Ret alerts
  /\ emitted (fst (checkReading rt io w reading now))
     = emitted w
       ++ List.filter (fun a => shouldTriggerAlert (manager w) (key a) now
                                && delivered io w a) alerts
  /\ saved (fst (checkReading rt io w reading now))
     = saved w
       ++ List.filter (fun a => shouldTriggerAlert (manager w) (key a) now
                                && persisted io w a) alerts.
Proof.
  unfold checkReading. rewrite Hraised. cbn [fst snd]. split; [done|].
  apply process_effect.
  destruct (evaluate_stamped _ _ _ _ _ Hraised) as [Hsub _].
  eapply sublist_NoDup; [apply condition_keys_NoDup | exact Hsub].
Qed.

Lemma checkReading_effect_witness :
  exists a,
    snd (checkReading silent_runtime (fun _ => IOError "QuotaExceededError")
           initial_world apnea_reading 1700000000000) = Ret [a]
    /\ emitted (fst (checkReading silent_runtime
                       (fun _ => IOError "QuotaExceededError")
                       initial_world apnea_reading 1700000000000)) = [].
Proof.
  eexists.
  destruct (checkReading_effect silent_runtime
              (fun _ => IOError "QuotaExceededError") initial_world
              apnea_reading 1700000000000 _ eq_refl) as (Hret & Hem & _).
  split; [exact Hret|]. rewrite Hem. reflexivity.
Defined.

(** *** Silence after a rejected save *)

(** When the save of a triggered alert is rejected, nothing is emitted
    and the key is in cooldown all the same: the same condition
    evaluated within the cooldown of that alert is suppressed. *)
Theorem rejected_save_starts_cooldown
  (io : Alert -> IOOutcome) (w : World) (a : Alert) (now later : Z) (msg : string)
  (Hdb : is_Some (db (storage w)))
  (Hfail : io a = IOError msg)
  (Hwithin : later - timestamp a <= alertCooldown (manager w)) :
  emitted (fst (triggerAlert io w a now)) = emitted w
  /\ shouldTriggerAlert (manager (fst (triggerAlert io w a now))) (key a) later
     = false.
Proof.
  destruct (triggerAlert_effect io w a now) as (_ & Hm & He & _).
  cbv zeta in Hm, He. rewrite Hm, He.
  destruct Hdb as [d Hd]. unfold delivered, opened. rewrite Hd, Hfail. simpl.
  rewrite app_nil_r. split; [done|].
  unfold shouldTriggerAlert, stamp. simpl. rewrite lookup_insert_eq. simpl.
  apply Z.ltb_ge. lia.
Qed.

Lemma rejected_save_starts_cooldown_witness :
  let a := createAlert CRITICAL "Apnea Detected (mmWave)" "" "respiration_low"
             1700000000000 in
  shouldTriggerAlert
    (manager (fst (triggerAlert (fun _ => IOError "QuotaExceededError")
                     initial_world a 1700000000000)))
    "respiration_low" 1700000020000
  = false.
Proof.
  cbv zeta.
  assert (Hw : 1700000020000 - 1700000000000 <= alertCooldown (manager initial_world))
    by (vm_compute; discriminate).
  exact (proj2 (rejected_save_starts_cooldown
                  (fun _ => IOError "QuotaExceededError") initial_world
                  (createAlert CRITICAL "Apnea Detected (mmWave)" ""
                     "respiration_low" 1700000000000)
                  1700000000000 1700000020000 "QuotaExceededError"
                  (ex_intro _ _ eq_refl) eq_refl Hw)).
Defined.

(** *** The checks of one reading *)

Ltac one_alert H :=
  unfold js_lt, js_gt, to_text, to_number in H;
  repeat (first
    [ rewrite bind_get in H
    | match type of H with
      | context [if ?c then _ else _] => destruct c
      end ];
    cbn [mbind mret exc_bind exc_ret JS.bind] in H;
    try discriminate H);
  injection H as <-; simpl; lia.

Lemma check_respiration_one rt th reading now l :
  check_respiration rt th reading now = Ret l -> (length l <= 1)%nat.
Proof. unfold check_respiration. intros H. one_alert H. Qed.

Lemma check_bodyTemp_one rt th reading now l :
  check_bodyTemp rt th reading now = Ret l -> (length l <= 1)%nat.
Proof. unfold check_bodyTemp. intros H. one_alert H. Qed.

Lemma stamped_keys now keys l k :
  stamped now keys l -> k ∈ key <$> l -> k ∈ keys.
Proof. intros [Hsub _] Hk. by eapply elem_of_sublist. Qed.

Lemma two_keys_two_alerts (l : list Alert) k1 k2 :
  k1 <> k2 -> k1 ∈ key <$> l -> k2 ∈ key <$> l -> (2 <= length l)%nat.
Proof.
  intros Hne H1 H2. destruct l as [|a [|b l]]; simpl; [| |lia].
  - by apply elem_of_nil in H1.
  - apply list_elem_of_singleton in H1, H2. congruence.
Qed.

(** One reading raises each condition at most once, never a low and a
    high alert of the same sensor, hence at most seven alerts, all
    stamped with the time of the evaluation. *)
Theorem evaluate_one_alert_per_check
  (rt : Runtime) (th : Thresholds) (reading : JSValue) (now : Z)
  (l : list Alert)
  (Hraised : evaluate rt th reading now = Ret l) :
  NoDup (key <$> l)
  /\ (length l <= 7)%nat
  /\ ~ ("respiration_low" ∈ key <$> l /\ "respiration_high" ∈ key <$> l)
  /\ ~ ("temp_low" ∈ key <$> l /\ "temp_high" ∈ key <$> l)
  /\ Forall (fun a => timestamp a = now) l.
Proof.
  destruct (evaluate_stamped _ _ _ _ _ Hraised) as [Hsub Hts].
  unfold evaluate in Hraised.
  destruct (check_respiration _ _ _ _) as [a1|] eqn:H1; [|discriminate].
  destruct (check_co2 _ _ _ _) as [a2|] eqn:H2; [|discriminate].
  destruct (check_bodyTemp _ _ _ _) as [a3|] eqn:H3; [|discriminate].
  destruct (check_posture _ _) as [a4|] eqn:H4; [|discriminate].
  destruct (check_voc _ _ _ _) as [a5|] eqn:H5; [|discriminate].
  destruct (check_gas _ _) as [a6|] eqn:H6; [|discriminate].
  destruct (check_audio _ _) as [a7|] eqn:H7; [|discriminate].
  injection Hraised as <-.
  pose proof (check_respiration_stamped _ _ _ _ _ H1) as S1.
  pose proof (check_co2_stamped _ _ _ _ _ H2) as S2.
  pose proof (check_bodyTemp_stamped _ _ _ _ _ H3) as S3.
  pose proof (check_posture_stamped _ _ _ H4) as S4.
  pose proof (check_voc_stamped _ _ _ _ _ H5) as S5.
  pose proof (check_gas_stamped _ _ _ H6) as S6.
  pose proof (check_audio_stamped _ _ _ H7) as S7.
  pose proof (check_respiration_one _ _ _ _ _ H1) as L1.
  pose proof (check_bodyTemp_one _ _ _ _ _ H3) as L3.
  assert (L2 : (length a2 <= 1)%nat)
    by (destruct S2 as [S _]; apply sublist_length in S;
        by rewrite length_fmap in S).
  assert (L4 : (length a4 <= 1)%nat)
    by (destruct S4 as [S _]; apply sublist_length in S;
        by rewrite length_fmap in S).
  assert (L5 : (length a5 <= 1)%nat)
    by (destruct S5 as [S _]; apply sublist_length in S;
        by rewrite length_fmap in S).
  assert (L6 : (length a6 <= 1)%nat)
    by (destruct S6 as [S _]; apply sublist_length in S;
        by rewrite length_fmap in S).
  assert (L7 : (length a7 <= 1)%nat)
    by (destruct S7 as [S _]; apply sublist_length in S;
        by rewrite length_fmap in S).
  assert (Hwhere : forall k, k ∈ key <$> (a1 ++ a2 ++ a3 ++ a4 ++ a5 ++ a6 ++ a7) ->
    (k ∈ key <$> a1) \/ (k ∈ ["co2_high"; "posture_prone"; "voc_high";
                              "gas_unsafe"; "audio_choking"])
    \/ (k ∈ key <$> a3)).
  { intros k. rewrite !fmap_app, !elem_of_app.
    intros [?|[Hk|[?|[Hk|[Hk|[Hk|Hk]]]]]]; auto;
      right; left;
      [ pose proof (stamped_keys _ _ _ _ S2 Hk) as Hin
      | pose proof (stamped_keys _ _ _ _ S4 Hk) as Hin
      | pose proof (stamped_keys _ _ _ _ S5 Hk) as Hin
      | pose proof (stamped_keys _ _ _ _ S6 Hk) as Hin
      | pose proof (stamped_keys _ _ _ _ S7 Hk) as Hin ];
      apply list_elem_of_singleton in Hin; subst k;
      rewrite !elem_of_cons; auto 10. }
  assert (Hconst : forall k,
    k ∈ ["co2_high"; "posture_prone"; "voc_high"; "gas_unsafe"; "audio_choking"] ->
    k <> "respiration_low" /\ k <> "respiration_high"
    /\ k <> "temp_low" /\ k <> "temp_high").
  { intros k. rewrite !elem_of_cons, elem_of_nil.
    intros [->|[->|[->|[->|[->|[]]]]]]; split_and!; discriminate. }
  split_and!.
  - eapply sublist_NoDup; [apply condition_keys_NoDup | exact Hsub].
  - rewrite !length_app. lia.
  - intros [Hlow Hhigh].
    assert ("respiration_low" ∈ key <$> a1) as Hl1.
    { destruct (Hwhere _ Hlow) as [?|[Hc|Hk3]]; [done| |].
      - destruct (Hconst _ Hc) as (? & _). done.
      - pose proof (stamped_keys _ _ _ _ S3 Hk3) as Hin.
        rewrite !elem_of_cons, elem_of_nil in Hin.
        destruct Hin as [?|[?|[]]]; discriminate. }
    assert ("respiration_high" ∈ key <$> a1) as Hh1.
    { destruct (Hwhere _ Hhigh) as [?|[Hc|Hk3]]; [done| |].
      - destruct (Hconst _ Hc) as (_ & ? & _). done.
      - pose proof (stamped_keys _ _ _ _ S3 Hk3) as Hin.
        rewrite !elem_of_cons, elem_of_nil in Hin.
        destruct Hin as [?|[?|[]]]; discriminate. }
    assert ("respiration_low" <> "respiration_high") as Hne by discriminate.
    pose proof (two_keys_two_alerts a1 _ _ Hne Hl1 Hh1). lia.
  - intros [Hlow Hhigh].
    assert ("temp_low" ∈ key <$> a3) as Hl3.
    { destruct (Hwhere _ Hlow) as [Hk1|[Hc|?]]; [| |done].
      - pose proof (stamped_keys _ _ _ _ S1 Hk1) as Hin.
        rewrite !elem_of_cons, elem_of_nil in Hin.
        destruct Hin as [?|[?|[]]]; discriminate.
      - destruct (Hconst _ Hc) as (_ & _ & ? & _). done. }
    assert ("temp_high" ∈ key <$> a3) as Hh3.
    { destruct (Hwhere _ Hhigh) as [Hk1|[Hc|?]]; [| |done].
      - pose proof (stamped_keys _ _ _ _ S1 Hk1) as Hin.
        rewrite !elem_of_cons, elem_of_nil in Hin.
        destruct Hin as [?|[?|[]]]; discriminate.
      - destruct (Hconst _ Hc) as (_ & _ & _ & ?). done. }
    assert ("temp_low" <> "temp_high") as Hne by discriminate.
    pose proof (two_keys_two_alerts a3 _ _ Hne Hl3 Hh3). lia.
  - done.
Qed.

Lemma evaluate_one_alert_per_check_witness :
  exists l,
    evaluate silent_runtime default_thresholds apnea_reading 1700000000000 = Ret l
    /\ NoDup (key <$> l) /\ (length l <= 7)%nat.
Proof.
  eexists.
  destruct (evaluate_one_alert_per_check silent_runtime default_thresholds
              apnea_reading 1700000000000 _ eq_refl) as (Hnd & Hlen & _).
  split; [reflexivity|]. by split.
Defined.

(** *** Strict thresholds *)

Lemma js_lt_number q bound : Double.lt (Finite q) bound = true <-> (q < bound)%Q.
Proof.
  simpl. rewrite negb_true_iff, <- not_true_iff_false, Qle_bool_iff.
  split; [apply Qnot_le_lt | apply Qlt_not_le].
Qed.

Lemma js_gt_number q bound : Double.gt (Finite q) bound = true <-> (bound < q)%Q.
Proof.
  simpl. rewrite negb_true_iff, <- not_true_iff_false, Qle_bool_iff.
  split; [apply Qnot_le_lt | apply Qlt_not_le].
Qed.

(** A numeric respiration value raises the CRITICAL low alert exactly
    when it is below [min], the WARNING high alert exactly when it is
    not below [min] and above [max], and nothing when it equals a
    bound or lies between them; a [null] value raises nothing. *)
Theorem respiration_bounds_are_strict
  (rt : Runtime) (th : Thresholds) (reading : JSValue) (now : Z)
  (Hreading : nullish reading = false) :
  (path reading ["respiration"; "value"] = JNull ->
     check_respiration rt th reading now = Ret [])
  /\ (forall q, path reading ["respiration"; "value"] = JNum q ->
      exists l,
        check_respiration rt th reading now = Ret l
        /\ ((q < respiration_min th)%Q <->
              exists a, l = [a] /\ key a = "respiration_low"
                        /\ severity a = CRITICAL)
        /\ ((respiration_min th <= q)%Q /\ (respiration_max th < q)%Q <->
              exists a, l = [a] /\ key a = "respiration_high"
                        /\ severity a = WARNING)
        /\ ((respiration_min th <= q)%Q /\ (q <= respiration_max th)%Q <->
              l = [])).
Proof.
  assert (Hpath : path reading ["respiration"; "value"]
                  = opt_get (prop reading "respiration") "value")
    by (simpl; by rewrite (present_opt_get reading)).
  rewrite Hpath. unfold check_respiration. rewrite bind_get, Hreading. split.
  - by intros ->.
  - intros q Hq. rewrite Hq. cbn [is_null negb].
    rewrite bind_get, Hreading.
    assert (Hobj : nullish (prop reading "respiration") = false).
    { destruct (nullish (prop reading "respiration")) eqn:Hn; [|done].
      by rewrite (opt_get_nullish _ _ Hn) in Hq. }
    rewrite bind_get, Hobj.
    rewrite present_opt_get in Hq by done. rewrite Hq.
    pose proof (js_lt_number q (respiration_min th)) as Hlt.
    pose proof (js_gt_number q (respiration_max th)) as Hgt.
    unfold js_lt, js_gt, to_text, to_number.
    cbn [converts number_of mbind mret exc_bind exc_ret JS.bind].
    destruct (Double.lt (Finite q) (respiration_min th)) eqn:Elt.
    + assert (q < respiration_min th)%Q as Hm by by apply Hlt.
      eexists. split; [reflexivity|]. split_and!.
      * split; [|done]. intros _. eexists. by split_and!.
      * split; [intros [Hle _]; by apply Qle_not_lt in Hle|].
        intros (a & [= <-] & Hk & _). discriminate.
      * split; [intros [Hle _]; by apply Qle_not_lt in Hle | discriminate].
    + assert (respiration_min th <= q)%Q as Hm.
      { apply Qnot_lt_le. intros Hc. apply Hlt in Hc. congruence. }
      destruct (Double.gt (Finite q) (respiration_max th)) eqn:Egt.
      * assert (respiration_max th < q)%Q as HM by by apply Hgt.
        eexists. split; [reflexivity|]. split_and!.
        -- split; [intros Hc; by apply Qle_not_lt in Hm|].
           intros (a & [= <-] & Hk & _). discriminate.
        -- split; [|done]. intros _. eexists. by split_and!.
        -- split; [intros [_ Hle]; by apply Qle_not_lt in Hle | discriminate].
      * assert (q <= respiration_max th)%Q as HM.
        { apply Qnot_lt_le. intros Hc. apply Hgt in Hc. congruence. }
        eexists. split; [reflexivity|]. split_and!.
        -- split; [intros Hc; by apply Qle_not_lt in Hm|].
           intros (a & [=] & _).
        -- split; [intros [_ Hc]; by apply Qle_not_lt in HM|].
           intros (a & [=] & _).
        -- done.
Qed.

Lemma respiration_bounds_are_strict_witness :
  check_respiration silent_runtime default_thresholds
    (JObj [("respiration", JObj [("value", JNum 20)])]) 1700000000000
  = Ret [].
Proof.
  destruct (respiration_bounds_are_strict silent_runtime default_thresholds
              (JObj [("respiration", JObj [("value", JNum 20)])])
              1700000000000 eq_refl) as [_ Hnum].
  destruct (Hnum 20%Q eq_refl) as (l & -> & _ & _ & Hnone).
  f_equal. apply Hnone. split; vm_compute; discriminate.
Defined.

End AlertsProps.

(** ** The time-series store *)

Module StorageProps.
Import Storage.
Local Open Scope list_scope.
Local Open Scope nat_scope.

(** Primary keys are distinct, ascending and below the generator. *)
Definition wf {R} (st : ObjectStore R) : Prop :=
  StronglySorted lt (fst <$> records st)
  /\ Forall (fun k => k < keyGen st) (fst <$> records st).

Definition among (keys : list nat) (k : nat) : bool := existsb (Nat.eqb k) keys.

Section Cursor.
Context {R : Type}.
Implicit Types (st : ObjectStore R) (l cursor : list (nat * R)).

Lemma filter_filter (p q : nat * R -> bool) l :
  List.filter p (List.filter q l) = List.filter (fun e => q e && p e) l.
Proof.
  induction l as [|e l IH]; simpl; [done|].
  destruct (q e); simpl; [|done]. destruct (p e); by rewrite IH.
Qed.

Lemma filter_all (p : nat * R -> bool) l :
  (forall e, p e = true) -> List.filter p l = l.
Proof.
  intros Hp. induction l as [|e l IH]; simpl; [done|]. by rewrite Hp, IH.
Qed.

(** The cursor loop removes the records whose key is at one of the first
    [deleteCount - deleted] positions of the cursor, and nothing else. *)
Lemma cursor_delete_records cursor deleted deleteCount st :
  cursor_delete cursor deleted deleteCount st
  = mkStore
      (List.filter
         (fun e => negb (among (fst <$> take (deleteCount - deleted) cursor) (fst e)))
         (records st))
      (keyGen st).
Proof.
  revert deleted st.
  induction cursor as [|[k r] rest IH]; intros deleted st; simpl.
  - rewrite take_nil. simpl. rewrite filter_all by done. by destruct st.
  - destruct (Nat.ltb_spec deleted deleteCount) as [Hlt|Hge].
    + rewrite IH. simpl. f_equal. rewrite filter_filter.
      replace (deleteCount - deleted) with (S (deleteCount - S deleted)) by lia.
      simpl. apply List.filter_ext. intros e.
      rewrite negb_orb. done.
    + replace (deleteCount - deleted) with 0 by lia. simpl.
      rewrite filter_all by done. by destruct st.
Qed.

(** With distinct keys, removing the keys of the first [n] records
    drops the first [n] records. *)
Lemma filter_front l n :
  NoDup (fst <$> l) ->
  List.filter (fun e => negb (among (fst <$> take n l) (fst e))) l = drop n l.
Proof.
  revert n. induction l as [|[k r] l IH]; intros n Hnd; [by destruct n|].
  destruct n as [|n]; [simpl; by rewrite filter_all|].
  rewrite fmap_cons in Hnd. apply NoDup_cons in Hnd as [Hk Hnd].
  simpl. rewrite Nat.eqb_refl. simpl.
  rewrite <- (IH n Hnd).
  apply List.filter_ext_in. intros [j s] Hin. simpl.
  assert (j <> k) as Hne.
  { intros ->. apply Hk. apply list_elem_of_fmap. exists (k, s).
    split; [done|]. by apply list_elem_of_In. }
  apply Nat.eqb_neq in Hne. by rewrite Hne.
Qed.

Lemma ascending_NoDup (keys : list nat) : StronglySorted lt keys -> NoDup keys.
Proof.
  induction 1 as [|k keys Hs IH Hf]; constructor; [|done].
  intros Hin. rewrite Forall_forall in Hf. specialize (Hf k Hin). lia.
Qed.

Lemma wf_NoDup st : wf st -> NoDup (fst <$> records st).
Proof. intros [Hs _]. by apply ascending_NoDup. Qed.

(** [store.add] keeps the store well formed. *)
Lemma store_add_wf st r : wf st -> wf (fst (store_add st r)).
Proof.
  intros [Hs Hb]. unfold store_add, wf. simpl. rewrite fmap_app. simpl. split.
  - clear -Hs Hb. induction (fst <$> records st) as [|k keys IH]; simpl.
    + repeat constructor.
    + apply StronglySorted_inv in Hs as [Hs Hk].
      apply Forall_cons in Hb as [Hlt Hb].
      constructor; [by apply IH|].
      apply Forall_app. split; [done|]. by repeat constructor.
  - apply Forall_app. split.
    + eapply Forall_impl; [exact Hb|]. simpl. lia.
    + repeat constructor.
Qed.

Lemma drop_wf st n : wf st -> wf (mkStore (drop n (records st)) (keyGen st)).
Proof.
  intros [Hs Hb]. unfold wf. simpl. rewrite fmap_drop. split.
  - clear Hb. revert n. induction Hs as [|k keys Hs IH Hf]; intros [|n]; simpl;
      try constructor; try done.
  - by apply Forall_drop.
Qed.

End Cursor.

(** *** Readings *)

Lemma cleanupOldReadings_drop max st :
  wf st ->
  cleanupOldReadings max st
  = mkStore (drop (store_count st - max) (records st)) (keyGen st).
Proof.
  intros Hwf. unfold cleanupOldReadings.
  destruct (Nat.ltb_spec max (store_count st)) as [Hlt|Hge].
  - rewrite cursor_delete_records, Nat.sub_0_r.
    by rewrite filter_front by by apply wf_NoDup.
  - replace (store_count st - max) with 0 by lia. rewrite drop_0. by destruct st.
Qed.

(** The record [saveReading] builds from a reading. *)
Definition record_of (c : JSValue * Z) : ReadingRecord :=
  own_set (spread (fst c)) "timestamp"
          (or_else (prop (fst c) "timestamp") (num_of_Z (snd c))).

Lemma saveReading_resolved sm d reading now :
  db sm = Some d -> storable reading = true ->
  saveReading IOSuccess sm reading now
  = (mkStorage
       (Some (mkDB (cleanupOldReadings (maxReadings sm)
                      (fst (store_add (readings d) (record_of (reading, now)))))
                   (alerts d)))
       (maxReadings sm) (maxAlerts sm),
     Ret (keyGen (readings d))).
Proof.
  intros Hd Hs. unfold saveReading, storable, get in *. rewrite Hd.
  apply andb_prop in Hs as [Hn _]. apply negb_true_iff in Hn. by rewrite Hn.
Qed.

(** A run of [saveReading] calls, each given as the reading and the
    time of the call, all served by the backend. *)
Definition saveReadings (sm : StorageManager) (calls : list (JSValue * Z))
  : StorageManager :=
  fold_left (fun sm c => fst (saveReading IOSuccess sm (fst c) (snd c))) calls sm.

(** The records of a run with the keys the generator gives them from
    [g] on. *)
Fixpoint entries (g : nat) (calls : list (JSValue * Z))
  : list (nat * ReadingRecord) :=
  match calls with
  | [] => []
  | c :: rest => (g, record_of c) :: entries (S g) rest
  end.

Lemma entries_snoc g calls c :
  entries g (calls ++ [c]) = entries g calls ++ [(g + length calls, record_of c)].
Proof.
  revert g. induction calls as [|c' calls IH]; intros g; simpl.
  - by rewrite Nat.add_0_r.
  - by rewrite IH, Nat.add_succ_r.
Qed.

Lemma length_entries g calls : length (entries g calls) = length calls.
Proof. revert g. induction calls; intros g; simpl; [done|]. by rewrite IHcalls. Qed.

Lemma entries_keys g calls : fst <$> entries g calls = seq g (length calls).
Proof. revert g. induction calls; intros g; simpl; [done|]. by rewrite IHcalls. Qed.

Lemma entries_wf (st : ObjectStore ReadingRecord) calls :
  wf st ->
  wf (mkStore (records st ++ entries (keyGen st) calls)
              (keyGen st + length calls)).
Proof.
  intros Hwf. induction calls as [|c calls IH] using rev_ind.
  - simpl. rewrite app_nil_r, Nat.add_0_r. by destruct st.
  - rewrite entries_snoc, length_app, app_assoc. simpl.
    apply (store_add_wf _ (record_of c)) in IH. simpl in IH.
    by replace (keyGen st + (length calls + 1))
      with (S (keyGen st + length calls)) by lia.
Qed.

(** After a run the store holds the last [maxReadings] of what it held
    before followed by the run's records. *)
Lemma saveReadings_state sm d calls :
  db sm = Some d ->
  wf (readings d) ->
  store_count (readings d) <= maxReadings sm ->
  Forall (fun c => storable (fst c) = true) calls ->
  saveReadings sm calls
  = mkStorage
      (Some (mkDB
         (mkStore
            (drop (store_count (readings d) + length calls - maxReadings sm)
                  (records (readings d) ++ entries (keyGen (readings d)) calls))
            (keyGen (readings d) + length calls))
         (alerts d)))
      (maxReadings sm) (maxAlerts sm).
Proof.
  intros Hd Hwf Hle Hall.
  induction calls as [|c calls IH] using rev_ind.
  - simpl. rewrite app_nil_r, !Nat.add_0_r.
    replace (store_count (readings d) - maxReadings sm) with 0 by lia.
    rewrite drop_0. destruct sm as [? ? ?], d as [[? ?] ?]. simpl in *. by subst.
  - apply Forall_app in Hall as [Hall Hc]. rewrite Forall_singleton in Hc.
    unfold saveReadings in *. rewrite fold_left_app. cbn [fold_left].
    rewrite (IH Hall). clear IH.
    erewrite saveReading_resolved; [|reflexivity|done]. simpl.
    f_equal. f_equal. f_equal.
    pose proof (entries_wf (readings d) calls Hwf) as Hfull.
    set (a := store_count (readings d) + length calls - maxReadings sm).
    set (full := records (readings d) ++ entries (keyGen (readings d)) calls) in *.
    assert (Hlen : length full = store_count (readings d) + length calls)
      by (unfold full, store_count; by rewrite length_app, length_entries).
    rewrite cleanupOldReadings_drop.
    2:{ apply (store_add_wf (mkStore (drop a full) _)).
        apply (drop_wf (mkStore full _) a Hfull). }
    unfold store_add, store_count. simpl.
    rewrite length_app, length_drop, Hlen. simpl.
    rewrite entries_snoc, app_assoc. fold full.
    rewrite <- (drop_app_le full) by (unfold a; lia).
    rewrite drop_drop. f_equal.
    + f_equal. unfold a, store_count in *. rewrite length_app. simpl. lia.
    + rewrite length_app. simpl. lia.
Qed.

(** C5: after [maxReadings + k] readings were saved, exactly
    [maxReadings] records are present, and they are the last
    [maxReadings] saved, with the highest keys the store assigned:
    the evicted ones are the lowest keys, whatever the timestamps. *)
Theorem saveReading_keeps_most_recent
  (sm : StorageManager) (d : DB) (calls : list (JSValue * Z)) (k : nat)
  (Hd : db sm = Some d)
  (Hwf : wf (readings d))
  (Hle : store_count (readings d) <= maxReadings sm)
  (Hall : Forall (fun c => storable (fst c) = true) calls)
  (Hlen : length calls = maxReadings sm + k) :
  exists d',
    db (saveReadings sm calls) = Some d'
    /\ store_count (readings d') = maxReadings sm
    /\ records (readings d') = drop k (entries (keyGen (readings d)) calls)
    /\ fst <$> records (readings d')
       = seq (keyGen (readings d) + k) (maxReadings sm).
Proof.
  rewrite (saveReadings_state sm d calls Hd Hwf Hle Hall). simpl.
  eexists. split; [reflexivity|]. simpl.
  assert (Hrec :
    drop (store_count (readings d) + length calls - maxReadings sm)
         (records (readings d) ++ entries (keyGen (readings d)) calls)
    = drop k (entries (keyGen (readings d)) calls)).
  { replace (store_count (readings d) + length calls - maxReadings sm)
      with (length (records (readings d)) + k) by (unfold store_count; lia).
    by rewrite drop_app_add. }
  unfold store_count at 1. cbn [readings records]. rewrite Hrec.
  split_and!; [|done|].
  - rewrite length_drop, length_entries. lia.
  - rewrite fmap_drop, entries_keys, Hlen.
    rewrite drop_seq. f_equal. lia.
Qed.

Definition small_store : StorageManager := mkStorage (Some empty_db) 3 500.

Definition five_readings : list (JSValue * Z) :=
  [ (JObj [("timestamp", JNum 900)], 1000%Z);
    (JObj [("timestamp", JNum 800)], 1001%Z);
    (JObj [("timestamp", JNum 700)], 1002%Z);
    (JObj [("timestamp", JNum 600)], 1003%Z);
    (JObj [("timestamp", JNum 500)], 1004%Z) ].

Lemma empty_store_wf {R} : wf (@empty_store R).
Proof. split; constructor. Qed.

Lemma saveReading_keeps_most_recent_witness :
  exists d',
    db (saveReadings small_store five_readings) = Some d'
    /\ store_count (readings d') = 3
    /\ records (readings d')
       = [ (3, [("timestamp", JNum 700)]); (4, [("timestamp", JNum 600)]);
           (5, [("timestamp", JNum 500)]) ].
Proof.
  assert (Hle : store_count (readings empty_db) <= maxReadings small_store)
    by (vm_compute; lia).
  assert (Hall : Forall (fun c => storable (fst c) = true) five_readings)
    by (repeat constructor).
  destruct (saveReading_keeps_most_recent small_store empty_db five_readings 2
              eq_refl empty_store_wf Hle Hall eq_refl)
    as (d' & Hd' & Hcount & Hrec & _).
  exists d'. by split_and!.
Defined.

(** *** Alerts *)

(** The position of a stored alert in the [timestamp] index. *)
Definition alert_key (e : nat * AlertRecord) : Z * nat :=
  (timestamp (alert (snd e)), fst e).

(** [e] comes strictly before [s] in the [timestamp] index. *)
Definition older (e s : nat * AlertRecord) : Prop :=
  (timestamp (alert (snd e)) < timestamp (alert (snd s)))%Z
  \/ (timestamp (alert (snd e)) = timestamp (alert (snd s)) /\ fst e < fst s).

Definition ile (a b : nat * AlertRecord) : Prop :=
  index_le Z.leb (alert_key a) (alert_key b) = true.

Lemma ile_spec a b :
  ile a b <->
  (timestamp (alert (snd a)) < timestamp (alert (snd b)))%Z
  \/ (timestamp (alert (snd a)) = timestamp (alert (snd b)) /\ fst a <= fst b).
Proof.
  unfold ile, index_le, alert_key. simpl.
  destruct (Z.leb_spec (timestamp (alert (snd a))) (timestamp (alert (snd b))));
    destruct (Z.leb_spec (timestamp (alert (snd b))) (timestamp (alert (snd a))));
    rewrite ?Nat.leb_le; split; intros; try lia; try done.
Qed.

Lemma ile_total a b : ile a b \/ ile b a.
Proof. rewrite !ile_spec. lia. Qed.

Lemma ile_trans a b c : ile a b -> ile b c -> ile a c.
Proof. rewrite !ile_spec. lia. Qed.

Abbreviation insert_alert := (index_insert Z.leb alert_key).

Lemma insert_alert_perm e l : insert_alert e l ≡ₚ e :: l.
Proof.
  induction l as [|x l IH]; simpl; [done|].
  destruct (index_le _ _ _); [done|].
  rewrite IH. apply Permutation_swap.
Qed.

Lemma insert_alert_sorted e l :
  StronglySorted ile l -> StronglySorted ile (insert_alert e l).
Proof.
  induction 1 as [|x l Hs IH Hf]; simpl; [by repeat constructor|].
  destruct (index_le _ _ _) eqn:Hle.
  - constructor; [by constructor|].
    constructor; [done|].
    eapply Forall_impl; [exact Hf|]. intros y Hy. by eapply ile_trans.
  - constructor; [done|].
    rewrite insert_alert_perm. constructor; [|done].
    destruct (ile_total e x) as [H|H]; [|done].
    unfold ile in H. congruence.
Qed.

Lemma alert_index_perm st : alert_index st ≡ₚ records st.
Proof.
  unfold alert_index, index_order.
  induction (records st) as [|e l IH]; simpl; [done|].
  by rewrite insert_alert_perm, IH.
Qed.

Lemma alert_index_sorted st : StronglySorted ile (alert_index st).
Proof.
  unfold alert_index, index_order.
  induction (records st) as [|e l IH]; simpl; [constructor|].
  by apply insert_alert_sorted.
Qed.

Lemma in_drop {A} (l : list A) n y : y ∈ drop n l -> y ∈ l.
Proof.
  intros Hy. rewrite <- (take_drop n l). apply elem_of_app. by right.
Qed.

Lemma in_take {A} (l : list A) n y : y ∈ take n l -> y ∈ l.
Proof.
  intros Hy. rewrite <- (take_drop n l). apply elem_of_app. by left.
Qed.

(** In a sorted index every entry of a prefix comes before every entry
    of the rest. *)
Lemma sorted_take_drop (l : list (nat * AlertRecord)) n x y :
  StronglySorted ile l -> x ∈ take n l -> y ∈ drop n l -> ile x y.
Proof.
  intros Hs. revert n. induction Hs as [|z l Hs IH Hf]; intros n Hx Hy.
  - rewrite take_nil in Hx. by apply elem_of_nil in Hx.
  - destruct n as [|n]; simpl in *; [by apply elem_of_nil in Hx|].
    apply elem_of_cons in Hx as [->|Hx]; [|by eapply IH].
    rewrite Forall_forall in Hf. apply Hf. by eapply in_drop.
Qed.

Lemma same_key_same_record {R} (l : list (nat * R)) x y :
  NoDup (fst <$> l) -> x ∈ l -> y ∈ l -> fst x = fst y -> x = y.
Proof.
  induction l as [|z l IH]; intros Hnd Hx Hy Hk; [by apply elem_of_nil in Hx|].
  rewrite fmap_cons in Hnd. apply NoDup_cons in Hnd as [Hz Hnd].
  apply elem_of_cons in Hx as [->|Hx]; apply elem_of_cons in Hy as [->|Hy].
  - done.
  - exfalso. apply Hz. rewrite Hk. apply list_elem_of_fmap. by exists y.
  - exfalso. apply Hz. rewrite <- Hk. apply list_elem_of_fmap. by exists x.
  - by apply IH.
Qed.

Lemma among_spec keys k : among keys k = true <-> k ∈ keys.
Proof.
  unfold among. rewrite existsb_exists. split.
  - intros (j & Hin & Hj). apply Nat.eqb_eq in Hj. subst. by apply list_elem_of_In.
  - intros Hin. exists k. split; [by apply list_elem_of_In | apply Nat.eqb_refl].
Qed.

Lemma filter_perm {A} (p : A -> bool) l l' :
  l ≡ₚ l' -> List.filter p l ≡ₚ List.filter p l'.
Proof.
  induction 1 as [|x l l' _ IH|x y l|l l' l'' _ IH1 _ IH2]; simpl.
  - done.
  - destruct (p x); by rewrite IH.
  - destruct (p x), (p y); try done. apply Permutation_swap.
  - by rewrite IH1.
Qed.

Section Eviction.
Context (max : nat) (st : ObjectStore AlertRecord) (Hwf : wf st).

Let n := store_count st - max.
Let evicted := take n (alert_index st).

Lemma index_NoDup : NoDup (fst <$> alert_index st).
Proof. rewrite alert_index_perm. by apply wf_NoDup. Qed.

Lemma cleanupOldAlerts_records :
  records (cleanupOldAlerts max st)
  = List.filter (fun e => negb (among (fst <$> evicted) (fst e))) (records st).
Proof.
  unfold cleanupOldAlerts, evicted, n.
  destruct (Nat.ltb_spec max (store_count st)) as [Hlt|Hge].
  - by rewrite cursor_delete_records, Nat.sub_0_r.
  - replace (store_count st - max) with 0 by lia. simpl.
    by rewrite filter_all.
Qed.

Lemma survivor_in_rest s :
  s ∈ records (cleanupOldAlerts max st) -> s ∈ drop n (alert_index st).
Proof.
  rewrite cleanupOldAlerts_records. intros Hs.
  apply list_elem_of_In, filter_In in Hs as [Hin Hk].
  apply list_elem_of_In in Hin. rewrite <- alert_index_perm in Hin.
  rewrite <- (take_drop n (alert_index st)) in Hin.
  apply elem_of_app in Hin as [Hin|Hin]; [|done].
  apply negb_true_iff in Hk. exfalso.
  assert (among (fst <$> evicted) (fst s) = true) as Ha; [|congruence].
  apply among_spec, list_elem_of_fmap. by exists s.
Qed.

Lemma evicted_in_prefix e :
  e ∈ records st -> e ∉ records (cleanupOldAlerts max st) -> e ∈ evicted.
Proof.
  rewrite cleanupOldAlerts_records. intros He Hgone.
  destruct (among (fst <$> evicted) (fst e)) eqn:Ha.
  - apply among_spec, list_elem_of_fmap in Ha as (x & Hk & Hx).
    assert (x = e) as ->; [|done].
    apply (same_key_same_record (records st)); [by apply wf_NoDup| |done|done].
    rewrite <- alert_index_perm. by eapply in_take.
  - exfalso. apply Hgone. apply list_elem_of_In, filter_In.
    split; [by apply list_elem_of_In | by rewrite Ha].
Qed.

Lemma cleanupOldAlerts_count :
  store_count (cleanupOldAlerts max st) = Nat.min (store_count st) max.
Proof.
  unfold store_count at 1. rewrite cleanupOldAlerts_records.
  rewrite (Permutation_length
             (filter_perm _ _ _ (symmetry (alert_index_perm st)))).
  unfold evicted. rewrite filter_front by apply index_NoDup.
  rewrite length_drop, (Permutation_length (alert_index_perm st)).
  unfold n, store_count. lia.
Qed.

Lemma cleanupOldAlerts_older e s :
  e ∈ records st -> e ∉ records (cleanupOldAlerts max st) ->
  s ∈ records (cleanupOldAlerts max st) -> older e s.
Proof.
  intros He Hgone Hs.
  pose proof (evicted_in_prefix e He Hgone) as Hpre.
  pose proof (survivor_in_rest s Hs) as Hrest.
  pose proof (sorted_take_drop _ n e s (alert_index_sorted st) Hpre Hrest) as Hle.
  apply ile_spec in Hle as [Hlt|[Heq Hk]]; [by left|].
  right. split; [done|].
  destruct (decide (fst e = fst s)) as [Hsame|Hne]; [|lia].
  exfalso. apply Hgone.
  assert (e = s) as ->; [|done].
  apply (same_key_same_record (records st)); [by apply wf_NoDup|done| |done].
  rewrite <- alert_index_perm. by eapply in_drop.
Qed.

End Eviction.

(** The record [saveAlert] builds from an alert. *)
Definition stored_alert (a : Alert) (now : Z) : AlertRecord :=
  mkAlertRecord
    (mkAlert (severity a) (title a) (description a) (key a)
             (if Z.eqb (timestamp a) 0 then now else timestamp a))
    false.

(** Timestamps do not decrease with the primary key. *)
Definition arrival_ordered (l : list (nat * AlertRecord)) : Prop :=
  forall x y, x ∈ l -> y ∈ l -> fst x < fst y ->
    (timestamp (alert (snd x)) <= timestamp (alert (snd y)))%Z.

(** C6 (as the code has it): after [saveAlert], the alerts in excess of
    [maxAlerts] are evicted from the front of the [timestamp] index:
    every evicted alert has a lower timestamp than every alert kept, or
    the same timestamp and a lower key.  They are the oldest by
    insertion order when timestamps do not decrease with the key. *)
Theorem saveAlert_evicts_lowest_timestamp
  (sm : StorageManager) (d : DB) (a : Alert) (now : Z)
  (Hd : db sm = Some d)
  (Hwf : wf (alerts d)) :
  let st := fst (store_add (alerts d) (stored_alert a now)) in
  exists d',
    db (fst (saveAlert IOSuccess sm a now)) = Some d'
    /\ store_count (alerts d') = Nat.min (store_count st) (maxAlerts sm)
    /\ (forall s, s ∈ records (alerts d') -> s ∈ records st)
    /\ (forall e s, e ∈ records st -> e ∉ records (alerts d') ->
          s ∈ records (alerts d') -> older e s)
    /\ (arrival_ordered (records st) ->
        forall e s, e ∈ records st -> e ∉ records (alerts d') ->
          s ∈ records (alerts d') -> fst e < fst s).
Proof.
  intros st. unfold saveAlert. rewrite Hd. cbn [fst].
  fold (stored_alert a now).
  assert (Hwf' : wf st) by by apply store_add_wf.
  eexists. split; [reflexivity|]. cbn [alerts]. fold st.
  assert (Hsub : forall s, s ∈ records (cleanupOldAlerts (maxAlerts sm) st) ->
                           s ∈ records st).
  { intros s Hs. rewrite cleanupOldAlerts_records in Hs.
    apply list_elem_of_In, filter_In in Hs as [Hs _]. by apply list_elem_of_In. }
  split_and!.
  - by apply cleanupOldAlerts_count.
  - done.
  - intros e s. by apply cleanupOldAlerts_older.
  - intros Hord e s He Hgone Hs.
    destruct (cleanupOldAlerts_older _ _ Hwf' e s He Hgone Hs) as [Hlt|[_ Hk]];
      [|done].
    destruct (Nat.lt_trichotomy (fst e) (fst s)) as [H|[H|H]]; [done| |].
    + exfalso. apply Hgone.
      assert (e = s) as ->; [|done].
      apply (same_key_same_record (records st)); auto using wf_NoDup.
    + pose proof (Hord s e (Hsub _ Hs) He H). lia.
Qed.

(** A run of [saveAlert] calls, all served by the backend. *)
Definition saveAlerts (sm : StorageManager) (calls : list (Alert * Z))
  : StorageManager :=
  fold_left (fun sm c => fst (saveAlert IOSuccess sm (fst c) (snd c))) calls sm.

Definition co2_alert (t : Z) : Alert :=
  mkAlert WARNING "High CO₂ (MH-Z19C)" "" "co2_high" t.

(** Five hundred alerts stamped 1001 .. 1500, saved in that order. *)
Definition full_store : StorageManager :=
  saveAlerts Storage.initial
    ((fun i => (co2_alert (1000 + Z.of_nat i), 1000 + Z.of_nat i)%Z) <$> seq 1 500).

(** With the store full, an alert stamped 5 (the clock was set back) is
    saved under key 501 and is itself the one evicted; key 1, the oldest
    by insertion, stays. *)
Lemma saveAlert_evicts_newest_insertion :
  exists d',
    db (fst (saveAlert IOSuccess full_store (co2_alert 5) 5)) = Some d'
    /\ snd (saveAlert IOSuccess full_store (co2_alert 5) 5) = Ret 501
    /\ fst <$> records (alerts d') = seq 1 500.
Proof. vm_compute. eexists. split; [reflexivity|]. by split. Qed.

Lemma saveAlert_evicts_lowest_timestamp_witness :
  exists d',
    db (fst (saveAlert IOSuccess Storage.initial (co2_alert 5) 5)) = Some d'
    /\ store_count (alerts d') = 1.
Proof.
  destruct (saveAlert_evicts_lowest_timestamp
              Storage.initial empty_db (co2_alert 5) 5
              eq_refl empty_store_wf) as (d' & Hd' & Hcount & _).
  exists d'. split; [exact Hd'|]. rewrite Hcount. reflexivity.
Defined.

(** *** Any sequence of storage operations *)

Inductive Op :=
| OpSaveReading (io : IOOutcome) (reading : JSValue) (now : Z)
| OpSaveAlert (io : IOOutcome) (a : Alert) (now : Z)
| OpAcknowledge (io : IOOutcome) (alertId : nat)
| OpClearAlerts (io : IOOutcome).

Definition apply_op (sm : StorageManager) (op : Op) : StorageManager :=
  match op with
  | OpSaveReading io reading now => fst (saveReading io sm reading now)
  | OpSaveAlert io a now => fst (saveAlert io sm a now)
  | OpAcknowledge io alertId => fst (acknowledgeAlert io sm alertId)
  | OpClearAlerts io => fst (clearAlerts io sm)
  end.

Definition run_ops (sm : StorageManager) (ops : list Op) : StorageManager :=
  fold_left apply_op ops sm.

(** The database is open, both stores are well formed and within their
    ceilings. *)
Definition bounded (sm : StorageManager) : Prop :=
  exists d, db sm = Some d
    /\ wf (readings d) /\ wf (alerts d)
    /\ store_count (readings d) <= maxReadings sm
    /\ store_count (alerts d) <= maxAlerts sm.

Lemma filter_keys_ascending {R} (p : nat * R -> bool) (l : list (nat * R)) :
  StronglySorted lt (fst <$> l) -> StronglySorted lt (fst <$> List.filter p l).
Proof.
  induction l as [|e l IH]; intros Hs; [done|].
  rewrite fmap_cons in Hs. apply StronglySorted_inv in Hs as [Hs Hlt].
  cbn [List.filter]. destruct (p e); [|by apply IH]. rewrite fmap_cons.
  constructor; [by apply IH|].
  rewrite Forall_forall in Hlt. apply Forall_forall. intros k Hk.
  apply Hlt. apply list_elem_of_fmap in Hk as (x & -> & Hx).
  apply list_elem_of_fmap. exists x. split; [done|].
  apply list_elem_of_In. apply list_elem_of_In in Hx.
  by apply filter_In in Hx as [Hx _].
Qed.

Lemma filter_keys_below {R} (p : nat * R -> bool) (l : list (nat * R)) g :
  Forall (fun k => k < g) (fst <$> l) ->
  Forall (fun k => k < g) (fst <$> List.filter p l).
Proof.
  induction l as [|e l IH]; intros Hb; [done|].
  rewrite fmap_cons in Hb. apply Forall_cons in Hb as [He Hb].
  cbn [List.filter]. destruct (p e); [|by apply IH].
  rewrite fmap_cons. constructor; [done|by apply IH].
Qed.

Lemma filter_wf {R} (p : nat * R -> bool) (st : ObjectStore R) :
  wf st -> wf (mkStore (List.filter p (records st)) (keyGen st)).
Proof.
  intros [Hs Hb]. split; simpl.
  - by apply filter_keys_ascending.
  - by apply filter_keys_below.
Qed.

Lemma cleanupOldAlerts_wf max (st : ObjectStore AlertRecord) :
  wf st -> wf (cleanupOldAlerts max st).
Proof.
  intros Hwf. unfold cleanupOldAlerts.
  destruct (Nat.ltb max (store_count st)); [|done].
  rewrite cursor_delete_records. by apply filter_wf.
Qed.

Lemma store_put_keys {R} k (r : R) st :
  fst <$> records (store_put k r st) = fst <$> records st.
Proof.
  unfold store_put. cbn [records].
  induction (records st) as [|e l IH]; [done|].
  cbn [map]. rewrite !fmap_cons, IH. f_equal.
  by destruct (Nat.eqb_spec (fst e) k).
Qed.

Lemma store_put_wf {R} k (r : R) st : wf st -> wf (store_put k r st).
Proof. unfold wf. by rewrite store_put_keys. Qed.

Lemma store_put_count {R} k (r : R) st :
  store_count (store_put k r st) = store_count st.
Proof. unfold store_count, store_put. simpl. apply length_map. Qed.

Lemma apply_op_bounded sm op : bounded sm -> bounded (apply_op sm op).
Proof.
  intros (d & Hd & Hr & Ha & Hcr & Hca).
  destruct op as [io reading now|io a now|io alertId|io]; simpl.
  - unfold saveReading. rewrite Hd.
    destruct (get reading "timestamp"); [|by exists d].
    destruct io; [|by exists d]. simpl.
    eexists. split; [reflexivity|]. simpl.
    match goal with |- context [cleanupOldReadings _ ?s] => set (st := s) end.
    assert (Hst : wf st) by apply (store_add_wf (readings d) _ Hr).
    rewrite (cleanupOldReadings_drop _ st Hst).
    split_and!; try done.
    + by apply (drop_wf st).
    + unfold store_count. simpl. rewrite length_drop. unfold store_count. lia.
  - unfold saveAlert. rewrite Hd. destruct io; [|by exists d]. simpl.
    eexists. split; [reflexivity|]. simpl.
    match goal with |- context [cleanupOldAlerts _ ?s] => set (st := s) end.
    assert (Hst : wf st) by apply (store_add_wf (alerts d) _ Ha).
    split_and!; try done.
    + by apply cleanupOldAlerts_wf.
    + rewrite (cleanupOldAlerts_count _ st Hst). lia.
  - unfold acknowledgeAlert. rewrite Hd. destruct io; [|by exists d].
    destruct (store_get alertId (alerts d)); [|by exists d]. simpl.
    eexists. split; [reflexivity|]. simpl.
    split_and!; try done.
    + by apply store_put_wf.
    + by rewrite store_put_count.
  - unfold clearAlerts. rewrite Hd. destruct io; [|by exists d]. simpl.
    eexists. split; [reflexivity|]. simpl.
    split_and!; try done.
    + split; constructor.
    + unfold store_count. simpl. lia.
Qed.

Lemma apply_op_ceilings sm op :
  maxReadings (apply_op sm op) = maxReadings sm
  /\ maxAlerts (apply_op sm op) = maxAlerts sm.
Proof.
  destruct op as [io reading now|io a now|io alertId|io]; simpl.
  - unfold saveReading. destruct (db sm); [|done].
    destruct (get reading "timestamp"); [|done]. by destruct io.
  - unfold saveAlert. destruct (db sm); [|done]. by destruct io.
  - unfold acknowledgeAlert. destruct (db sm); [|done].
    destruct io; [|done]. by destruct (store_get _ _).
  - unfold clearAlerts. destruct (db sm); [|done]. by destruct io.
Qed.

(** The readings saved carry no in-line [id]. *)
Definition no_inline_key (op : Op) : bool :=
  match op with
  | OpSaveReading _ reading _ => negb (has_own reading "id")
  | _ => true
  end.

(** Whatever is saved, acknowledged or cleared, and whichever requests
    fail, the stores stay well formed and within their ceilings. *)
Theorem storage_stays_bounded (sm : StorageManager) (ops : list Op)
  (Hsm : bounded sm)
  (Hops : Forall (fun op => no_inline_key op = true) ops) :
  bounded (run_ops sm ops)
  /\ maxReadings (run_ops sm ops) = maxReadings sm
  /\ maxAlerts (run_ops sm ops) = maxAlerts sm.
Proof.
  clear Hops. revert sm Hsm. unfold run_ops.
  induction ops as [|op ops IH]; intros sm Hsm; simpl; [done|].
  destruct (IH _ (apply_op_bounded sm op Hsm)) as (H1 & H2 & H3).
  destruct (apply_op_ceilings sm op) as [-> ->] in H2, H3. done.
Qed.

Lemma initial_bounded : bounded Storage.initial.
Proof.
  exists empty_db. split; [reflexivity|].
  split_and!; try apply empty_store_wf; unfold store_count; simpl; lia.
Qed.

Lemma storage_stays_bounded_witness :
  bounded (run_ops Storage.initial
             [OpSaveAlert IOSuccess (co2_alert 7) 7; OpClearAlerts IOSuccess;
              OpSaveReading (IOError "QuotaExceededError") JNull 8]).
Proof.
  apply (storage_stays_bounded Storage.initial _ initial_bounded).
  repeat constructor.
Defined.

(** *** Keys are handed out once *)

Definition alert_saved (op : Op) : nat :=
  match op with OpSaveAlert IOSuccess _ _ => 1 | _ => 0 end.

Definition reading_saved (op : Op) : nat :=
  match op with
  | OpSaveReading IOSuccess reading _ => if nullish reading then 0 else 1
  | _ => 0
  end.

Definition total (f : Op -> nat) (ops : list Op) : nat :=
  fold_right (fun op n => f op + n) 0 ops.

Lemma cleanupOldReadings_keyGen max st :
  keyGen (cleanupOldReadings max st) = keyGen st.
Proof.
  unfold cleanupOldReadings. destruct (Nat.ltb _ _); [|done].
  by rewrite cursor_delete_records.
Qed.

Lemma cleanupOldAlerts_keyGen max st :
  keyGen (cleanupOldAlerts max st) = keyGen st.
Proof.
  unfold cleanupOldAlerts. destruct (Nat.ltb _ _); [|done].
  by rewrite cursor_delete_records.
Qed.

Lemma apply_op_generators sm d op :
  db sm = Some d ->
  exists d', db (apply_op sm op) = Some d'
    /\ keyGen (alerts d') = keyGen (alerts d) + alert_saved op
    /\ keyGen (readings d') = keyGen (readings d) + reading_saved op.
Proof.
  intros Hd. destruct op as [io reading now|io a now|io alertId|io]; simpl.
  - unfold saveReading, get. rewrite Hd.
    destruct io, (nullish reading); simpl;
      (eexists; split; [first [reflexivity | exact Hd]|]); simpl;
      rewrite ?cleanupOldReadings_keyGen; simpl; lia.
  - unfold saveAlert. rewrite Hd.
    destruct io; simpl; (eexists; split; [first [reflexivity | exact Hd]|]); simpl;
      rewrite ?cleanupOldAlerts_keyGen; simpl; lia.
  - unfold acknowledgeAlert. rewrite Hd.
    destruct io; [destruct (store_get _ _)|]; simpl;
      (eexists; split; [first [reflexivity | exact Hd]|]); simpl; lia.
  - unfold clearAlerts. rewrite Hd.
    destruct io; simpl; (eexists; split; [first [reflexivity | exact Hd]|]); simpl; lia.
Qed.

Lemma run_ops_generators sm d ops :
  db sm = Some d ->
  exists d', db (run_ops sm ops) = Some d'
    /\ keyGen (alerts d') = keyGen (alerts d) + total alert_saved ops
    /\ keyGen (readings d') = keyGen (readings d) + total reading_saved ops.
Proof.
  revert sm d. unfold run_ops.
  induction ops as [|op ops IH]; intros sm d Hd; simpl.
  - exists d. split_and!; [done|lia|lia].
  - destruct (apply_op_generators sm d op Hd) as (d1 & Hd1 & Ha1 & Hr1).
    destruct (IH _ _ Hd1) as (d' & Hd' & Ha & Hr).
    exists d'. split_and!; [done|lia|lia].
Qed.

(** After any history of an open database, a save that succeeds
    returns one more than the number of saves into that store that
    succeeded before it: evicting, acknowledging or clearing records
    never frees a key. *)
Theorem keys_are_never_reused (ops : list Op) (a : Alert) (reading : JSValue)
  (now : Z)
  (Hops : Forall (fun op => no_inline_key op = true) ops)
  (Hreading : storable reading = true) :
  snd (saveAlert IOSuccess (run_ops Storage.initial ops) a now)
  = Ret (S (total alert_saved ops))
  /\ snd (saveReading IOSuccess (run_ops Storage.initial ops) reading now)
     = Ret (S (total reading_saved ops)).
Proof.
  destruct (run_ops_generators Storage.initial empty_db ops eq_refl)
    as (d & Hd & Ha & Hr).
  split.
  - unfold saveAlert. rewrite Hd. simpl. by rewrite Ha.
  - rewrite (saveReading_resolved _ d _ _ Hd Hreading). simpl. by rewrite Hr.
Qed.

Lemma keys_are_never_reused_witness :
  snd (saveAlert IOSuccess
         (run_ops Storage.initial
            [OpSaveAlert IOSuccess (co2_alert 7) 7; OpClearAlerts IOSuccess])
         (co2_alert 9) 9)
  = Ret 2.
Proof.
  assert (Hops : Forall (fun op => no_inline_key op = true)
            [OpSaveAlert IOSuccess (co2_alert 7) 7; OpClearAlerts IOSuccess])
    by (repeat constructor).
  assert (Hr : storable (JObj []) = true) by reflexivity.
  exact (proj1 (keys_are_never_reused _ (co2_alert 9) (JObj []) 9 Hops Hr)).
Defined.

(** *** Range queries *)

Section Index.
Context {K E : Type} (leb : K -> K -> bool) (keyOf : E -> K * nat).
Context (leb_total : forall x y, leb x y = true \/ leb y x = true).
Context (leb_trans : forall x y z, leb x y = true -> leb y z = true -> leb x z = true).

Definition before (a b : E) : Prop := index_le leb (keyOf a) (keyOf b) = true.

Lemma before_total a b : before a b \/ before b a.
Proof.
  unfold before, index_le.
  destruct (leb (fst (keyOf a)) (fst (keyOf b))) eqn:Hab;
    destruct (leb (fst (keyOf b)) (fst (keyOf a))) eqn:Hba; auto.
  - rewrite !Nat.leb_le. lia.
  - destruct (leb_total (fst (keyOf a)) (fst (keyOf b))); congruence.
Qed.

Lemma before_trans a b c : before a b -> before b c -> before a c.
Proof.
  unfold before, index_le. intros Hab Hbc.
  destruct (leb (fst (keyOf a)) (fst (keyOf b))) eqn:H1; [|discriminate].
  destruct (leb (fst (keyOf b)) (fst (keyOf c))) eqn:H2; [|discriminate].
  rewrite (leb_trans _ _ _ H1 H2).
  destruct (leb (fst (keyOf c)) (fst (keyOf a))) eqn:H3; [|done].
  rewrite (leb_trans _ _ _ H2 H3) in Hab.
  rewrite (leb_trans _ _ _ H3 H1) in Hbc.
  apply Nat.leb_le in Hab, Hbc. apply Nat.leb_le. lia.
Qed.

Lemma index_insert_perm e l : index_insert leb keyOf e l ≡ₚ e :: l.
Proof.
  induction l as [|x l IH]; simpl; [done|].
  destruct (index_le _ _ _); [done|].
  rewrite IH. apply Permutation_swap.
Qed.

Lemma index_order_perm l : index_order leb keyOf l ≡ₚ l.
Proof.
  unfold index_order. induction l as [|e l IH]; simpl; [done|].
  by rewrite index_insert_perm, IH.
Qed.

Lemma index_insert_sorted e l :
  StronglySorted before l -> StronglySorted before (index_insert leb keyOf e l).
Proof.
  induction 1 as [|x l Hs IH Hf]; simpl; [by repeat constructor|].
  destruct (index_le _ _ _) eqn:Hle.
  - constructor; [by constructor|].
    constructor; [done|].
    eapply Forall_impl; [exact Hf|]. intros y Hy. by eapply before_trans.
  - constructor; [done|].
    rewrite index_insert_perm. constructor; [|done].
    destruct (before_total e x) as [H|H]; [|done].
    unfold before in H. congruence.
Qed.

Lemma index_order_sorted l : StronglySorted before (index_order leb keyOf l).
Proof.
  unfold index_order. induction l as [|e l IH]; simpl; [constructor|].
  by apply index_insert_sorted.
Qed.

End Index.

Lemma Qle_bool_total x y : Qle_bool x y = true \/ Qle_bool y x = true.
Proof.
  rewrite !Qle_bool_iff. destruct (Qlt_le_dec x y); [left|right]; [|done].
  by apply Qlt_le_weak.
Qed.

Lemma Qle_bool_trans x y z :
  Qle_bool x y = true -> Qle_bool y z = true -> Qle_bool x z = true.
Proof. rewrite !Qle_bool_iff. apply Qle_trans. Qed.

(** Stored readings in the order of their numeric timestamps. *)
Definition by_time (x y : nat * ReadingRecord) : Prop :=
  exists qx qy,
    reading_timestamp (snd x) = Some qx /\ reading_timestamp (snd y) = Some qy
    /\ (qx <= qy)%Q.

Lemma fmap_sorted {A B} (f : A -> B) (RA : A -> A -> Prop) (RB : B -> B -> Prop)
  (l : list A) :
  (forall x y, x ∈ l -> y ∈ l -> RA x y -> RB (f x) (f y)) ->
  StronglySorted RA l -> StronglySorted RB (f <$> l).
Proof.
  intros Hf Hs. induction Hs as [|x l Hs IH Hx]; simpl; constructor.
  - apply IH. intros a b Ha Hb. apply Hf; by right.
  - apply Forall_fmap. rewrite Forall_forall in Hx. apply Forall_forall.
    intros y Hy. simpl. apply Hf; [by left|by right|by apply Hx].
Qed.

Lemma readings_in_range_spec (st : ObjectStore ReadingRecord) (startTime endTime : Q) :
  (forall e, e ∈ readings_in_range st startTime endTime <->
     e ∈ records st
     /\ exists q, reading_timestamp (snd e) = Some q
                  /\ (startTime <= q)%Q /\ (q <= endTime)%Q)
  /\ StronglySorted by_time (readings_in_range st startTime endTime).
Proof.
  unfold readings_in_range.
  set (indexed := omap _ (records st)).
  set (inside := List.filter _ indexed).
  assert (Hin : forall qe, qe ∈ inside <->
    snd qe ∈ records st
    /\ reading_timestamp (snd (snd qe)) = Some (fst qe)
    /\ (startTime <= fst qe)%Q /\ (fst qe <= endTime)%Q).
  { intros [q e]. unfold inside, indexed. simpl.
    rewrite list_elem_of_In, filter_In, <- list_elem_of_In, list_elem_of_omap.
    simpl. rewrite andb_true_iff, !Qle_bool_iff. split.
    - intros [(x & Hx & Hf) [? ?]].
      destruct (reading_timestamp (snd x)) as [q'|] eqn:Hq; [|discriminate].
      injection Hf as <- <-. done.
    - intros (He & Hq & ? & ?). split; [|done].
      exists e. split; [done|]. by rewrite Hq. }
  split.
  - intros e. rewrite list_elem_of_fmap. split.
    + intros ([q e'] & -> & Hqe). simpl.
      rewrite index_order_perm in Hqe. apply Hin in Hqe as (? & ? & ? & ?).
      split; [done|]. by exists q.
    + intros (He & q & Hq & ? & ?). exists (q, e). split; [done|].
      rewrite index_order_perm. by apply Hin.
  - eapply fmap_sorted; [|apply (index_order_sorted Qle_bool _ Qle_bool_total Qle_bool_trans)].
    intros [qx x] [qy y] Hx Hy Hb. simpl.
    rewrite index_order_perm in Hx, Hy.
    apply Hin in Hx as (_ & Hqx & _), Hy as (_ & Hqy & _). simpl in *.
    exists qx, qy. split_and!; [done|done|].
    unfold before, index_le in Hb. simpl in Hb.
    destruct (Qle_bool qx qy) eqn:Hle; [|discriminate].
    by apply Qle_bool_iff.
Qed.

(** [getReadings(startTime, endTime)], for bounds that form a key range
    ([startTime <= endTime]), returns exactly the stored readings whose
    timestamp is a number within the bounds, both included, in
    ascending order of timestamp.  A reading stored with any other
    timestamp (a string, say) is in no result. *)
Theorem getReadings_in_range (sm : StorageManager) (d : DB) (startTime endTime : Q)
  (Hd : db sm = Some d)
  (Hbounds : (startTime <= endTime)%Q) :
  exists l,
    getReadings sm startTime endTime = Ret (reading_object <$> l)
    /\ (forall e, e ∈ l <->
          e ∈ records (readings d)
          /\ exists q, reading_timestamp (snd e) = Some q
                       /\ (startTime <= q)%Q /\ (q <= endTime)%Q)
    /\ StronglySorted by_time l.
Proof.
  unfold getReadings. rewrite Hd.
  exists (readings_in_range (readings d) startTime endTime).
  split; [done|]. apply readings_in_range_spec.
Qed.

Lemma getReadings_in_range_witness :
  exists l,
    getReadings (saveReadings small_store five_readings) 0 650
    = Ret (reading_object <$> l)
    /\ StronglySorted by_time l.
Proof.
  assert (Hd : exists d, db (saveReadings small_store five_readings) = Some d)
    by (vm_compute; by eexists).
  destruct Hd as [d Hd].
  assert (Hb : (0 <= 650)%Q) by (vm_compute; discriminate).
  destruct (getReadings_in_range _ d 0 650 Hd Hb) as (l & Hget & _ & Hsorted).
  by exists l.
Defined.

(** *** Saving, then reading back *)

Lemma own_get_set fs p v : own_get (own_set fs p v) p = Some v.
Proof.
  induction fs as [|[k w] fs IH]; simpl.
  - by rewrite String.eqb_refl.
  - destruct (String.eqb k p) eqn:Hk; simpl; rewrite Hk; [done|apply IH].
Qed.

Lemma last_survives {A} (l : list A) (x : A) n :
  n <= length l -> x ∈ drop n (l ++ [x]).
Proof.
  intros Hn. rewrite drop_app_le by done. apply elem_of_app. right. by left.
Qed.

(** A reading saved with a numeric timestamp (its own, or the time of
    the call when it has none) is returned, under the key the save
    resolved with, by every range query whose bounds include that
    timestamp, provided the ceiling is at least 1. *)
Theorem saved_reading_is_retrievable
  (sm : StorageManager) (d : DB) (reading : JSValue) (now : Z)
  (q startTime endTime : Q)
  (Hd : db sm = Some d)
  (Hwf : wf (readings d))
  (Hreading : storable reading = true)
  (Hmax : 1 <= maxReadings sm)
  (Hts : or_else (prop reading "timestamp") (num_of_Z now) = JNum q)
  (Hrange : (startTime <= q)%Q /\ (q <= endTime)%Q) :
  exists k l,
    saveReading IOSuccess sm reading now
    = (fst (saveReading IOSuccess sm reading now), Ret k)
    /\ getReadings (fst (saveReading IOSuccess sm reading now)) startTime endTime
       = Ret l
    /\ reading_object (k, record_of (reading, now)) ∈ l.
Proof.
  rewrite (saveReading_resolved sm d reading now Hd Hreading). cbn [fst].
  exists (keyGen (readings d)). eexists. split; [reflexivity|].
  unfold getReadings. cbn [db readings]. split; [reflexivity|].
  apply list_elem_of_fmap_2. apply readings_in_range_spec. split.
  - rewrite cleanupOldReadings_drop by by apply store_add_wf.
    unfold store_add, store_count. cbn [fst records].
    apply last_survives. rewrite length_app. simpl. lia.
  - exists q. split; [|done]. unfold reading_timestamp, record_of. simpl.
    by rewrite own_get_set, Hts.
Qed.

Lemma saved_reading_is_retrievable_witness :
  exists k l,
    saveReading IOSuccess Storage.initial (JObj []) 1700000000000
    = (fst (saveReading IOSuccess Storage.initial (JObj []) 1700000000000), Ret k)
    /\ getReadings (fst (saveReading IOSuccess Storage.initial (JObj [])
                           1700000000000)) 0 1700000000000 = Ret l
    /\ reading_object (k, record_of (JObj [], 1700000000000%Z)) ∈ l.
Proof.
  assert (Hmax : 1 <= maxReadings Storage.initial) by (vm_compute; lia).
  assert (Hrange : (0 <= inject_Z 1700000000000)%Q
                   /\ (inject_Z 1700000000000 <= 1700000000000)%Q)
    by (split; vm_compute; discriminate).
  exact (saved_reading_is_retrievable Storage.initial empty_db (JObj [])
           1700000000000 (inject_Z 1700000000000) 0 1700000000000
           eq_refl empty_store_wf eq_refl Hmax eq_refl Hrange).
Defined.

(** *** Listing and acknowledging alerts *)

(** [x] is listed before [y]: it is newer, or as old and saved
    earlier. *)
Definition listed_before (x y : nat * AlertRecord) : Prop :=
  (timestamp (alert (snd y)) < timestamp (alert (snd x)))%Z
  \/ (timestamp (alert (snd x)) = timestamp (alert (snd y)) /\ fst x < fst y).

Lemma insert_desc_perm x l : insert_desc x l ≡ₚ x :: l.
Proof.
  induction l as [|y l IH]; simpl; [done|].
  destruct (Z.leb _ _); [done|]. rewrite IH. apply Permutation_swap.
Qed.

Lemma sort_desc_perm l : sort_desc l ≡ₚ l.
Proof.
  unfold sort_desc. induction l as [|x l IH]; simpl; [done|].
  by rewrite insert_desc_perm, IH.
Qed.

Lemma insert_desc_sorted x l :
  StronglySorted listed_before l ->
  Forall (fun y => fst x < fst y) l ->
  StronglySorted listed_before (insert_desc x l).
Proof.
  induction 1 as [|y l Hs IH Hy]; intros Hx; simpl; [by repeat constructor|].
  apply Forall_cons in Hx as [Hxy Hx].
  destruct (Z.leb_spec (timestamp (alert (snd y))) (timestamp (alert (snd x))))
    as [Hle|Hgt].
  - constructor; [by constructor|]. constructor.
    + unfold listed_before. lia.
    + rewrite Forall_forall in Hy, Hx. apply Forall_forall. intros z Hz.
      specialize (Hy z Hz). specialize (Hx z Hz).
      unfold listed_before in *. lia.
  - constructor; [by apply IH|].
    rewrite insert_desc_perm. constructor; [|done].
    unfold listed_before. lia.
Qed.

Lemma sort_desc_sorted (l : list (nat * AlertRecord)) :
  StronglySorted lt (fst <$> l) -> StronglySorted listed_before (sort_desc l).
Proof.
  unfold sort_desc. induction l as [|x l IH]; intros Hs; simpl; [constructor|].
  rewrite fmap_cons in Hs. apply StronglySorted_inv in Hs as [Hs Hx].
  apply insert_desc_sorted; [by apply IH|].
  rewrite Forall_forall in Hx. apply Forall_forall. intros y Hy.
  apply Hx. rewrite sort_desc_perm in Hy. by apply list_elem_of_fmap_2.
Qed.

(** [getAlerts()] without a filter returns every stored alert once,
    newest timestamp first, alerts of equal timestamp in the order they
    were saved. *)
Theorem getAlerts_newest_first (sm : StorageManager) (d : DB)
  (Hd : db sm = Some d)
  (Hwf : wf (alerts d)) :
  exists l,
    getAlerts sm None = Ret l
    /\ l ≡ₚ records (alerts d)
    /\ StronglySorted listed_before l.
Proof.
  unfold getAlerts. rewrite Hd. eexists. split; [reflexivity|]. split.
  - apply sort_desc_perm.
  - apply sort_desc_sorted. by destruct Hwf.
Qed.

Lemma getAlerts_newest_first_witness :
  exists l,
    getAlerts (saveAlerts Storage.initial
                 [(co2_alert 5, 5%Z); (co2_alert 9, 9%Z); (co2_alert 7, 7%Z)])
              None = Ret l
    /\ (fun e => timestamp (alert (snd e))) <$> l = [9%Z; 7%Z; 5%Z].
Proof.
  set (sm := saveAlerts Storage.initial
               [(co2_alert 5, 5%Z); (co2_alert 9, 9%Z); (co2_alert 7, 7%Z)]).
  assert (Hb : bounded sm).
  { apply (apply_op_bounded _ (OpSaveAlert IOSuccess (co2_alert 7) 7)).
    apply (apply_op_bounded _ (OpSaveAlert IOSuccess (co2_alert 9) 9)).
    apply (apply_op_bounded _ (OpSaveAlert IOSuccess (co2_alert 5) 5)).
    apply initial_bounded. }
  destruct Hb as (d & Hd & _ & Hwf & _).
  destruct (getAlerts_newest_first sm d Hd Hwf) as (l & Hl & _).
  exists l. split; [exact Hl|].
  vm_compute in Hl. injection Hl as <-. reflexivity.
Defined.

Lemma find_key_map {R} (f : nat * R -> nat * R) (l : list (nat * R)) k :
  (forall e, fst (f e) = fst e) ->
  List.find (fun e => Nat.eqb (fst e) k) (map f l)
  = f <$> List.find (fun e => Nat.eqb (fst e) k) l.
Proof.
  intros Hf. induction l as [|e l IH]; simpl; [done|].
  rewrite Hf. by destruct (Nat.eqb (fst e) k).
Qed.

Lemma store_get_put {R} k j (r : R) st :
  store_get j (store_put k r st)
  = if Nat.eqb j k then (fun _ => r) <$> store_get k st else store_get j st.
Proof.
  unfold store_get, store_put. cbn [records].
  rewrite find_key_map by (intros e; by destruct (Nat.eqb_spec (fst e) k)).
  destruct (Nat.eqb_spec j k) as [->|Hne].
  - destruct (List.find _ _) as [e|] eqn:Hf; [|done]. simpl.
    apply find_some in Hf as [_ He]. by rewrite He.
  - destruct (List.find _ _) as [e|] eqn:Hf; [|done]. simpl.
    apply find_some in Hf as [_ He]. apply Nat.eqb_eq in He. subst j.
    apply Nat.eqb_neq in Hne. by rewrite Hne.
Qed.

(** [acknowledgeAlert(id)] of an identifier that is not stored resolves
    with [false] and changes nothing; of a stored one it resolves with
    [true], marks that alert and only that one, and leaves its fields,
    the keys and the readings as they were. *)
Theorem acknowledgeAlert_marks_one (sm : StorageManager) (d : DB) (alertId : nat)
  (Hd : db sm = Some d) :
  match store_get alertId (alerts d) with
  | None => acknowledgeAlert IOSuccess sm alertId = (sm, Ret false)
  | Some r =>
      exists d',
        acknowledgeAlert IOSuccess sm alertId
        = (mkStorage (Some d') (maxReadings sm) (maxAlerts sm), Ret true)
        /\ readings d' = readings d
        /\ fst <$> records (alerts d') = fst <$> records (alerts d)
        /\ keyGen (alerts d') = keyGen (alerts d)
        /\ store_get alertId (alerts d') = Some (mkAlertRecord (alert r) true)
        /\ forall j, j <> alertId ->
             store_get j (alerts d') = store_get j (alerts d)
  end.
Proof.
  unfold acknowledgeAlert. rewrite Hd.
  destruct (store_get alertId (alerts d)) as [r|] eqn:Hget; [|done].
  eexists. split; [reflexivity|]. cbn [readings alerts].
  split_and!; try done.
  - apply store_put_keys.
  - by rewrite store_get_put, Nat.eqb_refl, Hget.
  - intros j Hj. rewrite store_get_put.
    apply Nat.eqb_neq in Hj. by rewrite Hj.
Qed.

Definition one_alert_db : DB :=
  mkDB empty_store (mkStore [(1, stored_alert (co2_alert 7) 7)] 2).

Lemma acknowledgeAlert_marks_one_witness :
  snd (acknowledgeAlert IOSuccess (mkStorage (Some one_alert_db) 10000 500) 1)
  = Ret true
  /\ snd (acknowledgeAlert IOSuccess (mkStorage (Some one_alert_db) 10000 500) 3)
     = Ret false.
Proof.
  pose proof (acknowledgeAlert_marks_one
                (mkStorage (Some one_alert_db) 10000 500) one_alert_db 1 eq_refl)
    as H1.
  pose proof (acknowledgeAlert_marks_one
                (mkStorage (Some one_alert_db) 10000 500) one_alert_db 3 eq_refl)
    as H3.
  assert (Hs1 : store_get 1 (alerts one_alert_db)
                = Some (stored_alert (co2_alert 7) 7)) by reflexivity.
  assert (Hs3 : store_get 3 (alerts one_alert_db) = None) by reflexivity.
  rewrite Hs1 in H1. rewrite Hs3 in H3.
  destruct H1 as (d' & -> & _). rewrite H3. by split.
Defined.

(** *** Settings *)

(** A setting that was saved is read back as saved, also when its value
    is falsy or [null] (the default is not substituted); a key never
    saved reads as the default; saving one key changes no other; a
    failed save changes nothing. *)
Theorem settings_round_trip (st : SettingsStore) (k : string) (value dflt : JSValue) :
  getSetting IOSuccess (fst (saveSetting IOSuccess st k value)) k dflt = Ret value
  /\ (forall j, j <> k ->
        getSetting IOSuccess (fst (saveSetting IOSuccess st k value)) j dflt
        = getSetting IOSuccess st j dflt)
  /\ (st !! k = None -> getSetting IOSuccess st k dflt = Ret dflt)
  /\ (forall msg, fst (saveSetting (IOError msg) st k value) = st).
Proof.
  unfold getSetting, saveSetting. simpl. split_and!.
  - by rewrite lookup_insert_eq.
  - intros j Hj. by rewrite lookup_insert_ne.
  - by intros ->.
  - done.
Qed.

End StorageProps.

(** ** The trend aggregator *)

Module TrendsProps.
Import Storage Trends.
Local Open Scope list_scope.
Local Open Scope nat_scope.

(** *** Downsampling *)

Lemma ceil_div_spec n s :
  0 < s ->
  exists q r, n = q * s + r /\ r < s
              /\ ceil_div n s = q + (if Nat.eqb r 0 then 0 else 1).
Proof.
  intros Hs. exists (n / s), (n mod s). split_and!.
  - rewrite (Nat.div_mod_eq n s) at 1. lia.
  - apply Nat.mod_upper_bound. lia.
  - reflexivity.
Qed.

Lemma ceil_div_le n s m : 0 < s -> ceil_div n s <= m <-> n <= m * s.
Proof.
  intros Hs. destruct (ceil_div_spec n s Hs) as (q & r & -> & Hr & ->).
  destruct (Nat.eqb_spec r 0); nia.
Qed.

Lemma ceil_div_pos n s : 0 < s -> 0 < n -> 0 < ceil_div n s.
Proof.
  intros Hs Hn. destruct (ceil_div_spec n s Hs) as (q & r & Hq & Hr & ->).
  destruct (Nat.eqb_spec r 0); nia.
Qed.

Lemma ceil_div_0 s : 0 < s -> ceil_div 0 s = 0.
Proof.
  intros Hs. destruct (ceil_div_spec 0 s Hs) as (q & r & Hq & Hr & ->).
  destruct (Nat.eqb_spec r 0); nia.
Qed.

Lemma ceil_div_step m s :
  0 < s -> 0 < m -> ceil_div m s = S (ceil_div (m - s) s).
Proof.
  intros Hs Hm.
  apply Nat.le_antisymm.
  - apply ceil_div_le; [done|].
    assert (m - s <= ceil_div (m - s) s * s) by by apply ceil_div_le.
    lia.
  - assert (Hle : ceil_div (m - s) s <= ceil_div m s - 1).
    { apply ceil_div_le; [done|].
      assert (m <= ceil_div m s * s) by by apply ceil_div_le.
      pose proof (ceil_div_pos m s Hs Hm). nia. }
    pose proof (ceil_div_pos m s Hs Hm). lia.
Qed.

(** The indices the sampling loop visits. *)
Fixpoint loop_indices (fuel i step n : nat) : list nat :=
  match fuel with
  | O => []
  | S fuel' =>
      if Nat.ltb i n then i :: loop_indices fuel' (i + step) step n else []
  end.

Definition pick (data : ChartData) (acc : SensorData) (idx : list nat)
  : SensorData :=
  mkSensorData
    (sd_points acc ++ ((fun i => nth i (points data) JUndefined) <$> idx))
    (sd_values acc ++ ((fun i => nth i (values data) JUndefined) <$> idx))
    (sd_timestamps acc ++ ((fun i => nth i (timestamps data) JUndefined) <$> idx)).

Lemma sample_loop_pick fuel i step data acc :
  sample_loop fuel i step data acc
  = pick data acc (loop_indices fuel i step (length (points data))).
Proof.
  revert i acc. induction fuel as [|fuel IH]; intros i acc; simpl.
  - unfold pick. simpl. rewrite !app_nil_r. by destruct acc.
  - destruct (Nat.ltb i (length (points data))).
    + rewrite IH. unfold pick. simpl. by rewrite <- !app_assoc.
    + unfold pick. simpl. rewrite !app_nil_r. by destruct acc.
Qed.

(** With enough fuel the loop visits [i], [i + step], ... below [n]. *)
Lemma loop_indices_multiples fuel i step n :
  0 < step -> n - i <= fuel ->
  loop_indices fuel i step n
  = (fun k => i + k * step) <$> seq 0 (ceil_div (n - i) step).
Proof.
  intros Hs. revert i. induction fuel as [|fuel IH]; intros i Hf; simpl.
  - replace (n - i) with 0 by lia. by rewrite ceil_div_0.
  - destruct (Nat.ltb_spec i n) as [Hlt|Hge].
    + rewrite (ceil_div_step (n - i) step) by lia. simpl.
      rewrite Nat.add_0_r. f_equal.
      rewrite IH by lia.
      replace (n - (i + step)) with (n - i - step) by lia.
      rewrite <- seq_shift, <- list_fmap_compose.
      apply list_fmap_ext. intros _ k _. simpl. lia.
    + replace (n - i) with 0 by lia. by rewrite ceil_div_0.
Qed.

Lemma multiples_ascending s a c :
  0 < s -> StronglySorted lt ((fun k => k * s) <$> seq a c).
Proof.
  intros Hs. revert a. induction c as [|c IH]; intros a; simpl; constructor.
  - apply IH.
  - apply Forall_fmap, Forall_seq. intros k Hk. simpl. nia.
Qed.

Lemma multiples_below n s :
  0 < s -> Forall (fun i => i < n) ((fun k => k * s) <$> seq 0 (ceil_div n s)).
Proof.
  intros Hs. apply Forall_fmap, Forall_seq. intros k Hk. simpl.
  assert (~ ceil_div n s <= ceil_div n s - 1) as Hc by lia.
  rewrite ceil_div_le in Hc by done. nia.
Qed.

Definition series_chart : ChartData :=
  mkChart
    [JObj [("x", JNum 1); ("y", JNum 10)]; JObj [("x", JNum 2); ("y", JNum 20)];
     JObj [("x", JNum 3); ("y", JNum 30)]; JObj [("x", JNum 4); ("y", JNum 40)];
     JObj [("x", JNum 5); ("y", JNum 50)]]
    [JNum 10; JNum 20; JNum 30; JNum 40; JNum 50]
    [JNum 1; JNum 2; JNum 3; JNum 4; JNum 5]
    (mkStats (JNum 10) (JNum 50) (JNum 30) 5)
    None (Some "1h") (Some "co2").

(** C9: for [maxPoints >= 1], a series of at most [maxPoints] entries is
    returned unchanged; a longer one is reduced to the entries at the
    indices 0, s, 2s, ... below its length, with [s = ceil(n /
    maxPoints)], in their original order and at most [maxPoints] of
    them; [stats] is the one of the full series in both cases. *)
Theorem downsample_every_step (data : ChartData) (maxPoints : nat)
  (Hm : 1 <= maxPoints) :
  let n := length (points data) in
  let s := ceil_div n maxPoints in
  let idx := (fun k => k * s) <$> seq 0 (ceil_div n s) in
  (n <= maxPoints -> downsample data maxPoints = data)
  /\ (maxPoints < n ->
       1 <= s
       /\ points (downsample data maxPoints)
          = (fun i => nth i (points data) JUndefined) <$> idx
       /\ values (downsample data maxPoints)
          = (fun i => nth i (values data) JUndefined) <$> idx
       /\ timestamps (downsample data maxPoints)
          = (fun i => nth i (timestamps data) JUndefined) <$> idx
       /\ length idx <= maxPoints
       /\ Forall (fun i => i < n) idx
       /\ StronglySorted lt idx)
  /\ stats (downsample data maxPoints) = stats data.
Proof.
  intros n s idx. split_and!.
  - intros Hle. unfold downsample. fold n.
    by destruct (Nat.leb_spec n maxPoints); [|lia].
  - intros Hlt.
    assert (Hs : 0 < s) by (apply ceil_div_pos; lia).
    assert (Hdown :
      downsample data maxPoints
      = mkChart ((fun i => nth i (points data) JUndefined) <$> idx)
                ((fun i => nth i (values data) JUndefined) <$> idx)
                ((fun i => nth i (timestamps data) JUndefined) <$> idx)
                (stats data) (isEmpty data) (timeRange data) (sensor data)).
    { unfold downsample. fold n.
      destruct (Nat.leb_spec n maxPoints); [lia|].
      destruct maxPoints as [|m]; [lia|].
      rewrite sample_loop_pick. fold n.
      rewrite loop_indices_multiples by (fold s; lia).
      rewrite Nat.sub_0_r. fold s. by simpl. }
    rewrite Hdown. simpl. split_and!; try done.
    + unfold idx. rewrite length_fmap, length_seq.
      apply ceil_div_le; [done|].
      assert (n <= s * maxPoints) by (apply ceil_div_le; [lia|done]). lia.
    + by apply multiples_below.
    + by apply multiples_ascending.
  - unfold downsample. by destruct (Nat.leb _ _).
Qed.

Lemma downsample_every_step_witness :
  points (downsample series_chart 2)
  = [JObj [("x", JNum 1); ("y", JNum 10)]; JObj [("x", JNum 4); ("y", JNum 40)]]
  /\ stats (downsample series_chart 2) = stats series_chart.
Proof.
  assert (H2 : 1 <= 2) by lia.
  destruct (downsample_every_step series_chart 2 H2) as (_ & Hlong & Hstats).
  destruct Hlong as (_ & Hp & _); [simpl; lia|].
  split; [by rewrite Hp | exact Hstats].
Defined.

(** *** The cache *)

(** What a call that misses the cache computes from the store; [None]
    when nothing is cached: the storage is closed, no reading lies in
    the window, the query is rejected, or the statistics throw. *)
Definition computed (rt : Runtime) (sm : StorageManager)
  (sensor timeRange : string) (now : Z) : option ChartData :=
  match db sm with
  | None => None
  | Some _ =>
      match getReadingsLastHours sm (lookup_hours timeRange) now with
      | Throw _ => None
      | Ret readings =>
          if Nat.eqb (length readings) 0 then None
          else
            match extractSensorData readings sensor with
            | Throw _ => None
            | Ret data =>
                match calculateStats rt (sd_values data) with
                | Throw _ => None
                | Ret st =>
                    Some (mkChart (sd_points data) (sd_values data)
                                  (sd_timestamps data) st None
                                  (Some timeRange) (Some sensor))
                end
            end
      end
  end.

Lemma getChartData_miss rt tm sm sensor timeRange now c :
  cache_hit tm (cacheKey sensor timeRange) now = None ->
  computed rt sm sensor timeRange now = Some c ->
  getChartData rt tm sm sensor timeRange now
  = (cache_store tm (cacheKey sensor timeRange) c now, Ret (nextObject tm, c)).
Proof.
  unfold getChartData, computed. intros -> Hc.
  destruct (db sm); [|discriminate].
  destruct (getReadingsLastHours _ _ _) as [readings|]; [|discriminate].
  destruct (Nat.eqb _ _); [discriminate|].
  destruct (extractSensorData _ _); [|discriminate].
  destruct (calculateStats _ _); [|discriminate].
  by injection Hc as <-.
Qed.

Lemma getChartData_hit rt tm sm sensor timeRange now r :
  cache_hit tm (cacheKey sensor timeRange) now = Some r ->
  getChartData rt tm sm sensor timeRange now = (tm, Ret r).
Proof. unfold getChartData. by intros ->. Qed.

Lemma cache_hit_after_store tm k c t1 t2 :
  k <> "__proto__"%string ->
  cache_hit (cache_store tm k c t1) k t2
  = if Z.ltb (t2 - t1) (cacheExpiry tm) then Some (nextObject tm, c) else None.
Proof.
  intros Hk. apply String.eqb_neq in Hk.
  unfold cache_hit, cache_store. rewrite Hk. simpl.
  by rewrite !lookup_insert_eq.
Qed.

(** *** Statistics *)

Lemma number_of_value rt x : number_of rt (number_value x) = x.
Proof. by destruct x. Qed.

Lemma converts_number x : converts (number_value x) = true.
Proof. by destruct x. Qed.

Lemma stringy_number x : stringy (number_value x) = false.
Proof. by destruct x. Qed.

Lemma binary64_not_nan q : Double.binary64 q <> NaN.
Proof. unfold Double.binary64. cbv zeta. repeat case_match; discriminate. Qed.

Lemma add_not_nan a x : a <> NaN -> Double.add a (Finite x) <> NaN.
Proof. destruct a; [intros _; apply binary64_not_nan | discriminate | done]. Qed.

(** A stat of a series of numbers: an infinity, or the double nearest
    to a number of hundredths. *)
Definition hundredth (v : JSValue) : Prop :=
  (exists s, v = JInf s) \/ exists k : Z, v = json_number (inject_Z k / 100).

Lemma round2_hundredth x : x <> NaN -> hundredth (number_value (round2 x)).
Proof.
  intros Hx. unfold round2.
  assert (Hmul : exists y, Double.mul x (Finite 100) = y /\ y <> NaN).
  { destruct x as [q|s|]; [| |done]; eexists; (split; [reflexivity|]).
    - apply binary64_not_nan.
    - discriminate. }
  destruct Hmul as (y & -> & Hy).
  destruct y as [q|s|]; [| |done].
  - right. by exists (Qfloor (q + (1 # 2))).
  - left. by eexists.
Qed.

(** The running sum of [reduce] over numbers, and the mean. *)
Definition sum_doubles (qs : list Q) (acc : Number) : Number :=
  fold_left (fun a x => Double.add a (Finite x)) qs acc.

Definition mean_doubles (qs : list Q) : Number :=
  Double.div (sum_doubles qs (Finite 0))
             (Finite (inject_Z (Z.of_nat (length qs)))).

Lemma sum_doubles_not_nan qs acc : acc <> NaN -> sum_doubles qs acc <> NaN.
Proof.
  revert acc. induction qs as [|q qs IH]; intros acc Ha; [done|].
  apply IH. by apply add_not_nan.
Qed.

Lemma mean_doubles_not_nan q qs : mean_doubles (q :: qs) <> NaN.
Proof.
  unfold mean_doubles.
  pose proof (sum_doubles_not_nan (q :: qs) (Finite 0)) as Hs.
  destruct (sum_doubles (q :: qs) (Finite 0)) as [x|s|];
    [|discriminate|by destruct Hs].
  unfold Double.div.
  assert (Double.is_zero (inject_Z (Z.of_nat (length (q :: qs)))) = false) as ->
    by (unfold Double.is_zero; simpl Qnum; apply Z.eqb_neq; simpl length; lia).
  apply binary64_not_nan.
Qed.

Section Stats.
Context (rt : Runtime).

Lemma js_add_returns a b :
  converts a = true ->
  match js_add rt a b with
  | Ret sum => converts b = true /\ converts sum = true
  | Throw e => converts b = false /\ e = not_primitive
  end.
Proof.
  intros Ha. unfold js_add. rewrite Ha. simpl.
  destruct (converts b); [|done]. split; [done|].
  destruct (stringy a || stringy b); [done | apply converts_number].
Qed.

Lemma reduce_add_returns vs acc :
  converts acc = true ->
  match reduce_add rt vs acc with
  | Ret sum => forallb converts vs = true /\ converts sum = true
  | Throw e => forallb converts vs = false /\ e = not_primitive
  end.
Proof.
  revert acc. induction vs as [|v vs IH]; intros acc Ha; [done|].
  cbn [reduce_add forallb].
  pose proof (js_add_returns acc v Ha) as Hadd.
  destruct (js_add rt acc v) as [sum|e]; cbn [mbind exc_bind JS.bind].
  - destruct Hadd as [-> Hsum]. apply (IH sum Hsum).
  - by destruct Hadd as [-> ->].
Qed.

Lemma to_numbers_returns vs :
  match to_numbers rt vs with
  | Ret xs => forallb converts vs = true /\ xs = number_of rt <$> vs
  | Throw e => forallb converts vs = false /\ e = not_primitive
  end.
Proof.
  induction vs as [|v vs IH]; [done|]. cbn [to_numbers forallb].
  unfold to_number. destruct (converts v); [|done].
  cbn [mbind exc_bind JS.bind andb].
  destruct (to_numbers rt vs) as [xs|e]; cbn [mbind mret exc_bind exc_ret JS.bind].
  - destruct IH as [-> ->]. done.
  - done.
Qed.

(** [calculateStats] returns exactly when every value converts. *)
Lemma calculateStats_returns vs :
  match calculateStats rt vs with
  | Ret st => forallb converts vs = true /\ stat_count st = length vs
  | Throw e => forallb converts vs = false /\ e = not_primitive
  end.
Proof.
  unfold calculateStats. destruct vs as [|v vs]; [done|].
  cbn [length Nat.eqb].
  pose proof (reduce_add_returns (v :: vs) (JNum 0) eq_refl) as Hsum.
  destruct (reduce_add rt (v :: vs) (JNum 0)) as [sum|e];
    cbn [mbind exc_bind JS.bind]; [|done].
  destruct Hsum as [Hall _]. unfold math_min, math_max.
  pose proof (to_numbers_returns (v :: vs)) as Hnum.
  destruct (to_numbers rt (v :: vs)) as [xs|e];
    cbn [mbind mret exc_bind exc_ret JS.bind]; [done|].
  destruct Hnum as [Hno _]. congruence.
Qed.

Lemma calculateStats_empty : calculateStats rt [] = Ret (mkStats JNull JNull JNull 0).
Proof. reflexivity. Qed.

(** On numbers the sum is the running sum of doubles and the two
    extremes are those of the rationals. *)
Lemma sum_numbers qs acc :
  reduce_add rt (JNum <$> qs) (number_value acc)
  = Ret (number_value (sum_doubles qs acc)).
Proof.
  revert acc. induction qs as [|q qs IH]; intros acc; [done|].
  rewrite fmap_cons. cbn [reduce_add]. unfold js_add.
  rewrite converts_number, stringy_number, number_of_value.
  cbn [converts stringy andb orb number_of mbind exc_bind JS.bind].
  apply IH.
Qed.

Lemma to_numbers_numbers qs : to_numbers rt (JNum <$> qs) = Ret (Finite <$> qs).
Proof.
  induction qs as [|q qs IH]; [done|]. rewrite fmap_cons. cbn [to_numbers].
  unfold to_number. cbn [converts number_of mbind exc_bind JS.bind].
  by rewrite IH.
Qed.

Lemma min_numbers qs acc :
  fold_left Double.min (Finite <$> qs) (Finite acc) = Finite (fold_left Qmin qs acc).
Proof. revert acc. induction qs as [|q qs IH]; intros acc; simpl; [done|apply IH]. Qed.

Lemma max_numbers qs acc :
  fold_left Double.max (Finite <$> qs) (Finite acc) = Finite (fold_left Qmax qs acc).
Proof. revert acc. induction qs as [|q qs IH]; intros acc; simpl; [done|apply IH]. Qed.

(** The stats of a series of numbers: [Math.round(x * 100) / 100] of
    its least element, of its greatest element (see [fold_min_least],
    [fold_max_greatest]) and of its sum of doubles over its length. *)
Lemma calculateStats_numbers q qs :
  calculateStats rt (JNum <$> q :: qs)
  = Ret (mkStats (number_value (round2 (Finite (fold_left Qmin qs q))))
                 (number_value (round2 (Finite (fold_left Qmax qs q))))
                 (number_value (round2 (mean_doubles (q :: qs))))
                 (length (q :: qs))).
Proof.
  unfold calculateStats. rewrite length_fmap. cbn [length Nat.eqb].
  change (JNum 0) with (number_value (Finite 0)).
  rewrite sum_numbers. cbn [mbind exc_bind JS.bind].
  unfold math_min, math_max. rewrite to_numbers_numbers.
  cbn [mbind mret exc_bind exc_ret JS.bind].
  rewrite fmap_cons. cbn [fold_left Double.min Double.max].
  rewrite min_numbers, max_numbers, number_of_value. reflexivity.
Qed.

Lemma numbers_hundredth q qs :
  hundredth (number_value (round2 (Finite (fold_left Qmin qs q))))
  /\ hundredth (number_value (round2 (Finite (fold_left Qmax qs q))))
  /\ hundredth (number_value (round2 (mean_doubles (q :: qs)))).
Proof.
  split_and!; apply round2_hundredth; try discriminate.
  apply mean_doubles_not_nan.
Qed.

End Stats.

Lemma fold_min_least qs q :
  (exists x, x ∈ q :: qs /\ (x == fold_left Qmin qs q)%Q)
  /\ forall x, x ∈ q :: qs -> (fold_left Qmin qs q <= x)%Q.
Proof.
  revert q. induction qs as [|a qs IH]; intros q; simpl.
  - split.
    + exists q. split; [by left | reflexivity].
    + intros x Hx. apply list_elem_of_singleton in Hx as ->. apply Qle_refl.
  - destruct (IH (Qmin q a)) as [(x & Hx & Heq) Hlow]. split.
    + apply elem_of_cons in Hx as [->|Hx].
      * destruct (Q.min_spec q a) as [[_ Hm]|[_ Hm]].
        -- exists q. split; [by left|]. by rewrite <- Heq, Hm.
        -- exists a. split; [right; by left|]. by rewrite <- Heq, Hm.
      * exists x. split; [|done]. right. by right.
    + intros y Hy.
      assert (Hmin : (fold_left Qmin qs (Qmin q a) <= Qmin q a)%Q)
        by (apply Hlow; by left).
      apply elem_of_cons in Hy as [->|Hy].
      * eapply Qle_trans; [exact Hmin | apply Q.le_min_l].
      * apply elem_of_cons in Hy as [->|Hy].
        -- eapply Qle_trans; [exact Hmin | apply Q.le_min_r].
        -- apply Hlow. by right.
Qed.

Lemma fold_max_greatest qs q :
  (exists x, x ∈ q :: qs /\ (x == fold_left Qmax qs q)%Q)
  /\ forall x, x ∈ q :: qs -> (x <= fold_left Qmax qs q)%Q.
Proof.
  revert q. induction qs as [|a qs IH]; intros q; simpl.
  - split.
    + exists q. split; [by left | reflexivity].
    + intros x Hx. apply list_elem_of_singleton in Hx as ->. apply Qle_refl.
  - destruct (IH (Qmax q a)) as [(x & Hx & Heq) Hup]. split.
    + apply elem_of_cons in Hx as [->|Hx].
      * destruct (Q.max_spec q a) as [[_ Hm]|[_ Hm]].
        -- exists a. split; [right; by left|]. by rewrite <- Heq, Hm.
        -- exists q. split; [by left|]. by rewrite <- Heq, Hm.
      * exists x. split; [|done]. right. by right.
    + intros y Hy.
      assert (Hmax : (Qmax q a <= fold_left Qmax qs (Qmax q a))%Q)
        by (apply Hup; by left).
      apply elem_of_cons in Hy as [->|Hy].
      * eapply Qle_trans; [apply Q.le_max_l | exact Hmax].
      * apply elem_of_cons in Hy as [->|Hy].
        -- eapply Qle_trans; [apply Q.le_max_r | exact Hmax].
        -- apply Hup. by right.
Qed.

(** *** Extraction *)

Definition aligned (d : SensorData) : Prop :=
  length (sd_points d) = length (sd_values d)
  /\ length (sd_timestamps d) = length (sd_values d).

Lemma sensor_value_returns reading sensor :
  nullish reading = false -> exists v, sensor_value reading sensor = Ret v.
Proof.
  intros Hr. unfold sensor_value.
  repeat (destruct (String.eqb sensor _);
          [rewrite AlertsProps.bind_get, Hr; by eexists|]).
  by eexists.
Qed.

(** Stored readings are objects: the extraction never throws, and it
    appends to the three series in step. *)
Lemma extract_loop_returns readings sensor acc :
  Forall (fun r => nullish r = false) readings -> aligned acc ->
  exists data, extract_loop readings sensor acc = Ret data /\ aligned data.
Proof.
  intros Hall. revert acc.
  induction Hall as [|reading readings Hr _ IH]; intros acc Hacc; simpl.
  - by exists acc.
  - destruct (sensor_value_returns reading sensor Hr) as [v ->]. simpl.
    destruct (negb (is_null v) && negb (is_undefined v)); [|by apply IH].
    rewrite AlertsProps.bind_get, Hr. apply IH.
    destruct Hacc as [H1 H2]. unfold aligned. simpl.
    rewrite !length_app. simpl. lia.
Qed.

Lemma getReadings_objects sm a b readings :
  getReadings sm a b = Ret readings ->
  Forall (fun r => nullish r = false) readings.
Proof.
  unfold getReadings. destruct (db sm); [|discriminate].
  intros [= <-]. by apply Forall_fmap, Forall_true.
Qed.

(** A chart whose stats are those of its full series. *)
Definition well_formed (rt : Runtime) (c : ChartData) : Prop :=
  calculateStats rt (values c) = Ret (stats c)
  /\ length (points c) = length (values c)
  /\ length (timestamps c) = length (values c).

Definition cache_ok (rt : Runtime) (tm : TrendsManager) : Prop :=
  forall k r, cachedData tm !! k = Some r ->
    well_formed rt (snd r) /\ isEmpty (snd r) = None.

Lemma initial_cache_ok rt : cache_ok rt Trends.initial.
Proof. intros k r Hk. unfold Trends.initial in Hk. simpl in Hk. by rewrite lookup_empty in Hk. Qed.

Lemma computed_well_formed rt sm sensor timeRange now c :
  computed rt sm sensor timeRange now = Some c ->
  well_formed rt c /\ isEmpty c = None
  /\ Trends.timeRange c = Some timeRange /\ Trends.sensor c = Some sensor.
Proof.
  unfold computed. destruct (db sm); [|discriminate].
  destruct (getReadingsLastHours _ _ _) as [readings|] eqn:Hq; [|discriminate].
  destruct (Nat.eqb _ _); [discriminate|].
  assert (Hobj : Forall (fun r => nullish r = false) readings).
  { unfold getReadingsLastHours in Hq.
    destruct (lookup_hours timeRange); [by eapply getReadings_objects|].
    by destruct (db sm). }
  destruct (extract_loop_returns readings sensor (mkSensorData [] [] []) Hobj)
    as (data & Hdata & Hal1 & Hal2); [done|].
  unfold extractSensorData. rewrite Hdata.
  destruct (calculateStats rt (sd_values data)) as [st|] eqn:Hst; [|discriminate].
  intros [= <-]. by split_and!.
Qed.

Lemma lookup_hours_number timeRange :
  inherited_name timeRange = false -> is_Some (lookup_hours timeRange).
Proof.
  intros Htr. unfold lookup_hours. destruct (List.find _ _); [by eexists|].
  rewrite Htr. by eexists.
Qed.

Lemma computed_hours rt sm sensor timeRange now c :
  computed rt sm sensor timeRange now = Some c -> is_Some (lookup_hours timeRange).
Proof.
  unfold computed, getReadingsLastHours. destruct (db sm); [|discriminate].
  destruct (lookup_hours timeRange); [by eexists | discriminate].
Qed.

(** The series a call that misses the cache extracts from the store;
    [None] when the storage is closed, no reading lies in the window or
    the query is rejected. *)
Definition extracted (sm : StorageManager) (sensor timeRange : string) (now : Z)
  : option SensorData :=
  match db sm with
  | None => None
  | Some _ =>
      match getReadingsLastHours sm (lookup_hours timeRange) now with
      | Throw _ => None
      | Ret readings =>
          if Nat.eqb (length readings) 0 then None
          else
            match extractSensorData readings sensor with
            | Throw _ => None
            | Ret data => Some data
            end
      end
  end.

(** Without a cached result and with nothing computed, the call returns
    a new [getEmptyData()] object, or it rejects with the TypeError of a
    value in the series that does not convert; it caches nothing. *)
Lemma getChartData_nothing rt tm sm sensor timeRange now :
  is_Some (lookup_hours timeRange) ->
  cache_hit tm (cacheKey sensor timeRange) now = None ->
  computed rt sm sensor timeRange now = None ->
  (extracted sm sensor timeRange now = None
   /\ getChartData rt tm sm sensor timeRange now = fresh_empty tm)
  \/ (exists data,
        extracted sm sensor timeRange now = Some data
        /\ forallb converts (sd_values data) = false
        /\ getChartData rt tm sm sensor timeRange now = (tm, Throw not_primitive)).
Proof.
  intros [h Hh] Hmiss. unfold getChartData, computed, extracted. rewrite Hmiss.
  destruct (db sm) eqn:Hd; [|by left].
  rewrite Hh. unfold getReadingsLastHours, getReadings. rewrite Hd.
  destruct (Nat.eqb _ _); [by left|].
  match goal with |- context [extractSensorData ?l _] =>
    destruct (extract_loop_returns l sensor (mkSensorData [] [] [])) as (data & Hdata & _)
  end; [by apply Forall_fmap, Forall_true | done |].
  unfold extractSensorData. rewrite Hdata.
  pose proof (calculateStats_returns rt (sd_values data)) as Hst.
  destruct (calculateStats rt (sd_values data)) as [st|e]; [discriminate|].
  intros _. right. destruct Hst as [Hno ->]. by exists data.
Qed.

(** What is computed is the chart of what is extracted. *)
Lemma computed_extracted rt sm sensor timeRange now :
  computed rt sm sensor timeRange now
  = match extracted sm sensor timeRange now with
    | None => None
    | Some data =>
        match calculateStats rt (sd_values data) with
        | Throw _ => None
        | Ret st => Some (mkChart (sd_points data) (sd_values data)
                                  (sd_timestamps data) st None
                                  (Some timeRange) (Some sensor))
        end
    end.
Proof.
  unfold computed, extracted. destruct (db sm); [|done].
  destruct (getReadingsLastHours _ _ _) as [readings|]; [|done].
  destruct (Nat.eqb _ _); [done|].
  by destruct (extractSensorData readings sensor).
Qed.

(** C8 (as the code has it): once a call has computed a result from at
    least one reading and cached it, a call with the same arguments
    less than [cacheExpiry] later returns that same object, whatever
    was written to the store in between; a call [cacheExpiry] or more
    later computes a new object from the store, or returns a new
    [getEmptyData()] object when the store has nothing for it, or
    rejects with the TypeError of a value in the series that does not
    convert to a primitive; an empty result and a rejection are not
    cached. *)
Theorem getChartData_cached_within_ttl
  (rt : Runtime) (tm : TrendsManager) (sm : StorageManager)
  (sensor timeRange : string) (t1 : Z) (c : ChartData)
  (Hkey : cacheKey sensor timeRange <> "__proto__"%string)
  (Hmiss : cache_hit tm (cacheKey sensor timeRange) t1 = None)
  (Hcomputed : computed rt sm sensor timeRange t1 = Some c) :
  let first := getChartData rt tm sm sensor timeRange t1 in
  let tm1 := fst first in
  snd first = Ret (nextObject tm, c)
  /\ (forall sm' t2, (t2 - t1 < cacheExpiry tm)%Z ->
        getChartData rt tm1 sm' sensor timeRange t2
        = (tm1, Ret (nextObject tm, c)))
  /\ (forall sm' t3 c', (cacheExpiry tm <= t3 - t1)%Z ->
        computed rt sm' sensor timeRange t3 = Some c' ->
        getChartData rt tm1 sm' sensor timeRange t3
        = (cache_store tm1 (cacheKey sensor timeRange) c' t3,
           Ret (S (nextObject tm), c')))
  /\ (forall sm' t3, (cacheExpiry tm <= t3 - t1)%Z ->
        extracted sm' sensor timeRange t3 = None ->
        getChartData rt tm1 sm' sensor timeRange t3 = fresh_empty tm1)
  /\ (forall sm' t3 data, (cacheExpiry tm <= t3 - t1)%Z ->
        extracted sm' sensor timeRange t3 = Some data ->
        forallb converts (sd_values data) = false ->
        getChartData rt tm1 sm' sensor timeRange t3
        = (tm1, Throw not_primitive)).
Proof.
  cbv zeta. rewrite (getChartData_miss _ _ _ _ _ _ _ Hmiss Hcomputed). simpl.
  assert (Hexpired : forall t3, (cacheExpiry tm <= t3 - t1)%Z ->
    cache_hit (cache_store tm (cacheKey sensor timeRange) c t1)
              (cacheKey sensor timeRange) t3 = None).
  { intros t3 Ht. rewrite cache_hit_after_store by done.
    by destruct (Z.ltb_spec (t3 - t1) (cacheExpiry tm)); [lia|]. }
  split_and!; [done| | | |].
  - intros sm' t2 Ht. apply getChartData_hit.
    rewrite cache_hit_after_store by done.
    by destruct (Z.ltb_spec (t2 - t1) (cacheExpiry tm)); [|lia].
  - intros sm' t3 c' Ht Hc'.
    rewrite (getChartData_miss _ _ _ _ _ _ c'); [|by apply Hexpired|done].
    f_equal. f_equal. f_equal.
    unfold cache_store. by destruct (String.eqb _ _).
  - intros sm' t3 Ht Hnone.
    destruct (getChartData_nothing rt
                (cache_store tm (cacheKey sensor timeRange) c t1)
                sm' sensor timeRange t3) as [[_ H]|(data & Hex & _)];
      [by eapply computed_hours | by apply Hexpired
      | by rewrite computed_extracted, Hnone | done | congruence].
  - intros sm' t3 data Ht Hdata Hno.
    pose proof (calculateStats_returns rt (sd_values data)) as Hst.
    destruct (getChartData_nothing rt
                (cache_store tm (cacheKey sensor timeRange) c t1)
                sm' sensor timeRange t3) as [[Hex _]|(data' & _ & _ & H)];
      [by eapply computed_hours | by apply Hexpired | | congruence | done].
    rewrite computed_extracted, Hdata.
    destruct (calculateStats rt (sd_values data)); [|done].
    destruct Hst as [Hall _]. congruence.
Qed.

Lemma cache_ok_store rt tm k c now :
  cache_ok rt tm -> well_formed rt c -> isEmpty c = None ->
  cache_ok rt (cache_store tm k c now).
Proof.
  intros Hok Hc He k' r. unfold cache_store.
  destruct (String.eqb k "__proto__"); simpl; [apply Hok|].
  destruct (decide (k = k')) as [->|Hne].
  - rewrite lookup_insert_eq. by intros [= <-].
  - rewrite lookup_insert_ne by done. apply Hok.
Qed.

Lemma cache_hit_cached tm k now r :
  cache_hit tm k now = Some r -> cachedData tm !! k = Some r.
Proof.
  unfold cache_hit. destruct (String.eqb _ _); [discriminate|].
  destruct (cachedData tm !! k); [|discriminate].
  destruct (lastCacheTime tm !! k); [|discriminate].
  by destruct (Z.ltb _ _).
Qed.

(** What the stats of a chart are, given its values. *)
Definition stats_of_values (rt : Runtime) (c : ChartData) : Prop :=
  stat_count (stats c) = length (values c)
  /\ length (timestamps c) = length (values c)
  /\ forallb converts (values c) = true
  /\ calculateStats rt (values c) = Ret (stats c)
  /\ (forall q qs, values c = JNum <$> q :: qs ->
        stats c
        = mkStats (number_value (round2 (Finite (fold_left Qmin qs q))))
                  (number_value (round2 (Finite (fold_left Qmax qs q))))
                  (number_value (round2 (mean_doubles (q :: qs))))
                  (length (q :: qs))
        /\ hundredth (stat_min (stats c))
        /\ hundredth (stat_max (stats c))
        /\ hundredth (stat_avg (stats c)))
  /\ (values c = [] -> stats c = mkStats JNull JNull JNull 0).

Lemma well_formed_stats rt c : well_formed rt c -> stats_of_values rt c.
Proof.
  intros (Hst & _ & Hts).
  pose proof (calculateStats_returns rt (values c)) as Hret.
  rewrite Hst in Hret. destruct Hret as [Hall Hcount].
  split_and!; try done.
  - intros q qs Hv. rewrite Hv, calculateStats_numbers in Hst.
    injection Hst as <-. split; [done|]. apply numbers_hundredth.
  - intros Hv. rewrite Hv in Hst. by injection Hst as <-.
Qed.

(** C7 (as the code has it): for a [timeRange] that is not the name of
    an inherited object member, [getChartData] rejects with a TypeError
    when it has to compute the stats of a series in which a value does
    not convert to a primitive, and otherwise returns a chart whose
    [stats] are those [calculateStats] gives for its values and whose
    [stats.count] is the number of extracted values; when the values
    are finite numbers, [min], [max] and [avg] are
    [Math.round(x * 100) / 100], in double arithmetic, of the least
    value, of the greatest value and of the sum of doubles over the
    count, each an infinity or the double nearest to a number of
    hundredths; with no values they are [null] and the count is 0.  [isEmpty] is [true] on the [getEmptyData()]
    object, returned when the storage is closed or no reading lies in
    the window; a result computed from readings has no [isEmpty]
    property, also when no reading carries the sensor's value. *)
Theorem getChartData_stats
  (rt : Runtime) (tm : TrendsManager) (sm : StorageManager)
  (sensor timeRange : string) (now : Z)
  (Hcache : cache_ok rt tm)
  (Htr : inherited_name timeRange = false) :
  (exists data,
     cache_hit tm (cacheKey sensor timeRange) now = None
     /\ extracted sm sensor timeRange now = Some data
     /\ forallb converts (sd_values data) = false
     /\ getChartData rt tm sm sensor timeRange now = (tm, Throw not_primitive))
  \/ exists tm' obj c,
    getChartData rt tm sm sensor timeRange now = (tm', Ret (obj, c))
    /\ cache_ok rt tm'
    /\ stat_count (stats c) = length (values c)
    /\ length (timestamps c) = length (values c)
    /\ forallb converts (values c) = true
    /\ calculateStats rt (values c) = Ret (stats c)
    /\ (forall q qs, values c = JNum <$> q :: qs ->
          stats c
          = mkStats (number_value (round2 (Finite (fold_left Qmin qs q))))
                    (number_value (round2 (Finite (fold_left Qmax qs q))))
                    (number_value (round2 (mean_doubles (q :: qs))))
                    (length (q :: qs))
          /\ hundredth (stat_min (stats c))
          /\ hundredth (stat_max (stats c))
          /\ hundredth (stat_avg (stats c)))
    /\ (values c = [] -> stats c = mkStats JNull JNull JNull 0)
    /\ (cache_hit tm (cacheKey sensor timeRange) now = None ->
        computed rt sm sensor timeRange now = None ->
        c = getEmptyData /\ isEmpty c = Some true)
    /\ (cache_hit tm (cacheKey sensor timeRange) now = None ->
        forall c0, computed rt sm sensor timeRange now = Some c0 ->
        c = c0 /\ isEmpty c = None).
Proof.
  destruct (cache_hit tm (cacheKey sensor timeRange) now) as [[obj c]|] eqn:Hhit.
  - right. exists tm, obj, c.
    rewrite (getChartData_hit _ _ _ _ _ _ _ Hhit).
    destruct (Hcache _ _ (cache_hit_cached _ _ _ _ Hhit)) as [Hwf _].
    destruct (well_formed_stats rt c Hwf) as (? & ? & ? & ? & ? & ?).
    by split_and!.
  - destruct (computed rt sm sensor timeRange now) as [c|] eqn:Hc.
    + right. destruct (computed_well_formed _ _ _ _ _ _ Hc) as (Hwf & He & _).
      eexists _, _, c.
      rewrite (getChartData_miss _ _ _ _ _ _ _ Hhit Hc).
      destruct (well_formed_stats rt c Hwf) as (? & ? & ? & ? & ? & ?).
      split_and!; try done.
      * by apply cache_ok_store.
      * by intros _ c0 [= <-].
    + destruct (getChartData_nothing rt tm sm sensor timeRange now
                  (lookup_hours_number _ Htr) Hhit Hc)
        as [[_ Hget]|(data & Hex & Hno & Hget)].
      * right. eexists _, _, getEmptyData. rewrite Hget.
        split_and!; try done.
      * left. by exists data.
Qed.

(** *** Scenarios *)

(** The store after one poll: the payload normalized and saved at
    [now]. *)
Definition store_after_poll (payload : JSValue) (now : Z) : StorageManager :=
  match Normalizer.normalizeReading payload now with
  | Ret reading => fst (saveReading IOSuccess Storage.initial reading now)
  | Throw _ => Storage.initial
  end.

Definition co2_payload : JSValue :=
  JObj [("environment", JObj [("co2", JNum 800)])].

Definition plain_runtime : Runtime := mkRuntime (fun _ => NaN) (fun _ => "").

(** One reading is stored, without a respiration value: the chart of
    [respiration] has no values, null stats, and no [isEmpty]. *)
Lemma getChartData_no_values_not_flagged :
  exists tm' obj c,
    getChartData plain_runtime Trends.initial
      (store_after_poll (JObj []) 1700000000000)
      "respiration" "1h" 1700000001000
    = (tm', Ret (obj, c))
    /\ values c = []
    /\ stats c = mkStats JNull JNull JNull 0
    /\ isEmpty c = None.
Proof. vm_compute. do 3 eexists. split; [reflexivity|]. by split_and!. Qed.

Lemma getChartData_stats_witness :
  exists tm' obj c,
    getChartData plain_runtime Trends.initial
      (store_after_poll co2_payload 1700000000000) "co2" "1h" 1700000001000
    = (tm', Ret (obj, c))
    /\ stat_count (stats c) = length (values c)
    /\ forallb converts (values c) = true.
Proof.
  destruct (getChartData_stats plain_runtime Trends.initial
              (store_after_poll co2_payload 1700000000000) "co2" "1h"
              1700000001000 (initial_cache_ok plain_runtime) eq_refl)
    as [(data & _ & _ & _ & Hthrow)
       |(tm' & obj & c & Hget & _ & Hcount & _ & Hall & _)].
  - vm_compute in Hthrow. discriminate.
  - exists tm', obj, c. by split_and!.
Defined.

(** A stored value that is a string gives stats that are no numbers; a
    stored object with an own [toString] makes the call reject. *)
Definition text_payload : JSValue :=
  JObj [("respiration", JObj [("value", JStr "fast")])].

Definition object_payload : JSValue :=
  JObj [("respiration", JObj [("value", JObj [("toString", JNum 0)])])].

Lemma getChartData_of_wrong_types :
  (exists tm' obj c,
     getChartData plain_runtime Trends.initial
       (store_after_poll text_payload 1700000000000)
       "respiration" "1h" 1700000001000
     = (tm', Ret (obj, c))
     /\ stats c = mkStats JNaN JNaN JNaN 1)
  /\ getChartData plain_runtime Trends.initial
       (store_after_poll object_payload 1700000000000)
       "respiration" "1h" 1700000001000
     = (Trends.initial, Throw not_primitive).
Proof.
  split; [|vm_compute; reflexivity].
  do 3 eexists. split; [vm_compute; reflexivity|]. reflexivity.
Qed.

(** The rounding is that of doubles: of three readings of 0.175 the
    least is shown as 0.18 and the mean as 0.17, and 1.005 as 1. *)
Lemma calculateStats_rounds_doubles :
  calculateStats plain_runtime
    [json_number (175 # 1000); json_number (175 # 1000); json_number (175 # 1000)]
  = Ret (mkStats (json_number (18 # 100)) (json_number (18 # 100))
                 (json_number (17 # 100)) 3)
  /\ calculateStats plain_runtime [json_number (1005 # 1000)]
     = Ret (mkStats (JNum 1) (JNum 1) (JNum 1) 1).
Proof. split; vm_compute; reflexivity. Qed.

(** The first call finds the store empty and returns a
    [getEmptyData()] object; a reading arrives; the second call, ten
    seconds after the first, returns another object with one value. *)
Lemma getChartData_empty_not_cached :
  exists tm1 r1 tm2 r2,
    getChartData plain_runtime Trends.initial Storage.initial
      "co2" "1h" 1700000000000 = (tm1, Ret r1)
    /\ getChartData plain_runtime tm1
         (store_after_poll co2_payload 1700000005000)
         "co2" "1h" 1700000010000 = (tm2, Ret r2)
    /\ (1700000010000 - 1700000000000 < cacheExpiry Trends.initial)%Z
    /\ fst r1 <> fst r2
    /\ values (snd r1) = []
    /\ values (snd r2) = [JNum 800].
Proof.
  do 4 eexists.
  split; [vm_compute; reflexivity|].
  split; [vm_compute; reflexivity|].
  vm_compute. split_and!; done.
Qed.

Lemma getChartData_cached_within_ttl_witness :
  let sm := store_after_poll co2_payload 1700000000000 in
  let first := getChartData plain_runtime Trends.initial sm
                 "co2" "1h" 1700000001000 in
  getChartData plain_runtime (fst first) Storage.initial
    "co2" "1h" 1700000011000
  = (fst first, snd first).
Proof.
  cbv zeta.
  assert (Hc : exists c, computed plain_runtime
                 (store_after_poll co2_payload 1700000000000)
                 "co2" "1h" 1700000001000 = Some c)
    by (vm_compute; by eexists).
  destruct Hc as [c Hc].
  assert (Hkey : cacheKey "co2" "1h" <> "__proto__"%string) by discriminate.
  destruct (getChartData_cached_within_ttl plain_runtime Trends.initial
              (store_after_poll co2_payload 1700000000000) "co2" "1h"
              1700000001000 c Hkey eq_refl Hc) as (Hfirst & Hsecond & _).
  rewrite Hfirst. apply Hsecond. vm_compute. reflexivity.
Defined.

(** *** Statistics of a numeric series *)

Lemma fold_min_in qs q : fold_left Qmin qs q ∈ q :: qs.
Proof.
  revert q. induction qs as [|a qs IH]; intros q; simpl; [by left|].
  specialize (IH (Qmin q a)). apply elem_of_cons in IH as [->|IH].
  - unfold Qmin, GenericMinMax.gmin. destruct (q ?= a)%Q;
      rewrite !elem_of_cons; auto.
  - right. by right.
Qed.

Lemma fold_max_in qs q : fold_left Qmax qs q ∈ q :: qs.
Proof.
  revert q. induction qs as [|a qs IH]; intros q; simpl; [by left|].
  specialize (IH (Qmax q a)). apply elem_of_cons in IH as [->|IH].
  - unfold Qmax, GenericMinMax.gmax. destruct (q ?= a)%Q;
      rewrite !elem_of_cons; auto.
  - right. by right.
Qed.

(** On a series of numbers [calculateStats] returns: [min] and [max]
    are [Math.round(x * 100) / 100] of a least and of a greatest
    element of the series, [avg] that of the sum of doubles, taken from
    left to right from 0, over the length; each is an infinity or the
    double nearest to a number of hundredths, and [count] is the
    length. *)
Theorem calculateStats_of_numbers (rt : Runtime) (q : Q) (qs : list Q) :
  exists lo hi : Q,
    calculateStats rt (JNum <$> q :: qs)
    = Ret (mkStats (number_value (round2 (Finite lo)))
                   (number_value (round2 (Finite hi)))
                   (number_value (round2 (mean_doubles (q :: qs))))
                   (length (q :: qs)))
    /\ lo ∈ q :: qs /\ hi ∈ q :: qs
    /\ (forall y, y ∈ q :: qs -> (lo <= y)%Q /\ (y <= hi)%Q)
    /\ hundredth (number_value (round2 (Finite lo)))
    /\ hundredth (number_value (round2 (Finite hi)))
    /\ hundredth (number_value (round2 (mean_doubles (q :: qs)))).
Proof.
  exists (fold_left Qmin qs q), (fold_left Qmax qs q).
  destruct (numbers_hundredth q qs) as (Hlo & Hhi & Havg).
  split_and!; try done.
  - apply calculateStats_numbers.
  - apply fold_min_in.
  - apply fold_max_in.
  - intros y Hy. split; [by apply fold_min_least | by apply fold_max_greatest].
Qed.

(** *** The extracted series *)

(** Where [extractSensorData] reads the value of a sensor. *)
Definition sensor_path (sensor : string) : option (list string) :=
  if String.eqb sensor "respiration" then Some ["respiration"; "value"]
  else if String.eqb sensor "bodyTemp" then Some ["bodyTemp"; "value"]
  else if String.eqb sensor "co2" then Some ["environment"; "co2"; "value"]
  else if String.eqb sensor "voc" then Some ["environment"; "voc"; "value"]
  else if String.eqb sensor "envTemp" then Some ["environment"; "temp"; "value"]
  else if String.eqb sensor "audioLevel" then Some ["audio"; "level"]
  else if String.eqb sensor "movement" then Some ["radar"; "movement"]
  else None.

Definition defined (v : JSValue) : bool :=
  negb (is_null v) && negb (is_undefined v).

(** The readings that carry a value of the sensor, in stored order. *)
Definition carrying (sensor : string) (readings : list JSValue)
  : list JSValue :=
  match sensor_path sensor with
  | Some p => List.filter (fun r => defined (path r p)) readings
  | None => []
  end.

Definition value_at (sensor : string) (reading : JSValue) : JSValue :=
  match sensor_path sensor with
  | Some p => path reading p
  | None => JNull
  end.

Definition point_of (sensor : string) (reading : JSValue) : JSValue :=
  JObj [("x", prop reading "timestamp"); ("y", value_at sensor reading)].

Lemma sensor_value_path reading sensor :
  nullish reading = false ->
  sensor_value reading sensor = Ret (value_at sensor reading).
Proof.
  intros Hr. unfold sensor_value, value_at, sensor_path.
  repeat (destruct (String.eqb sensor _);
          [rewrite AlertsProps.bind_get, Hr; simpl;
           by rewrite (AlertsProps.present_opt_get reading)|]).
  done.
Qed.

Lemma carrying_cons sensor reading readings :
  carrying sensor (reading :: readings)
  = if defined (value_at sensor reading)
    then reading :: carrying sensor readings
    else carrying sensor readings.
Proof.
  unfold carrying, value_at. destruct (sensor_path sensor); [done|].
  by simpl.
Qed.

Lemma extract_loop_series readings sensor acc :
  Forall (fun r => nullish r = false) readings ->
  extract_loop readings sensor acc
  = Ret (mkSensorData
           (sd_points acc ++ (point_of sensor <$> carrying sensor readings))
           (sd_values acc ++ (value_at sensor <$> carrying sensor readings))
           (sd_timestamps acc
              ++ ((fun r => prop r "timestamp") <$> carrying sensor readings))).
Proof.
  intros Hall. revert acc.
  induction Hall as [|reading readings Hr _ IH]; intros acc.
  - unfold carrying. destruct (sensor_path sensor); simpl;
      rewrite !app_nil_r; by destruct acc.
  - cbn [extract_loop]. rewrite (sensor_value_path _ _ Hr). simpl.
    rewrite carrying_cons. fold (defined (value_at sensor reading)).
    destruct (defined (value_at sensor reading)); [|apply IH].
    rewrite AlertsProps.bind_get, Hr, IH. simpl.
    by rewrite <- !app_assoc.
Qed.

(** On stored readings (objects) [extractSensorData] returns the three
    series of the readings that carry a value of the sensor, in stored
    order: a value that is [null] or [undefined] is skipped with its
    timestamp, any other value, zero and [false] included, is kept;
    an unknown sensor name gives three empty series. *)
Theorem extractSensorData_series
  (readings : list JSValue) (sensor : string)
  (Hobjects : Forall (fun r => nullish r = false) readings) :
  exists data,
    extractSensorData readings sensor = Ret data
    /\ sd_values data = value_at sensor <$> carrying sensor readings
    /\ sd_timestamps data
       = (fun r => prop r "timestamp") <$> carrying sensor readings
    /\ sd_points data = point_of sensor <$> carrying sensor readings
    /\ carrying sensor readings `sublist_of` readings
    /\ Forall (fun v => v <> JNull /\ v <> JUndefined) (sd_values data)
    /\ (forall r, r ∈ readings ->
          value_at sensor r <> JNull -> value_at sensor r <> JUndefined ->
          r ∈ carrying sensor readings)
    /\ (sensor_path sensor = None -> data = mkSensorData [] [] []).
Proof.
  eexists. split; [unfold extractSensorData; by rewrite extract_loop_series|].
  simpl. split_and!; try done.
  - unfold carrying. destruct (sensor_path sensor); [|apply sublist_nil_l].
    induction readings as [|r rs IH]; [done|]. simpl.
    apply Forall_cons in Hobjects as [_ Hrs].
    destruct (defined _); [apply sublist_skip | apply sublist_cons]; by apply IH.
  - apply Forall_fmap, Forall_forall. intros r Hr. simpl.
    unfold carrying, value_at in *. destruct (sensor_path sensor) as [p|];
      [|by apply elem_of_nil in Hr].
    apply list_elem_of_In, filter_In in Hr as [_ Hd]. unfold defined in Hd.
    split; intros Heq; rewrite Heq in Hd; discriminate.
  - intros r Hr Hnull Hundef. unfold carrying, value_at in *.
    destruct (sensor_path sensor) as [p|]; [|done].
    apply list_elem_of_In, filter_In. split; [by apply list_elem_of_In|].
    unfold defined. by destruct (path r p).
  - intros Hnone. unfold carrying. by rewrite Hnone.
Qed.

Lemma extractSensorData_series_witness :
  exists data,
    extractSensorData
      [JObj [("timestamp", JNum 1); ("respiration", JObj [("value", JNum 0)])];
       JObj [("timestamp", JNum 2); ("respiration", JObj [("value", JNull)])];
       JObj [("timestamp", JNum 3)]]
      "respiration" = Ret data
    /\ sd_values data = [JNum 0] /\ sd_timestamps data = [JNum 1].
Proof.
  edestruct (extractSensorData_series
              [JObj [("timestamp", JNum 1); ("respiration", JObj [("value", JNum 0)])];
               JObj [("timestamp", JNum 2); ("respiration", JObj [("value", JNull)])];
               JObj [("timestamp", JNum 3)]]
              "respiration")
    as (data & Hd & Hv & Ht & _).
  - by repeat constructor.
  - exists data. by split_and!.
Defined.

(** *** Clearing the cache *)

(** After [clearCache()] no call is answered from the cache: the next
    call for any sensor and time range, however soon, computes its
    result from the store as it is then, in a new object. *)
Theorem clearCache_forces_recomputation
  (rt : Runtime) (tm : TrendsManager) (sm : StorageManager)
  (sensor timeRange : string) (now : Z) (c : ChartData)
  (Hstore : computed rt sm sensor timeRange now = Some c) :
  cache_hit (clearCache tm) (cacheKey sensor timeRange) now = None
  /\ snd (getChartData rt (clearCache tm) sm sensor timeRange now)
     = Ret (nextObject tm, c)
  /\ cache_hit (fst (getChartData rt (clearCache tm) sm sensor timeRange now))
               (cacheKey sensor timeRange) now
     = (if String.eqb (cacheKey sensor timeRange) "__proto__" then None
        else if Z.ltb 0 (cacheExpiry tm) then Some (nextObject tm, c) else None).
Proof.
  assert (Hmiss : cache_hit (clearCache tm) (cacheKey sensor timeRange) now = None).
  { unfold cache_hit, clearCache. simpl. rewrite lookup_empty.
    by destruct (String.eqb _ _). }
  rewrite (getChartData_miss _ _ _ _ _ _ _ Hmiss Hstore). split_and!; try done.
  cbn [fst]. destruct (String.eqb (cacheKey sensor timeRange) "__proto__") eqn:Hk.
  - unfold cache_hit. by rewrite Hk.
  - rewrite cache_hit_after_store by by apply String.eqb_neq.
    by rewrite Z.sub_diag.
Qed.

Lemma clearCache_forces_recomputation_witness :
  exists c,
    snd (getChartData plain_runtime (clearCache Trends.initial)
           (store_after_poll co2_payload 1700000000000) "co2" "1h" 1700000001000)
    = Ret (0, c)
    /\ values c = [JNum 800].
Proof.
  assert (H : exists c,
            computed plain_runtime (store_after_poll co2_payload 1700000000000)
                     "co2" "1h" 1700000001000 = Some c
            /\ values c = [JNum 800])
    by (vm_compute; eexists; split; reflexivity).
  destruct H as (c & Hc & Hv). exists c.
  destruct (clearCache_forces_recomputation plain_runtime Trends.initial
              (store_after_poll co2_payload 1700000000000) "co2" "1h"
              1700000001000 c Hc) as (_ & Hres & _).
  by split.
Defined.

(** *** The size of a reduced series *)

Lemma downsample_long data maxPoints :
  1 <= maxPoints -> maxPoints < length (points data) ->
  let n := length (points data) in
  let idx := (fun k => k * ceil_div n maxPoints)
               <$> seq 0 (ceil_div n (ceil_div n maxPoints)) in
  downsample data maxPoints
  = mkChart ((fun i => nth i (points data) JUndefined) <$> idx)
            ((fun i => nth i (values data) JUndefined) <$> idx)
            ((fun i => nth i (timestamps data) JUndefined) <$> idx)
            (stats data) (isEmpty data) (timeRange data) (sensor data).
Proof.
  intros Hm Hlt n idx.
  assert (Hs : 0 < ceil_div n maxPoints) by (apply ceil_div_pos; lia).
  unfold downsample. fold n.
  destruct (Nat.leb_spec n maxPoints); [lia|].
  destruct maxPoints as [|m]; [lia|].
  rewrite sample_loop_pick. fold n.
  rewrite loop_indices_multiples by lia.
  rewrite Nat.sub_0_r. by simpl.
Qed.

Lemma downsample_zero data :
  0 < length (points data) ->
  downsample data 0
  = mkChart [nth 0 (points data) JUndefined] [nth 0 (values data) JUndefined]
            [nth 0 (timestamps data) JUndefined]
            (stats data) (isEmpty data) (timeRange data) (sensor data).
Proof.
  intros Hn. unfold downsample.
  destruct (Nat.leb_spec (length (points data)) 0); [lia|].
  cbn [sample_loop]. destruct (Nat.ltb_spec 0 (length (points data))); [|lia].
  done.
Qed.

Lemma downsample_short data maxPoints :
  length (points data) <= maxPoints -> downsample data maxPoints = data.
Proof.
  intros H. unfold downsample.
  by destruct (Nat.leb_spec (length (points data)) maxPoints); [|lia].
Qed.

(** Reducing a series that is too long keeps its first entry and leaves
    three series of one length: more than half of [maxPoints] and at
    most [maxPoints] entries, and exactly one entry when [maxPoints] is
    0.  Reducing the result again changes nothing. *)
Theorem downsample_size (data : ChartData) (maxPoints : nat) :
  let n := length (points data) in
  let reduced := downsample data maxPoints in
  (maxPoints < n ->
     length (values reduced) = length (points reduced)
     /\ length (timestamps reduced) = length (points reduced)
     /\ nth 0 (points reduced) JUndefined = nth 0 (points data) JUndefined
     /\ (1 <= maxPoints ->
         maxPoints < 2 * length (points reduced)
         /\ length (points reduced) <= maxPoints)
     /\ (maxPoints = 0 -> length (points reduced) = 1))
  /\ downsample reduced maxPoints = reduced.
Proof.
  intros n reduced. subst reduced.
  destruct (Nat.le_gt_cases n maxPoints) as [Hshort|Hlong].
  { split; [lia|]. rewrite (downsample_short data maxPoints Hshort).
    by apply downsample_short. }
  destruct maxPoints as [|m].
  - rewrite downsample_zero by done. simpl.
    split; [intros _; split_and!; [done | done | done | intros; lia | done]|].
    by rewrite downsample_zero by (simpl; lia).
  - assert (Hm : 1 <= S m) by lia.
    rewrite (downsample_long data (S m) Hm Hlong). fold n.
    set (s := ceil_div n (S m)). set (c := ceil_div n s).
    assert (Hs : 2 <= s).
    { assert (~ s <= 1) as Hc; [|lia]. unfold s.
      rewrite ceil_div_le by lia. lia. }
    assert (Hc : 0 < c) by (apply ceil_div_pos; lia).
    assert (Hcm : c <= S m).
    { apply ceil_div_le; [lia|].
      assert (n <= s * S m) by (apply ceil_div_le; [lia|done]). lia. }
    assert (Hhalf : S m < 2 * c).
    { assert (Hn1 : n <= c * s) by (apply ceil_div_le; [lia|done]).
      assert (Hn2 : ~ n <= (s - 1) * S m).
      { rewrite <- ceil_div_le by lia. fold s. lia. }
      nia. }
    simpl points. simpl values. simpl timestamps.
    rewrite !length_fmap, !length_seq. split.
    + intros _. split_and!; try done.
      destruct c as [|c']; [lia|]. simpl. done.
    + apply downsample_short. simpl. by rewrite !length_fmap, length_seq.
Qed.

End TrendsProps.

(** ** The polling loop *)

Module PollerProps.
Import Poller.
Local Open Scope list_scope.
Local Open Scope nat_scope.

(** Every cycle arms one timer, on success and on failure alike. *)
Lemma poll_resume_rearms req outcome now l :
  timers (poll_resume req outcome now l)
  = timers l ++ [(nextTimer l, pollInterval (conn l))]
  /\ inflight (poll_resume req outcome now l) = inflight l.
Proof.
  unfold poll_resume, rearm.
  destruct outcome as [data|message];
    [destruct (Normalizer.normalizeReading data now)|];
    unfold handleReading, handleError;
    destruct (isConnected (conn l)); simpl; done.
Qed.

(** [stop()] clears the timer that [pollTimer] names and touches no
    request. *)
Lemma stop_keeps_inflight l : inflight (stop l) = inflight l.
Proof. unfold stop. by destruct (pollTimer (conn l)). Qed.

(** With no request awaited and the armed timer in [pollTimer],
    [stop()] leaves nothing pending and [configure] starts one loop. *)
Lemma configure_when_idle address port interval l t d :
  inflight l = [] -> timers l = [(t, d)] -> pollTimer (conn l) = Some t ->
  timers (configure address port interval l) = []
  /\ inflight (configure address port interval l)
     = [(nextRequest l, ("http://" ++ address ++ ":" ++ port)%string)].
Proof.
  intros Hin Ht Hp. unfold configure, start, stop, poll_begin. simpl.
  rewrite Hp. simpl. rewrite Ht, Hin. simpl. by rewrite Nat.eqb_refl.
Qed.

Definition new_address : Input := CallConfigure "10.0.0.2" "8080" 2000.

Definition answered (req : nat) : Input :=
  FetchSettles req (Body (JObj [])) 1700000000000.

(** C4 on the code: [configure] called while the first request is still
    awaited leaves that request awaited next to the new one; when both
    settle, the old request's continuation emits its events after the
    restart and each continuation arms a timer, so two timers are
    pending.  [stop()] called while a request is awaited is followed,
    when the request settles, by its events and a newly armed timer. *)
Theorem configure_during_fetch_overlaps :
  let restarted := run initial [CallStart; new_address] in
  let settled := run restarted [answered 0; answered 1] in
  let stopped :=
    run initial [CallStart; CallStop;
                 FetchSettles 0 (Failure "The user aborted a request.")
                              1700000000000] in
  inflight restarted
  = [(0, "http://192.168.4.1:80"%string); (1, "http://10.0.0.2:8080"%string)]
  /\ fst <$> log settled = [0; 0; 1]
  /\ timers settled = [(1, 2000%Z); (2, 2000%Z)]
  /\ log stopped = [(0, Error "The user aborted a request." 1)]
  /\ timers stopped = [(1, 2000%Z)].
Proof. vm_compute. by split_and!. Qed.

(** *** What [getStatus] can report *)

Lemma handleReading_conn req reading l :
  isConnected (conn (handleReading req reading l)) = true
  /\ lastReading (conn (handleReading req reading l)) = Some reading
  /\ currentRetries (conn (handleReading req reading l))
     = (if isConnected (conn l) then currentRetries (conn l) else 0).
Proof. unfold handleReading. by destruct (isConnected (conn l)). Qed.

Lemma handleError_conn req message l :
  isConnected (conn (handleError req message l)) = false
  /\ lastReading (conn (handleError req message l))
     = (if isConnected (conn l) then None else lastReading (conn l))
  /\ currentRetries (conn (handleError req message l))
     = S (currentRetries (conn l)).
Proof. unfold handleError. by destruct (isConnected (conn l)). Qed.

Definition settled (c : ConnectionManager) : Prop :=
  (isConnected c = true <-> is_Some (lastReading c))
  /\ (isConnected c = true -> currentRetries c = 0).

Lemma step_settled l i : settled (conn l) -> settled (conn (step l i)).
Proof.
  intros [Hr Hz]. destruct i as [| |a p n|t|r outcome now]; simpl.
  - done.
  - unfold stop. by destruct (pollTimer (conn l)).
  - unfold configure, start, stop, poll_begin. simpl.
    by destruct (pollTimer (conn l)).
  - by destruct (has_key t (timers l)).
  - destruct (has_key r (inflight l)); [|done].
    unfold poll_resume, rearm. simpl.
    set (l0 := mkLoop _ _ _ _ _ _).
    assert (Hc : conn l0 = conn l) by done.
    assert (Hgood : forall reading, settled (conn (handleReading r reading l0))).
    { intros reading.
      destruct (handleReading_conn r reading l0) as (H1 & H2 & H3).
      split; rewrite ?H1, ?H2, ?H3, ?Hc; [by split; eauto|].
      intros _. destruct (isConnected (conn l)) eqn:E; [by apply Hz | done]. }
    assert (Hbad : forall message, settled (conn (handleError r message l0))).
    { intros message.
      destruct (handleError_conn r message l0) as (H1 & H2 & H3).
      split; rewrite ?H1, ?H2, ?Hc; [|done].
      split; [done|]. intros Hs. destruct (isConnected (conn l)) eqn:E.
      - by destruct Hs.
      - apply Hr in Hs. discriminate. }
    destruct outcome as [data|message];
      [destruct (Normalizer.normalizeReading data now)|];
      [apply (Hgood _) | apply (Hbad _) | apply (Hbad _)].
Qed.

(** Whatever the application calls and whatever the timers and requests
    do, [getStatus()] reports [connected] exactly when it reports a last
    reading, and the retry counter is zero while connected. *)
Theorem status_connected_iff_reading
  (l : Loop) (inputs : list Input)
  (Hreading : isConnected (conn l) = true <-> is_Some (lastReading (conn l)))
  (Hretries : isConnected (conn l) = true -> currentRetries (conn l) = 0) :
  let c := conn (run l inputs) in
  (status_connected (getStatus c) = true
   <-> is_Some (status_lastReading (getStatus c)))
  /\ (status_connected (getStatus c) = true -> currentRetries c = 0).
Proof.
  assert (H : settled (conn l)) by done. clear Hreading Hretries.
  revert l H. induction inputs as [|i inputs IH]; intros l H; [done|].
  apply (IH (step l i)). by apply step_settled.
Qed.

Lemma status_connected_iff_reading_witness :
  let c := conn (run initial [CallStart; answered 0; TimerFires 1]) in
  (status_connected (getStatus c) = true
   <-> is_Some (status_lastReading (getStatus c)))
  /\ (status_connected (getStatus c) = true -> currentRetries c = 0).
Proof.
  apply (status_connected_iff_reading initial [CallStart; answered 0; TimerFires 1]).
  - simpl. split; [discriminate | by intros [? ?]].
  - simpl. discriminate.
Defined.

(** *** The events the listeners see *)

(** The listener's view of the connection: whether it is up and how
    many errors came since it was last up.  [follow] is [None] once an
    event arrives that does not fit the view. *)
Fixpoint follow (up : bool) (errors : nat) (events : list Event)
  : option (bool * nat) :=
  match events with
  | [] => Some (up, errors)
  | Connected _ :: rest => if up then None else follow true 0 rest
  | Disconnected _ :: rest => if up then follow false errors rest else None
  | Data _ :: rest => if up then follow up errors rest else None
  | Error _ n :: rest =>
      if negb up && (n =? S errors) then follow up n rest else None
  end.

Lemma follow_app up errors xs ys :
  follow up errors (xs ++ ys)
  = match follow up errors xs with
    | Some (up', errors') => follow up' errors' ys
    | None => None
    end.
Proof.
  revert up errors. induction xs as [|e xs IH]; intros up errors; [done|].
  destruct e; simpl; destruct up; simpl; try done; try apply IH.
  by destruct (_ =? _).
Qed.

Definition view_of (l : Loop) : bool * nat :=
  (isConnected (conn l), currentRetries (conn l)).

Definition followed (up : bool) (errors : nat) (l : Loop) : Prop :=
  follow up errors (snd <$> log l) = Some (view_of l).

Lemma handleReading_followed up errors req reading l :
  followed up errors l -> followed up errors (handleReading req reading l).
Proof.
  unfold followed, view_of, handleReading. intros H.
  destruct (isConnected (conn l)) eqn:E; simpl;
    rewrite fmap_app, follow_app, H; simpl; by rewrite ?E.
Qed.

Lemma handleError_followed up errors req message l :
  followed up errors l -> followed up errors (handleError req message l).
Proof.
  unfold followed, view_of, handleError. intros H.
  destruct (isConnected (conn l)) eqn:E; simpl;
    rewrite fmap_app, follow_app, H; simpl; by rewrite ?E, ?Nat.eqb_refl.
Qed.

Lemma step_followed up errors l i :
  followed up errors l -> followed up errors (step l i).
Proof.
  intros H. destruct i as [| |a p n|t|r outcome now]; simpl.
  - done.
  - unfold stop. by destruct (pollTimer (conn l)).
  - unfold configure, start, stop, poll_begin. simpl.
    by destruct (pollTimer (conn l)).
  - by destruct (has_key t (timers l)).
  - destruct (has_key r (inflight l)); [|done].
    unfold poll_resume. set (l0 := mkLoop _ _ _ _ _ _).
    assert (H0 : followed up errors l0) by done.
    assert (Hrearm : forall l', followed up errors l' ->
                                followed up errors (rearm l')) by done.
    apply Hrearm.
    destruct outcome as [data|message];
      [destruct (Normalizer.normalizeReading data now)|];
      first [by apply handleReading_followed | by apply handleError_followed].
Qed.

(** The events arrive in an order a listener can rely on: [connected]
    only while down, [disconnected] and [data] only while up, [error]
    only while down and carrying the number of errors since the
    connection was last up; the connection flag and the retry counter
    are what the events so far say. *)
Theorem events_follow_connection
  (l : Loop) (inputs : list Input) (up : bool) (errors : nat)
  (Hlog : follow up errors (snd <$> log l)
          = Some (isConnected (conn l), currentRetries (conn l))) :
  follow up errors (snd <$> log (run l inputs))
  = Some (isConnected (conn (run l inputs)),
          currentRetries (conn (run l inputs))).
Proof.
  assert (H : followed up errors l) by done. clear Hlog.
  revert l H. induction inputs as [|i inputs IH]; intros l H; [done|].
  apply (IH (step l i)). by apply step_followed.
Qed.

Lemma events_follow_connection_witness :
  follow false 0
    (snd <$> log (run initial
                    [CallStart; answered 0; TimerFires 1;
                     FetchSettles 1 (Failure "Failed to fetch") 1700000002000]))
  = Some (false, 1).
Proof.
  apply (events_follow_connection initial
           [CallStart; answered 0; TimerFires 1;
            FetchSettles 1 (Failure "Failed to fetch") 1700000002000]
           false 0 eq_refl).
Defined.

(** *** Polling goes on *)

(** What is pending: armed timers and awaited requests. *)
Definition pending (l : Loop) : nat := length (timers l) + length (inflight l).

(** Timer and request identifiers are handed out once. *)
Definition fresh_ids (l : Loop) : Prop :=
  NoDup (fst <$> timers l)
  /\ Forall (fun e => fst e < nextTimer l) (timers l)
  /\ NoDup (fst <$> inflight l)
  /\ Forall (fun e => fst e < nextRequest l) (inflight l).

Definition passive (i : Input) : bool :=
  match i with
  | TimerFires _ | FetchSettles _ _ _ => true
  | _ => false
  end.

Lemma remove_key_absent {A} k (l : list (nat * A)) :
  k ∉ fst <$> l -> remove_key k l = l.
Proof.
  induction l as [|e l IH]; [done|]. rewrite fmap_cons, not_elem_of_cons.
  intros [Hne Hl]. unfold remove_key. cbn [List.filter].
  destruct (Nat.eqb_spec (fst e) k) as [Heq|_]; [done|]. simpl.
  f_equal. by apply IH.
Qed.

Lemma remove_key_length {A} k (l : list (nat * A)) :
  NoDup (fst <$> l) -> has_key k l = true ->
  S (length (remove_key k l)) = length l.
Proof.
  induction l as [|e l IH]; [done|]. rewrite fmap_cons, NoDup_cons.
  intros [Hnew Hnd]. unfold has_key, remove_key. cbn [existsb List.filter].
  destruct (Nat.eqb_spec (fst e) k) as [Heq|_]; simpl.
  - intros _. f_equal. fold (remove_key k l). rewrite remove_key_absent; [done|].
    by rewrite <- Heq.
  - intros Hk. f_equal. by apply IH.
Qed.

Lemma remove_key_sub {A} k (l : list (nat * A)) : remove_key k l ⊆ l.
Proof. intros e. unfold remove_key. rewrite list_elem_of_In, filter_In, <- list_elem_of_In. tauto. Qed.

Lemma remove_key_NoDup {A} k (l : list (nat * A)) :
  NoDup (fst <$> l) -> NoDup (fst <$> remove_key k l).
Proof.
  induction l as [|e l IH]; [done|]. rewrite fmap_cons, NoDup_cons.
  intros [Hnew Hnd]. unfold remove_key. cbn [List.filter].
  destruct (negb _); [|by apply IH].
  rewrite fmap_cons, NoDup_cons. split; [|by apply IH].
  intros Hin. apply Hnew. apply list_elem_of_fmap in Hin as (x & -> & Hx).
  apply list_elem_of_fmap. exists x. split; [done|]. by apply (remove_key_sub k).
Qed.

Lemma remove_key_below {A} k n (l : list (nat * A)) :
  Forall (fun e => fst e < n) l -> Forall (fun e => fst e < n) (remove_key k l).
Proof.
  rewrite !Forall_forall. intros H e He. apply H. by apply (remove_key_sub k).
Qed.

Lemma snoc_fresh {A} n (x : A) (l : list (nat * A)) :
  NoDup (fst <$> l) -> Forall (fun e => fst e < n) l ->
  NoDup (fst <$> l ++ [(n, x)])
  /\ Forall (fun e => fst e < S n) (l ++ [(n, x)]).
Proof.
  intros Hnd Hlt. split.
  - rewrite fmap_app. apply NoDup_app. split_and!; [done| |apply NoDup_singleton].
    intros k Hk Hn. simpl in Hn. apply list_elem_of_singleton in Hn as ->.
    apply list_elem_of_fmap in Hk as (e & He & Hin).
    rewrite Forall_forall in Hlt. specialize (Hlt e Hin). simpl in He. lia.
  - apply Forall_app. split; [|apply Forall_singleton; simpl; lia].
    eapply Forall_impl; [exact Hlt|]. simpl. intros. lia.
Qed.

Lemma poll_begin_fresh l : fresh_ids l -> fresh_ids (poll_begin l).
Proof.
  intros (T1 & T2 & R1 & R2). unfold fresh_ids, poll_begin. simpl.
  destruct (snoc_fresh (nextRequest l) (url (conn l)) _ R1 R2). by split_and!.
Qed.

Lemma stop_fresh l : fresh_ids l -> fresh_ids (stop l).
Proof.
  intros (T1 & T2 & R1 & R2). unfold stop.
  destruct (pollTimer (conn l)); [|done]. unfold fresh_ids. simpl.
  split_and!; [by apply remove_key_NoDup | by apply remove_key_below | done | done].
Qed.

Lemma poll_resume_parts req outcome now l :
  timers (poll_resume req outcome now l)
  = timers l ++ [(nextTimer l, pollInterval (conn l))]
  /\ inflight (poll_resume req outcome now l) = inflight l
  /\ nextTimer (poll_resume req outcome now l) = S (nextTimer l)
  /\ nextRequest (poll_resume req outcome now l) = nextRequest l.
Proof.
  unfold poll_resume, rearm.
  destruct outcome as [data|message];
    [destruct (Normalizer.normalizeReading data now)|];
    unfold handleReading, handleError;
    destruct (isConnected (conn l)); simpl; done.
Qed.

Lemma step_fresh l i : fresh_ids l -> fresh_ids (step l i).
Proof.
  intros H. destruct i as [| |a p n|t|r outcome now]; simpl.
  - by apply poll_begin_fresh.
  - by apply stop_fresh.
  - unfold configure, start. apply poll_begin_fresh, stop_fresh.
    exact H.
  - destruct (has_key t (timers l)); [|done]. apply poll_begin_fresh.
    destruct H as (T1 & T2 & R1 & R2). unfold fresh_ids. simpl.
    split_and!; [by apply remove_key_NoDup | by apply remove_key_below | done | done].
  - destruct (has_key r (inflight l)); [|done].
    destruct H as (T1 & T2 & R1 & R2).
    set (l0 := mkLoop _ _ _ _ _ _).
    destruct (poll_resume_parts r outcome now l0) as (E1 & E2 & E3 & E4).
    unfold fresh_ids. rewrite E1, E2, E3, E4. simpl.
    destruct (snoc_fresh (nextTimer l) (pollInterval (conn l)) _ T1 T2).
    split_and!; [done | done | by apply remove_key_NoDup | by apply remove_key_below].
Qed.

Lemma run_fresh l inputs : fresh_ids l -> fresh_ids (run l inputs).
Proof.
  revert l. induction inputs as [|i inputs IH]; intros l H; [done|].
  apply (IH (step l i)). by apply step_fresh.
Qed.

Lemma step_passive_pending l i :
  fresh_ids l -> passive i = true -> pending (step l i) = pending l.
Proof.
  intros (T1 & T2 & R1 & R2). destruct i as [| |a p n|t|r outcome now]; try done;
    intros _; simpl.
  - destruct (has_key t (timers l)) eqn:Hk; [|done].
    unfold pending, poll_begin. simpl. rewrite length_app. simpl.
    pose proof (remove_key_length t (timers l) T1 Hk). lia.
  - destruct (has_key r (inflight l)) eqn:Hk; [|done].
    set (l0 := mkLoop _ _ _ _ _ _).
    destruct (poll_resume_parts r outcome now l0) as (E1 & E2 & _).
    unfold pending. rewrite E1, E2, length_app. simpl.
    pose proof (remove_key_length r (inflight l) R1 Hk). lia.
Qed.

(** Once the application stops calling, polling goes on by itself: a
    timer that fires becomes one request, a request that settles,
    with a reading or with an error, becomes one timer; the number of
    pending timers and requests stays what the calls left. *)
Theorem polling_goes_on
  (l : Loop) (calls events : list Input)
  (Hids : fresh_ids l)
  (Hpassive : forallb passive events = true) :
  pending (run l (calls ++ events)) = pending (run l calls).
Proof.
  unfold run at 1. rewrite fold_left_app. fold (run l calls).
  pose proof (run_fresh l calls Hids) as H. clear Hids.
  revert H. generalize (run l calls). clear l calls.
  induction events as [|i events IH]; intros l H; [done|].
  simpl in Hpassive. apply andb_prop in Hpassive as [Hi Hrest]. simpl.
  rewrite (IH Hrest (step l i)); [|by apply step_fresh].
  by apply step_passive_pending.
Qed.

Lemma initial_fresh : fresh_ids initial.
Proof. unfold fresh_ids. simpl. split_and!; constructor. Qed.

Lemma polling_goes_on_witness :
  pending (run initial
             ([CallStart; new_address]
              ++ [answered 0; answered 1; TimerFires 1; TimerFires 2]))
  = 2.
Proof.
  rewrite (polling_goes_on initial [CallStart; new_address]
             [answered 0; answered 1; TimerFires 1; TimerFires 2]
             initial_fresh eq_refl).
  reflexivity.
Defined.

(** The state after [start()] on a new manager and [n] polls that all
    failed: request [n] is awaited. *)
Definition failed_poll (message : string) (now : Z) (k : nat) : list Input :=
  [FetchSettles k (Failure message) now; TimerFires (S k)].

Definition after_failures (message : string) (n : nat) : Loop :=
  mkLoop (mkConnection false "192.168.4.1" "80" 2000 n
            (match n with 0 => None | S _ => Some n end) None)
         [] [(n, "http://192.168.4.1:80"%string)] (S n) (S n)
         ((fun k => (k, Error message (S k))) <$> seq 0 n).

(** The retry counter has no ceiling and no effect: after any number
    of failed polls in a row the next request has been sent and every
    failure was reported with its count; when that request fails too,
    the next poll is armed after the ordinary poll interval. *)
Theorem failed_polls_are_retried_forever (message : string) (now : Z) (n : nat) :
  let retried :=
    run initial (CallStart :: flat_map (failed_poll message now) (seq 0 n)) in
  let failed := step retried (FetchSettles n (Failure message) now) in
  retried = after_failures message n
  /\ currentRetries (conn failed) = S n
  /\ timers failed = [(S n, 2000%Z)]
  /\ inflight failed = [].
Proof.
  cbn zeta.
  assert (run initial (CallStart :: flat_map (failed_poll message now) (seq 0 n))
          = after_failures message n) as ->;
    [|split; [done|]; unfold after_failures;
      cbn [step inflight has_key existsb fst]; rewrite Nat.eqb_refl;
      cbn [orb]; unfold poll_resume, handleError, rearm, remove_key;
      cbn [conn isConnected List.filter fst]; rewrite Nat.eqb_refl; done].
  induction n as [|n IH]; [reflexivity|].
  rewrite seq_S, flat_map_app. simpl flat_map.
  change (CallStart :: ?a ++ ?b) with ((CallStart :: a) ++ b).
  unfold run in *. rewrite fold_left_app, IH. unfold after_failures.
  cbn [fold_left step inflight has_key existsb fst]. rewrite Nat.eqb_refl.
  cbn [orb]. unfold poll_resume, handleError, rearm, remove_key.
  cbn [conn isConnected List.filter fst]. rewrite Nat.eqb_refl.
  cbn [negb timers app nextTimer has_key existsb fst]. rewrite Nat.eqb_refl.
  cbn [orb]. unfold poll_begin, remove_key, url.
  cbn [conn timers List.filter fst inflight nextRequest nextTimer log
       piAddress piPort currentRetries pollInterval lastReading pollTimer app].
  rewrite Nat.eqb_refl. cbn [negb].
  rewrite (seq_S n 0), fmap_app. reflexivity.
Qed.

(** *** One loop *)

(** The states of a manager that was started once: one request
    awaited, or one timer armed and named by [pollTimer]. *)
Definition one_loop (l : Loop) : Prop :=
  (timers l = [] /\ exists r u, inflight l = [(r, u)])
  \/ (inflight l = []
      /\ exists t, timers l = [(t, pollInterval (conn l))]
                   /\ pollTimer (conn l) = Some t).

Lemma step_one_loop l i : passive i = true -> one_loop l -> one_loop (step l i).
Proof.
  destruct i as [| |a p n|t|r outcome now]; try done; intros _ H; simpl.
  - destruct (has_key t (timers l)) eqn:Hk; [|done].
    destruct H as [[Ht _]|(Hi & t' & Ht & Hp)].
    + by rewrite Ht in Hk.
    + left. unfold poll_begin. simpl. rewrite Ht, Hi in *. simpl in *.
      rewrite orb_false_r in Hk. rewrite Hk. simpl. eauto.
  - destruct (has_key r (inflight l)) eqn:Hk; [|done].
    destruct H as [(Ht & r' & u & Hi)|[Hi _]].
    + right. set (l0 := mkLoop _ _ _ _ _ _).
      destruct (poll_resume_parts r outcome now l0) as (E1 & E2 & _).
      rewrite E1, E2. subst l0. simpl. rewrite Ht, Hi in *. simpl in *.
      rewrite orb_false_r in Hk. rewrite Hk. simpl. split; [done|].
      exists (nextTimer l). unfold poll_resume, rearm.
      destruct outcome as [data|message];
        [destruct (Normalizer.normalizeReading data now)|];
        unfold handleReading, handleError; simpl;
        destruct (isConnected (conn l)); simpl; done.
    + by rewrite Hi in Hk.
Qed.

Lemma quiet_stays l events :
  timers l = [] -> inflight l = [] -> forallb passive events = true ->
  run l events = l.
Proof.
  intros Ht Hi. induction events as [|i events IH]; [done|]. simpl.
  intros [Hp Hrest]%andb_prop.
  assert (step l i = l) as ->; [|by apply IH].
  destruct i; try done; simpl; by rewrite ?Ht, ?Hi.
Qed.

(** A manager started once, and neither started nor configured again,
    never has more than one poll under way; [stop()] called while its
    timer is armed ends polling for good, and called while its request
    is awaited it cancels nothing. *)
Theorem started_once_polls_once
  (l : Loop) (events later : list Input)
  (Hquiet : timers l = [] /\ inflight l = [])
  (Hevents : forallb passive events = true)
  (Hlater : forallb passive later = true) :
  let polling := run (start l) events in
  pending polling = 1
  /\ (inflight polling = [] ->
      pending (stop polling) = 0 /\ run (stop polling) later = stop polling)
  /\ (inflight polling <> [] -> pending (stop polling) = 1).
Proof.
  destruct Hquiet as [Ht Hi].
  assert (H : one_loop (run (start l) events)).
  { assert (H0 : one_loop (start l)).
    { left. unfold start, poll_begin. simpl. rewrite Ht, Hi. eauto. }
    revert H0. generalize (start l). clear l Ht Hi.
    induction events as [|i events IH]; intros l H0; [done|].
    simpl in Hevents. apply andb_prop in Hevents as [Hp Hrest].
    apply (IH Hrest (step l i)). by apply step_one_loop. }
  simpl. set (polling := run (start l) events) in *.
  destruct H as [(Hpt & r & u & Hpi)|(Hpi & t & Hpt & Hpp)].
  - split_and!.
    + unfold pending. by rewrite Hpt, Hpi.
    + by rewrite Hpi.
    + intros _. unfold pending, stop.
      destruct (pollTimer (conn polling)); simpl; by rewrite Hpt, Hpi.
  - assert (Hs : timers (stop polling) = [] /\ inflight (stop polling) = []).
    { unfold stop. rewrite Hpp. simpl. rewrite Hpt, Hpi. simpl.
      by rewrite Nat.eqb_refl. }
    destruct Hs as [Hst Hsi]. split_and!.
    + unfold pending. by rewrite Hpt, Hpi.
    + intros _. split; [unfold pending; by rewrite Hst, Hsi|].
      by apply quiet_stays.
    + by rewrite Hpi.
Qed.

Lemma started_once_polls_once_witness :
  let polling := run (start initial) [answered 0] in
  pending polling = 1
  /\ (inflight polling = [] ->
      pending (stop polling) = 0
      /\ run (stop polling) [TimerFires 1] = stop polling)
  /\ (inflight polling <> [] -> pending (stop polling) = 1).
Proof.
  apply (started_once_polls_once initial [answered 0] [TimerFires 1]
           (conj eq_refl eq_refl) eq_refl eq_refl).
Defined.

(** [configure] called between two polls of a manager that was started
    once leaves one poll under way: the armed timer is cleared, the
    next request goes to the new address at once, and the timer armed
    when it settles has the new interval. *)
Theorem configure_between_polls
  (l : Loop) (events : list Input) (address port : string) (interval : Z)
  (Hquiet : timers l = [] /\ inflight l = [])
  (Hevents : forallb passive events = true)
  (Hidle : inflight (run (start l) events) = []) :
  let polling := run (start l) events in
  let restarted := configure address port interval polling in
  timers restarted = []
  /\ inflight restarted
     = [(nextRequest polling, ("http://" ++ address ++ ":" ++ port)%string)]
  /\ forall outcome now,
       let next := step restarted (FetchSettles (nextRequest polling) outcome now) in
       timers next = [(nextTimer polling, interval)] /\ inflight next = [].
Proof.
  destruct Hquiet as [Ht Hi].
  assert (H : one_loop (run (start l) events)).
  { assert (H0 : one_loop (start l)).
    { left. unfold start, poll_begin. simpl. rewrite Ht, Hi. eauto. }
    revert H0. generalize (start l). clear l Ht Hi Hidle.
    induction events as [|i events IH]; intros l H0; [done|].
    simpl in Hevents. apply andb_prop in Hevents as [Hp Hrest].
    apply (IH Hrest (step l i)). by apply step_one_loop. }
  cbn zeta. set (polling := run (start l) events) in *.
  destruct H as [(_ & r & u & Hpi)|(_ & t & Hpt & Hpp)];
    [by rewrite Hpi in Hidle|].
  destruct (configure_when_idle address port interval polling t _ Hidle Hpt Hpp)
    as [Hct Hci].
  split; [done|]. split; [done|]. intros outcome now.
  cbn [step]. rewrite Hci. cbn [has_key existsb fst]. rewrite Nat.eqb_refl.
  cbn [orb]. set (l0 := mkLoop _ _ _ _ _ _).
  destruct (poll_resume_parts (nextRequest polling) outcome now l0)
    as (E1 & E2 & _).
  rewrite E1, E2. subst l0. cbn [timers inflight nextTimer conn].
  rewrite Hct. unfold remove_key. cbn [List.filter fst]. rewrite Nat.eqb_refl.
  cbn [negb app]. split; [|done].
  unfold configure, start, stop, poll_begin. cbn [conn pollTimer].
  rewrite Hpp. done.
Qed.

Lemma configure_between_polls_witness :
  let polling := run (start initial) [answered 0] in
  let restarted := configure "10.0.0.2" "8080" 500 polling in
  timers restarted = []
  /\ inflight restarted = [(1, "http://10.0.0.2:8080"%string)].
Proof.
  destruct (configure_between_polls initial [answered 0] "10.0.0.2" "8080" 500
              (conj eq_refl eq_refl) eq_refl eq_refl) as (Ht & Hi & _).
  by split.
Defined.

(** *** What the listeners are handed *)

Definition normalized (reading : JSValue) : Prop :=
  exists data now, Normalizer.normalizeReading data now = Ret reading.

Definition data_normalized (l : Loop) : Prop :=
  (forall req reading, (req, Data reading) ∈ log l -> normalized reading)
  /\ (forall reading, lastReading (conn l) = Some reading -> normalized reading).

Lemma step_data_normalized l i : data_normalized l -> data_normalized (step l i).
Proof.
  intros [Hlog Hlast]. destruct i as [| |a p n|t|r outcome now]; simpl.
  - done.
  - unfold stop. by destruct (pollTimer (conn l)).
  - unfold configure, start, stop, poll_begin. simpl.
    by destruct (pollTimer (conn l)).
  - by destruct (has_key t (timers l)).
  - destruct (has_key r (inflight l)); [|done].
    unfold poll_resume. set (l0 := mkLoop _ _ _ _ _ _).
    assert (Hrearm : forall l', data_normalized l' -> data_normalized (rearm l'))
      by done.
    apply Hrearm.
    assert (Hbad : forall message, data_normalized (handleError r message l0)).
    { intros message. unfold handleError.
      destruct (isConnected (conn l0)); split; simpl;
        try done; intros req reading; rewrite elem_of_app;
        (intros [Hin|Hin]; [by eapply Hlog|]);
        rewrite ?elem_of_cons, elem_of_nil in Hin;
        decompose [or] Hin; done. }
    destruct outcome as [data|message];
      [destruct (Normalizer.normalizeReading data now) as [reading|e] eqn:Hn|];
      [|apply Hbad|apply Hbad].
    assert (Hok : normalized reading) by (by exists data, now).
    unfold handleReading.
    destruct (isConnected (conn l0)); split; simpl;
      try (intros ? [= <-]; exact Hok);
      intros req reading'; rewrite elem_of_app;
      (intros [Hin|Hin]; [by eapply Hlog|]);
      rewrite ?elem_of_cons, elem_of_nil in Hin;
      decompose [or] Hin; try done;
      match goal with
      | H : (_, Data _) = (_, Data _) |- _ => injection H as _ ->
      end; exact Hok.
Qed.

(** Every reading handed to the [data] listeners, and the last reading
    that [getStatus()] reports, is an output of [normalizeReading] on
    some payload: it has the sub-objects that [checkReading] reads, and
    [checkReading], which the application calls on it, returns exactly
    when the four values of the payload that it compares convert to
    primitives. *)
Theorem data_events_are_normalized
  (l : Loop) (inputs : list Input) (req : nat) (reading : JSValue)
  (Hnew : log l = [] /\ lastReading (conn l) = None)
  (Hdata : (req, Data reading) ∈ log (run l inputs)
           \/ status_lastReading (getStatus (conn (run l inputs))) = Some reading) :
  exists data now',
    Normalizer.normalizeReading data now' = Ret reading
    /\ AlertsProps.has_sensors reading = true
    /\ forall rt io w now,
         JS.returns (snd (Alerts.checkReading rt io w reading now))
         = AlertsProps.payload_converts data.
Proof.
  destruct Hnew as [Hlog Hlast].
  assert (H : data_normalized (run l inputs)).
  { assert (H0 : data_normalized l).
    { split; [rewrite Hlog; intros ? ? Hin; by apply elem_of_nil in Hin|].
      rewrite Hlast. discriminate. }
    revert H0. generalize l. clear.
    induction inputs as [|i inputs IH]; intros l H0; [done|].
    apply (IH (step l i)). by apply step_data_normalized. }
  assert (Hn : normalized reading).
  { destruct H as [H1 H2]. destruct Hdata as [Hin|Hs]; [by eapply H1 | by apply H2]. }
  destruct Hn as (data & now' & Hn). exists data, now'.
  pose proof (AlertsProps.normalized_has_sensors _ _ _ Hn) as Hs.
  split_and!; [done..|]. intros rt io w now.
  rewrite AlertsProps.checkReading_returns, Hs.
  by rewrite (AlertsProps.normalized_comparable _ _ _ Hn).
Qed.

Lemma data_events_are_normalized_witness :
  exists reading data now',
    status_lastReading (getStatus (conn (run initial [CallStart; answered 0])))
    = Some reading
    /\ Normalizer.normalizeReading data now' = Ret reading
    /\ AlertsProps.has_sensors reading = true.
Proof.
  eexists.
  destruct (data_events_are_normalized initial [CallStart; answered 0] 0 _
              (conj eq_refl eq_refl) (or_intror eq_refl))
    as (data & now' & Hn & Hs & _).
  exists data, now'. split_and!; [reflexivity | exact Hn | exact Hs].
Defined.

End PollerProps.

(** ** The event registries *)

Module EventsProps.
Import Events.
Local Open Scope list_scope.
Local Open Scope nat_scope.

Lemma slot_own ls event callbacks :
  event <> "__proto__"%string -> ls !! event = Some callbacks ->
  slot ls event = Registered callbacks.
Proof.
  intros Hname Hown. unfold slot. apply String.eqb_neq in Hname.
  by rewrite Hname, Hown.
Qed.

Lemma slot_absent ls event :
  inherited_name event = false -> ls !! event = None -> slot ls event = Absent.
Proof.
  intros Hplain Hnot. unfold slot. rewrite Hnot, Hplain.
  destruct (String.eqb_spec event "__proto__") as [->|_]; [discriminate|done].
Qed.

Lemma emit_insert ls event callbacks other :
  event <> "__proto__"%string ->
  emit (<[event := callbacks]> ls) other
  = if String.eqb other event then Ret callbacks else emit ls other.
Proof.
  intros Hname. unfold emit, slot.
  destruct (String.eqb_spec other event) as [->|Hne].
  - apply String.eqb_neq in Hname. by rewrite Hname, lookup_insert_eq.
  - by rewrite lookup_insert_ne.
Qed.

Lemma filter_other (callback : Callback) (l : list Callback) :
  callback ∉ l ->
  List.filter (fun cb => negb (Nat.eqb cb callback)) l = l.
Proof.
  induction l as [|x l IH]; [done|]. rewrite not_elem_of_cons.
  intros [Hne Hl]. simpl. destruct (Nat.eqb_spec x callback); [congruence|].
  simpl. f_equal. by apply IH.
Qed.

(** For an event the constructor names: [on] appends the callback, so
    it is called last; [off] removes every registration of the
    callback, leaves the other callbacks in their order, and brings
    the registry back when the callback was new; neither touches
    another event. *)
Theorem subscribe_then_unsubscribe
  (ls : Listeners) (event : string) (callback : Callback)
  (before : list Callback)
  (Hname : event <> "__proto__"%string)
  (Hown : ls !! event = Some before) :
  exists ls1 ls2,
    on ls event callback = Ret ls1
    /\ emit ls1 event = Ret (before ++ [callback])
    /\ off ls1 event callback = Ret ls2
    /\ emit ls2 event
       = Ret (List.filter (fun cb => negb (Nat.eqb cb callback)) before)
    /\ (callback ∉ before -> ls2 = ls)
    /\ (forall other, other <> event ->
          emit ls1 other = emit ls other /\ emit ls2 other = emit ls other).
Proof.
  eexists _, _. unfold on. rewrite (slot_own _ _ _ Hname Hown).
  split; [reflexivity|].
  assert (Hfilter :
    List.filter (fun cb => negb (Nat.eqb cb callback)) (before ++ [callback])
    = List.filter (fun cb => negb (Nat.eqb cb callback)) before).
  { rewrite List.filter_app. simpl. rewrite Nat.eqb_refl. simpl.
    by rewrite app_nil_r. }
  split; [by rewrite emit_insert, String.eqb_refl|].
  unfold off. rewrite (slot_own _ event (before ++ [callback]) Hname)
    by by rewrite lookup_insert_eq.
  split; [reflexivity|]. rewrite insert_insert_eq, Hfilter. split_and!.
  - by rewrite emit_insert, String.eqb_refl.
  - intros Hnew. rewrite filter_other by done. by apply insert_id.
  - intros other Hne. rewrite !emit_insert by done.
    apply String.eqb_neq in Hne. by rewrite Hne.
Qed.

Lemma subscribe_then_unsubscribe_witness :
  exists ls1 ls2,
    on connection_listeners "data" 7 = Ret ls1
    /\ emit ls1 "data" = Ret [7]
    /\ off ls1 "data" 7 = Ret ls2
    /\ ls2 = connection_listeners.
Proof.
  destruct (subscribe_then_unsubscribe connection_listeners "data" 7 [])
    as (ls1 & ls2 & Hon & Hemit & Hoff & _ & Hback & _);
    [discriminate | reflexivity |].
  exists ls1, ls2. split_and!; [done | done | done |].
  apply Hback. apply not_elem_of_nil.
Defined.

(** The calls that change a registry. *)
Inductive Call :=
| On (event : string) (callback : Callback)
| Off (event : string) (callback : Callback).

Definition apply_call (ls : Listeners) (c : Call) : Exc Listeners :=
  match c with
  | On event callback => on ls event callback
  | Off event callback => off ls event callback
  end.

Fixpoint apply_calls (ls : Listeners) (calls : list Call) : Exc Listeners :=
  match calls with
  | [] => Ret ls
  | c :: rest =>
      match apply_call ls c with
      | Ret ls' => apply_calls ls' rest
      | Throw e => Throw e
      end
  end.

Lemma apply_call_undeclared ls c ls' event :
  ls !! event = None -> apply_call ls c = Ret ls' -> ls' !! event = None.
Proof.
  intros Hnot. destruct c as [e cb|e cb]; simpl; unfold on, off;
    (destruct (slot ls e) eqn:Hs; [|discriminate|by intros [= <-]]);
    intros [= <-]; (rewrite lookup_insert_ne; [done|]); intros ->;
    unfold slot in Hs; rewrite Hnot in Hs;
    destruct (String.eqb _ _); try discriminate;
    destruct (inherited_name _); discriminate.
Qed.

(** The events of a registry are those of its constructor: a callback
    registered under any other name is dropped without an error, and
    [emit] of that name calls nothing, whatever was registered
    since. *)
Theorem undeclared_event_is_never_delivered
  (ls ls' : Listeners) (calls : list Call) (event : string)
  (Hnot : ls !! event = None)
  (Hplain : inherited_name event = false)
  (Hcalls : apply_calls ls calls = Ret ls') :
  emit ls' event = Ret []
  /\ forall callback, on ls' event callback = Ret ls'.
Proof.
  assert (Hnot' : ls' !! event = None).
  { revert ls Hnot Hcalls. induction calls as [|c calls IH]; intros ls Hnot.
    - by intros [= <-].
    - simpl. destruct (apply_call ls c) as [ls1|] eqn:Hc; [|discriminate].
      apply IH. by eapply apply_call_undeclared. }
  unfold emit, on. by rewrite (slot_absent _ _ Hplain Hnot').
Qed.

Lemma undeclared_event_is_never_delivered_witness :
  exists ls',
    apply_calls alerts_listeners [On "alerts" 1; On "alert" 2] = Ret ls'
    /\ emit ls' "alerts" = Ret [] /\ emit ls' "alert" = Ret [2].
Proof.
  eexists. split; [reflexivity|]. split; [|reflexivity].
  eapply (undeclared_event_is_never_delivered alerts_listeners _
            [On "alerts" 1; On "alert" 2] "alerts"); reflexivity.
Defined.

End EventsProps.

(** ** The export window *)

Module ExportProps.
Import Storage ExportManager.
Local Open Scope list_scope.

Lemma lookup_hours_cases timeRange :
  inherited_name timeRange = false ->
  exists h, lookup_hours timeRange = Some h /\ (0 < h)%Z
            /\ ((forall x, (timeRange, x) ∉ timeRanges) -> h = 24%Z).
Proof.
  intros Hplain. unfold lookup_hours, timeRanges. cbn [List.find fst].
  repeat match goal with
  | |- context [String.eqb ?a timeRange] =>
      destruct (String.eqb_spec a timeRange) as [<-|_];
        [eexists; split; [reflexivity|]; split; [lia|];
         intros Hout; exfalso; eapply Hout; rewrite !elem_of_cons;
         repeat first [left; reflexivity | right]|]
  end.
  rewrite Hplain. eexists. split_and!; [done | lia | done].
Qed.

(** With the storage open, [getReadings(timeRange)] returns the stored
    readings whose numeric timestamp lies between
    [getStartTime(timeRange)] and the time of the call, oldest first;
    the start is 0 for ['all'] and 24 hours back for a name that
    [timeRanges] does not have. *)
Theorem export_reads_its_window
  (sm : StorageManager) (d : DB) (timeRange : string) (now : Z)
  (Hd : db sm = Some d)
  (Hnow : (0 <= now)%Z)
  (Hplain : inherited_name timeRange = false) :
  exists start l,
    getStartTime timeRange now = Some start
    /\ (start <= now)%Z
    /\ ExportManager.getReadings sm timeRange now = Ret (reading_object <$> l)
    /\ (forall e, e ∈ l <->
          e ∈ records (readings d)
          /\ exists q, reading_timestamp (snd e) = Some q
                       /\ (inject_Z start <= q)%Q /\ (q <= inject_Z now)%Q)
    /\ StronglySorted StorageProps.by_time l
    /\ (timeRange = "all"%string -> start = 0%Z)
    /\ ((forall x, (timeRange, x) ∉ timeRanges) ->
        start = (now - 24 * 60 * 60 * 1000)%Z).
Proof.
  unfold getStartTime, ExportManager.getReadings. rewrite Hd.
  destruct (String.eqb_spec timeRange "all") as [->|Hne].
  - exists 0%Z, (readings_in_range (readings d) 0 (inject_Z now)).
    unfold Storage.getReadings. rewrite Hd.
    destruct (StorageProps.readings_in_range_spec (readings d) 0 (inject_Z now))
      as [Hin Hsorted].
    split_and!; try done.
    intros Hout. exfalso. eapply (Hout None). unfold timeRanges.
    rewrite !elem_of_cons. repeat first [left; reflexivity | right].
  - destruct (lookup_hours_cases timeRange Hplain) as (h & -> & Hh & Hdefault).
    exists (now - h * 60 * 60 * 1000)%Z,
           (readings_in_range (readings d)
              (inject_Z (now - h * 60 * 60 * 1000)) (inject_Z now)).
    unfold getReadingsLastHours, Storage.getReadings. rewrite Hd.
    destruct (StorageProps.readings_in_range_spec (readings d)
                (inject_Z (now - h * 60 * 60 * 1000)) (inject_Z now))
      as [Hin Hsorted].
    split_and!; try done; [lia|].
    intros Hout. by rewrite (Hdefault Hout).
Qed.

Lemma export_reads_its_window_witness :
  exists start l,
    getStartTime "yesterday" 1700000000000 = Some start
    /\ start = (1700000000000 - 24 * 60 * 60 * 1000)%Z
    /\ ExportManager.getReadings Storage.initial "yesterday" 1700000000000
       = Ret (reading_object <$> l).
Proof.
  destruct (export_reads_its_window Storage.initial empty_db "yesterday"
              1700000000000 eq_refl) as (start & l & Hs & _ & Hr & _ & _ & _ & Hdef);
    [lia | reflexivity |].
  exists start, l. split_and!; [done | | done].
  apply Hdef. intros x Hx. unfold timeRanges in Hx.
  rewrite !elem_of_cons, elem_of_nil in Hx.
  decompose [or] Hx; first [discriminate | contradiction].
Defined.

End ExportProps.

(** ** The cached analysis *)

Module GeminiProps.
Import Storage Gemini.
Local Open Scope list_scope.

Lemma within_interval_after rt key response now interval later :
  (later - now < interval)%Z ->
  within_interval rt (mkGemini key response (num_of_Z now) interval) later
  = Ret true.
Proof.
  intros Hlt. unfold within_interval, to_number.
  cbn [lastAnalysisTime num_of_Z converts number_of analysisInterval
       mbind mret exc_bind exc_ret JS.bind].
  f_equal. apply negb_true_iff, not_true_iff_false. rewrite Qle_bool_iff.
  assert (Heq : (inject_Z later - inject_Z now == inject_Z (later - now))%Q).
  { unfold Z.sub. by rewrite inject_Z_plus, inject_Z_opp. }
  rewrite Heq, <- Zle_Qle. lia.
Qed.

(** The manager right after the API answered [response] at [now]. *)
Definition answered (g : GeminiManager) (response : string) (now : Z)
  : GeminiManager :=
  mkGemini (apiKey g) (JStr response) (num_of_Z now) (analysisInterval g).

Lemma answered_is_cached rt api io g sm settings response now later :
  isConfigured g = true -> response <> ""%string ->
  (later - now < analysisInterval g)%Z ->
  generateAnalysis rt api io (answered g response now) sm settings false later
  = (answered g response now, settings, Analysis (JStr response) true).
Proof.
  intros Hkey Hresp Hlt. unfold generateAnalysis.
  assert (isConfigured (answered g response now) = true) as -> by done.
  cbn [negb]. unfold answered at 1 2.
  cbn [lastAnalysis truthy]. apply String.eqb_neq in Hresp. rewrite Hresp.
  cbn [negb andb]. by rewrite within_interval_after.
Qed.

(** What a call of [generateAnalysis] can have done. *)
Lemma generateAnalysis_cases rt api io g sm settings force now g' settings' result :
  generateAnalysis rt api io g sm settings force now = (g', settings', result) ->
  (g' = g /\ settings' = settings
   /\ (forall analysis, result <> Analysis analysis false))
  \/ (isConfigured g = true
      /\ exists response,
           api = ApiText response /\ g' = answered g response now
           /\ ((result = Analysis (JStr response) false
                /\ (db sm = None -> settings' = settings)
                /\ (is_Some (db sm) ->
                    io = IOSuccess
                    /\ settings'
                       = <["lastAnalysis" :=
                             JObj [("text", JStr response);
                                   ("timestamp", num_of_Z now)]]> settings))
               \/ (exists message,
                     io = IOError message /\ is_Some (db sm)
                     /\ settings' = settings
                     /\ result = Failed (message_or_default message)))).
Proof.
  unfold generateAnalysis.
  destruct (isConfigured g) eqn:Hkey; cbn [negb];
    [|intros [= <- <- <-]; left; by split_and!].
  destruct (if negb force && truthy (lastAnalysis g)
            then within_interval rt g now else Ret false) as [[|]|e];
    [intros [= <- <- <-]; left; by split_and!| |
     intros [= <- <- <-]; left; by split_and!].
  destruct (getRecentReadings sm now) as [readings|e];
    [|intros [= <- <- <-]; left; by split_and!].
  destruct (Nat.eqb (length readings) 0);
    [intros [= <- <- <-]; left; by split_and!|].
  destruct api as [response|message];
    [|intros [= <- <- <-]; left; by split_and!].
  intros H. right. split; [done|]. exists response. split; [done|].
  destruct (db sm) as [d|] eqn:Hd.
  - unfold saveSetting in H. destruct io as [|message].
    + injection H as <- <- <-. split; [done|]. left.
      split_and!; [done | discriminate | done].
    + injection H as <- <- <-. split; [done|]. right.
      exists message. by split_and!.
  - injection H as <- <- <-. split; [done|]. left.
    split_and!; [done | done | by intros [? ?]].
Qed.

(** An analysis obtained from the API is served from memory, marked
    [cached], to every call without [forceRefresh] made less than the
    analysis interval after it, without reading the store or calling
    the API. *)
Theorem analysis_cached_within_interval
  (rt : Runtime) (api : ApiOutcome) (io : IOOutcome) (g g1 : GeminiManager)
  (sm : StorageManager) (settings settings1 : SettingsStore)
  (force : bool) (now : Z) (analysis : JSValue)
  (Hfirst : generateAnalysis rt api io g sm settings force now
            = (g1, settings1, Analysis analysis false))
  (Htext : truthy analysis = true) :
  forall (api' : ApiOutcome) (io' : IOOutcome) (sm' : StorageManager)
         (settings' : SettingsStore) (later : Z),
    (later - now < analysisInterval g)%Z ->
    generateAnalysis rt api' io' g1 sm' settings' false later
    = (g1, settings', Analysis analysis true).
Proof.
  intros api' io' sm' settings' later Hlt.
  destruct (generateAnalysis_cases _ _ _ _ _ _ _ _ _ _ _ Hfirst)
    as [(_ & _ & Hno)|(Hkey & response & _ & -> & Hres)].
  - by destruct (Hno analysis).
  - destruct Hres as [([= ->] & _)|(message & _ & _ & _ & [=])].
    apply answered_is_cached; [done | | done].
    intros ->. discriminate.
Qed.

Definition stored_reading : JSValue :=
  JObj [("timestamp", JNum 1699999999000);
        ("respiration", JObj [("value", JNum 40)])].

Definition one_reading : StorageManager :=
  fst (saveReading IOSuccess Storage.initial stored_reading 1699999999000).

Lemma analysis_cached_within_interval_witness :
  let first := generateAnalysis AlertsProps.silent_runtime (ApiText "All calm.")
                 IOSuccess (initial "key") one_reading ∅ false 1700000000000 in
  generateAnalysis AlertsProps.silent_runtime (ApiError "offline") IOSuccess
    (fst (fst first)) Storage.initial ∅ false 1700000299999
  = (fst (fst first), ∅, Analysis (JStr "All calm.") true).
Proof.
  apply (analysis_cached_within_interval AlertsProps.silent_runtime
           (ApiText "All calm.") IOSuccess (initial "key") _ one_reading ∅ _
           false 1700000000000 (JStr "All calm.") eq_refl eq_refl
           (ApiError "offline") IOSuccess Storage.initial ∅ 1700000299999).
  simpl. lia.
Defined.

(** A call that reports a failure leaves the settings store as it was,
    and leaves the manager as it was unless the API had answered and
    only the write of the answer failed: then the answer is in memory,
    and the next call within the interval returns it as a cached
    success. *)
Theorem failed_analysis_keeps_or_caches
  (rt : Runtime) (api : ApiOutcome) (io : IOOutcome) (g g1 : GeminiManager)
  (sm : StorageManager) (settings settings1 : SettingsStore)
  (force : bool) (now : Z) (error : string)
  (Hfailed : generateAnalysis rt api io g sm settings force now
             = (g1, settings1, Failed error)) :
  settings1 = settings
  /\ (g1 = g
      \/ exists response message,
           api = ApiText response /\ io = IOError message
           /\ error = message_or_default message
           /\ lastAnalysis g1 = JStr response
           /\ (response <> ""%string ->
               forall api' io' sm' settings' later,
                 (later - now < analysisInterval g)%Z ->
                 generateAnalysis rt api' io' g1 sm' settings' false later
                 = (g1, settings', Analysis (JStr response) true))).
Proof.
  destruct (generateAnalysis_cases _ _ _ _ _ _ _ _ _ _ _ Hfailed)
    as [(-> & -> & _)|(Hkey & response & -> & -> & Hres)].
  - split; [done|]. by left.
  - destruct Hres as [([=] & _)|(message & -> & _ & -> & [= ->])].
    split; [done|]. right. exists response, message.
    split_and!; try done.
    intros Hresp api' io' sm' settings' later Hlt.
    by apply answered_is_cached.
Qed.

Lemma failed_analysis_keeps_or_caches_witness :
  let first := generateAnalysis AlertsProps.silent_runtime (ApiText "All calm.")
                 (IOError "QuotaExceededError") (initial "key") one_reading ∅
                 false 1700000000000 in
  snd first = Failed "QuotaExceededError"
  /\ snd (generateAnalysis AlertsProps.silent_runtime (ApiError "offline") IOSuccess
            (fst (fst first)) one_reading ∅ false 1700000001000)
     = Analysis (JStr "All calm.") true.
Proof.
  cbn zeta. split; [reflexivity|].
  destruct (failed_analysis_keeps_or_caches AlertsProps.silent_runtime
              (ApiText "All calm.") (IOError "QuotaExceededError") (initial "key")
              _ one_reading ∅ _ false 1700000000000 _ eq_refl)
    as [_ [Hsame|(response & message & [= <-] & _ & _ & _ & Hnext)]];
    [discriminate|].
  rewrite (Hnext ltac:(discriminate) (ApiError "offline") IOSuccess one_reading ∅
             1700000001000); [reflexivity|simpl; lia].
Defined.

(** An analysis written to the settings store survives a reload: a new
    manager that runs [loadLastAnalysis] serves it as a cached success
    until the interval after the original call has passed. *)
Theorem analysis_survives_reload
  (rt : Runtime) (api : ApiOutcome) (g g1 : GeminiManager)
  (sm sm2 : StorageManager) (settings settings1 : SettingsStore)
  (force : bool) (now : Z) (analysis : JSValue) (key : string)
  (Hopen : is_Some (db sm) /\ is_Some (db sm2))
  (Hfirst : generateAnalysis rt api IOSuccess g sm settings force now
            = (g1, settings1, Analysis analysis false))
  (Htext : truthy analysis = true)
  (Hkey : isConfigured (initial key) = true) :
  exists g2 saved,
    loadLastAnalysis IOSuccess (initial key) sm2 settings1 = (g2, Ret saved)
    /\ lastAnalysis g2 = analysis
    /\ forall api' io' sm' settings' later,
         (later - now < 5 * 60 * 1000)%Z ->
         generateAnalysis rt api' io' g2 sm' settings' false later
         = (g2, settings', Analysis analysis true).
Proof.
  destruct Hopen as [[d Hd] [d2 Hd2]].
  destruct (generateAnalysis_cases _ _ _ _ _ _ _ _ _ _ _ Hfirst)
    as [(_ & _ & Hno)|(_ & response & _ & _ & Hres)];
    [by destruct (Hno analysis)|].
  destruct Hres as [([= ->] & _ & Hsaved)|(message & [=] & _)].
  destruct Hsaved as [_ ->]; [by eexists|].
  unfold loadLastAnalysis. rewrite Hd2. unfold getSetting.
  rewrite lookup_insert_eq. cbn [truthy prop own_get String.eqb Ascii.eqb Bool.eqb].
  eexists _, _. split; [reflexivity|]. split; [done|].
  intros api' io' sm' settings' later Hlt.
  apply (answered_is_cached rt api' io' (initial key) sm' settings' response now later);
    [done | | done].
  intros ->. discriminate.
Qed.

Lemma analysis_survives_reload_witness :
  let first := generateAnalysis AlertsProps.silent_runtime (ApiText "All calm.")
                 IOSuccess (initial "key") one_reading ∅ false 1700000000000 in
  exists g2 saved,
    loadLastAnalysis IOSuccess (initial "key") Storage.initial (snd (fst first))
    = (g2, Ret saved)
    /\ lastAnalysis g2 = JStr "All calm.".
Proof.
  cbn zeta.
  destruct (analysis_survives_reload AlertsProps.silent_runtime
              (ApiText "All calm.") (initial "key") _ one_reading Storage.initial
              ∅ _ false 1700000000000 (JStr "All calm.") "key"
              (conj (ex_intro _ _ eq_refl) (ex_intro _ _ eq_refl))
              eq_refl eq_refl eq_refl)
    as (g2 & saved & Hload & Hlast & _).
  by exists g2, saved.
Defined.

End GeminiProps.

(** ** From a poll to the trend window *)

Module PipelineProps.
Import Storage.
Local Open Scope list_scope.
Local Open Scope nat_scope.

Lemma normalized_timestamp payload now reading :
  Normalizer.normalizeReading payload now = Ret reading ->
  prop reading "timestamp" = or_else (prop payload "timestamp") (num_of_Z now)
  /\ storable reading = true.
Proof.
  unfold Normalizer.normalizeReading. rewrite !AlertsProps.bind_get.
  destruct (nullish payload); [discriminate|].
  intros [= <-]. by split.
Qed.

(** A polled reading is stored under the timestamp the device sent, or
    under the time of the poll when the payload has none; the
    one-hour query that the trends and the analysis use returns it
    exactly while that timestamp lies within the hour before the
    query, whatever the time at which it was saved. *)
Theorem polled_reading_in_hour_window
  (sm : StorageManager) (d : DB) (payload reading : JSValue)
  (polled saved_at : Z) (q : Q)
  (Hd : db sm = Some d)
  (Hwf : StorageProps.wf (readings d))
  (Hmax : 1 <= maxReadings sm)
  (Hnorm : Normalizer.normalizeReading payload polled = Ret reading)
  (Hts : or_else (prop payload "timestamp") (num_of_Z polled) = JNum q)
  (Hq : truthy (JNum q) = true) :
  exists k record,
    snd (saveReading IOSuccess sm reading saved_at) = Ret k
    /\ own_get record "timestamp" = Some (JNum q)
    /\ forall later : Z,
       exists l,
         getReadingsLastHours (fst (saveReading IOSuccess sm reading saved_at))
                              (Some 1%Z) later
         = Ret (reading_object <$> l)
         /\ ((k, record) ∈ l <->
             (inject_Z (later - 1 * 60 * 60 * 1000) <= q)%Q
             /\ (q <= inject_Z later)%Q).
Proof.
  destruct (normalized_timestamp _ _ _ Hnorm) as [Hprop Hstorable].
  rewrite (StorageProps.saveReading_resolved sm d reading saved_at Hd Hstorable).
  cbn [fst snd].
  exists (keyGen (readings d)), (StorageProps.record_of (reading, saved_at)).
  assert (Hrec : own_get (StorageProps.record_of (reading, saved_at)) "timestamp"
                 = Some (JNum q)).
  { unfold StorageProps.record_of. cbn [fst snd].
    rewrite StorageProps.own_get_set, Hprop, Hts. unfold or_else. by rewrite Hq. }
  split; [done|]. split; [done|]. intros later.
  unfold getReadingsLastHours, getReadings. cbn [db readings].
  eexists. split; [reflexivity|].
  match goal with |- context [readings_in_range ?st ?a ?b] =>
    destruct (StorageProps.readings_in_range_spec st a b) as [Hin _]
  end.
  rewrite Hin. split.
  - intros (_ & q' & Hq' & Hrange). unfold reading_timestamp in Hq'.
    cbn [snd] in Hq'. rewrite Hrec in Hq'. by injection Hq' as <-.
  - intros Hrange. split.
    + rewrite StorageProps.cleanupOldReadings_drop
        by by apply StorageProps.store_add_wf.
      unfold store_add, store_count. cbn [fst records].
      apply StorageProps.last_survives. rewrite length_app. simpl. lia.
    + exists q. split; [|done]. unfold reading_timestamp. cbn [snd].
      by rewrite Hrec.
Qed.

Lemma polled_reading_in_hour_window_witness :
  exists reading k,
    Normalizer.normalizeReading (JObj []) 1700000000000 = Ret reading
    /\ snd (saveReading IOSuccess Storage.initial reading 1700000000005) = Ret k.
Proof.
  eexists.
  assert (Hmax : 1 <= maxReadings Storage.initial) by (vm_compute; lia).
  destruct (polled_reading_in_hour_window Storage.initial empty_db (JObj []) _
              1700000000000 1700000000005 (inject_Z 1700000000000) eq_refl
              StorageProps.empty_store_wf Hmax eq_refl eq_refl eq_refl)
    as (k & record & Hk & _).
  exists k. by split.
Defined.

End PipelineProps.
